(** * 3DPostureSense: the ESP32 data-acquisition sketch

    A shallow embedding of [src/ESP32/dataacquisitionc.cpp]: the voltage to
    force calibration chain, the exponential filter, the rest / centre of
    pressure / dead-zone logic and the telemetry gate of [loop()], together
    with the auto-zeroing of [setup()].

    Arithmetic is the arithmetic of the target.  A C++ [float] is an IEEE 754
    binary32 number and a [double] a binary64 number, both taken from the
    executable specification [SpecFloat] of the standard library, with
    round-to-nearest-even and every operation rounded on its own, in the
    order the source writes them and with the promotions of C++ ([float]
    operands meet a [double] operand in [double]; the result is rounded back
    when it is stored in a [float]).  [unsigned long] is a 32-bit word.

    Properties that hold for every voltage, rather than for the ones a run
    meets, are proved through the real numbers the floating-point data stand
    for, with a bound on the error of each rounding. *)

From Stdlib Require Import ZArith Bool List Lia.
From Stdlib Require Import Reals Lra.
From Stdlib Require Import Floats.SpecFloat.
Import ListNotations.
Open Scope Z_scope.

(** ** Floating-point types of the target *)

(** [float]: IEEE 754 binary32. *)
Module F32.
Definition prec : Z := 24.
Definition emax : Z := 128.

Definition add := SFadd prec emax.
Definition sub := SFsub prec emax.
Definition mul := SFmul prec emax.
Definition div := SFdiv prec emax.
Definition sqrt := SFsqrt prec emax.

(** [0.0f]. *)
Definition zero : spec_float := S754_zero false.

(** Rounding of a finite binary number of any width to a [float]. *)
Definition round (x : spec_float) : spec_float :=
  match x with
  | S754_finite s m e => binary_round prec emax s m e
  | _ => x
  end.

(** The literal [n / k], for a decimal literal with suffix [f]. *)
Definition literal (neg : bool) (n k : positive) : spec_float :=
  div (S754_finite neg n 0) (S754_finite false k 0).

Definition of_int (n : Z) : spec_float := binary_normalize prec emax n 0 false.
End F32.

(** [double]: IEEE 754 binary64. *)
Module F64.
Definition prec : Z := 53.
Definition emax : Z := 1024.

Definition add := SFadd prec emax.
Definition sub := SFsub prec emax.
Definition mul := SFmul prec emax.
Definition div := SFdiv prec emax.

(** Promotion of a [float] (exact), and rounding in general. *)
Definition round (x : spec_float) : spec_float :=
  match x with
  | S754_finite s m e => binary_round prec emax s m e
  | _ => x
  end.

Definition literal (neg : bool) (n k : positive) : spec_float :=
  div (S754_finite neg n 0) (S754_finite false k 0).

Definition of_int (n : Z) : spec_float := binary_normalize prec emax n 0 false.
End F64.

Definition float : Type := spec_float.
Definition double : Type := spec_float.

(** Comparisons of C++ on floating-point values: every comparison with a
    NaN is false. *)
Definition flt (x y : float) : bool := SFltb x y.
Definition fle (x y : float) : bool := SFleb x y.
Definition fgt (x y : float) : bool := SFltb y x.

(** [NAN] of [<math.h>]. *)
Definition NAN : float := S754_nan.

(** [max] of the ESP32 Arduino core is [std::max]:
    [max(a, b)] is [(a < b) ? b : a]. *)
Definition max (a b : float) : float := if flt a b then b else a.

(** [unsigned long] is 32 bits wide on the ESP32. *)
Definition ULONG : Z := 2 ^ 32.
Definition ulong (z : Z) : Z := z mod ULONG.

(** ** Constants of the sketch *)

Definition LOG_INTERVAL_MS : Z := 50.

(** [P1 = -2.13971683f], [P2 = 18.96856857f], [P3 = -25.61022289f]. *)
Definition P1 : float := S754_finite true 8974623 (-22).
Definition P2 : float := S754_finite false 9944993 (-19).
Definition P3 : float := S754_finite true 13427133 (-19).

(** [C_REL_LEFT = 1.0f], [C_REL_RIGHT = 23.0/26.0f], [C_REL_VTC = 23.0/32.4f]:
    the two quotients are taken in [double] and stored in a [float]. *)
Definition C_REL_LEFT : float := S754_finite false 8388608 (-23).
Definition C_REL_RIGHT : float :=
  F32.round (F64.div (F64.of_int 23) (F64.round (F32.literal false 26 1))).
Definition C_REL_VTC : float :=
  F32.round (F64.div (F64.of_int 23) (F64.round (F32.literal false 324 10))).

(** [SYSTEM_FORCE_SCALE = 5.91f]. *)
Definition SYSTEM_FORCE_SCALE : float := S754_finite false 12394168 (-21).

(** [EMA_ALPHA = 0.15f]. *)
Definition EMA_ALPHA : float := S754_finite false 10066330 (-26).

Definition ZEROING_SAMPLES : nat := 200.

(** Sensor geometry, in cm. *)
Definition P_LEFT_XY : float * float := (F32.zero, F32.zero).
Definition P_RIGHT_XY : float * float := (F32.of_int 7, F32.zero).
Definition P_VTC_XY : float * float := (F32.literal false 35 10, F32.of_int 22).
Definition GEOMETRIC_CENTER_XY : float * float :=
  (F32.round (F64.div (F64.round (F32.add (F32.add (fst P_LEFT_XY) (fst P_RIGHT_XY))
                                          (fst P_VTC_XY)))
                      (F64.of_int 3)),
   F32.round (F64.div (F64.round (F32.add (F32.add (snd P_LEFT_XY) (snd P_RIGHT_XY))
                                          (snd P_VTC_XY)))
                      (F64.of_int 3))).

(** [MIN_REST_THRESHOLD_N = 3.5], [DEAD_ZONE_RADIUS_CM = 2.0]. *)
Definition MIN_REST_THRESHOLD_N : float := S754_finite false 14680064 (-22).
Definition DEAD_ZONE_RADIUS_CM : float := S754_finite false 8388608 (-22).

(** The [double] constant [3.3 / 4095.0] of the voltage conversion. *)
Definition ADC_VOLTS_PER_COUNT : double :=
  F64.div (F64.literal false 33 10) (F64.of_int 4095).

(** The [double] constant [1.0 - EMA_ALPHA]. *)
Definition EMA_BETA : double := F64.sub (F64.of_int 1) (F64.round EMA_ALPHA).

(** ** Helper functions *)

(** [analogRead(pin) * (3.3 / 4095.0)] stored in a [float]; [count] is the
    value [analogRead] returned. *)
Definition adcVoltage (count : Z) : float :=
  F32.round (F64.mul (F64.of_int count) ADC_VOLTS_PER_COUNT).

(** [(P1 * voltage * voltage) + (P2 * voltage) + P3]. *)
Definition transfer (voltage : float) : float :=
  F32.add (F32.add (F32.mul (F32.mul P1 voltage) voltage) (F32.mul P2 voltage)) P3.

Definition voltageToRawUnit (voltage v_rest : float) : float :=
  if fle voltage v_rest then F32.zero
  else
    let raw_estimate := transfer voltage in
    max F32.zero raw_estimate.

(** [(EMA_ALPHA * v_raw) + (1.0 - EMA_ALPHA) * filtered]: the first product is
    a [float] product, the rest is computed in [double]. *)
Definition ema (v_raw filtered : float) : float :=
  F32.round (F64.add (F64.round (F32.mul EMA_ALPHA v_raw))
                     (F64.mul EMA_BETA (F64.round filtered))).

(** ** State of the sketch *)

(** The global variables. *)
Record Sketch := mkSketch {
  lastLogTime : Z;
  filtered_v_left : float;
  filtered_v_right : float;
  filtered_v_vtc : float;
  v_rest_left : float;
  v_rest_right : float;
  v_rest_vtc : float;
  was_in_deadzone : bool
}.

(** What one pass of [loop()] reads from the hardware: the three
    [analogRead] results and the elapsed milliseconds at the (up to) three
    calls of [millis()]. *)
Record Readings := mkReadings {
  adc_left : Z;
  adc_right : Z;
  adc_vtc : Z;
  clock_gate : Z;
  clock_store : Z;
  clock_print : Z
}.

Definition millis (elapsed : Z) : Z := ulong elapsed.

(** The local variables of one pass of [loop()]. *)
Record Cycle := mkCycle {
  F_left : float;
  F_right : float;
  F_vtc : float;
  F_tot : float;
  isArmRested : bool;
  cop_x : float;
  cop_y : float;
  copStateChanged : bool;
  now_in_deadzone : bool
}.

(** One line of telemetry, in the order of the header. *)
Record Row := mkRow {
  row_Timestamp : Z;
  row_F_left : float;
  row_F_right : float;
  row_F_vtc : float;
  row_F_tot : float;
  row_is_rested : bool;
  row_copStateChanged : bool;
  row_CoP_X : float;
  row_CoP_Y : float
}.

(** ** Division

    C++ leaves a division by zero undefined: the embedding makes it a fault
    of its own, so that "no division by zero" is a property of [loop]. *)
Inductive outcome (A : Type) : Type :=
| Done (a : A)
| DivisionByZero.
Arguments Done {A} a.
Arguments DivisionByZero {A}.

Definition bind {A B : Type} (o : outcome A) (k : A -> outcome B) : outcome B :=
  match o with
  | Done a => k a
  | DivisionByZero => DivisionByZero
  end.

Notation "x <- o ;; k" := (bind o (fun x => k))
  (at level 61, o at next level, right associativity).

Definition is_zero (x : float) : bool :=
  match x with
  | S754_zero _ => true
  | _ => false
  end.

Definition fdiv (x y : float) : outcome float :=
  if is_zero y then DivisionByZero else Done (F32.div x y).

(** ** [loop()] *)

(** Step 4 of [loop()]: rest state, centre of pressure and dead zone.  The
    result is [(cop_x, cop_y, copStateChanged, now_in_deadzone)] and the new
    value of the global [was_in_deadzone]. *)
Definition copStage (F_left F_right F_vtc F_tot : float) (isArmRested was : bool)
  : outcome (float * float * bool * bool * bool) :=
  if isArmRested then
    cop_x <- fdiv (F32.add (F32.add (F32.mul (fst P_LEFT_XY) F_left)
                                    (F32.mul (fst P_RIGHT_XY) F_right))
                           (F32.mul (fst P_VTC_XY) F_vtc)) F_tot ;;
    cop_y <- fdiv (F32.add (F32.add (F32.mul (snd P_LEFT_XY) F_left)
                                    (F32.mul (snd P_RIGHT_XY) F_right))
                           (F32.mul (snd P_VTC_XY) F_vtc)) F_tot ;;
    let dx := F32.sub cop_x (fst GEOMETRIC_CENTER_XY) in
    let dy := F32.sub cop_y (snd GEOMETRIC_CENTER_XY) in
    let dist_from_center := F32.sqrt (F32.add (F32.mul dx dx) (F32.mul dy dy)) in
    let now_in_deadzone := fle dist_from_center DEAD_ZONE_RADIUS_CM in
    let copStateChanged := negb (Bool.eqb now_in_deadzone was) in
    Done (cop_x, cop_y, copStateChanged, now_in_deadzone, now_in_deadzone)
  else
    Done (NAN, NAN, false, false, false).

(** Step 5 of [loop()]: the telemetry gate. *)
Definition logDue (elapsed : Z) (lastLogTime : Z) : bool :=
  LOG_INTERVAL_MS <=? ulong (millis elapsed - lastLogTime).

Definition loop (r : Readings) (g : Sketch) : outcome (Sketch * Cycle * option Row) :=
  (* 1. signal acquisition and filtering *)
  let v_left_raw := adcVoltage (adc_left r) in
  let v_right_raw := adcVoltage (adc_right r) in
  let v_vtc_raw := adcVoltage (adc_vtc r) in
  let filtered_left := ema v_left_raw (filtered_v_left g) in
  let filtered_right := ema v_right_raw (filtered_v_right g) in
  let filtered_vtc := ema v_vtc_raw (filtered_v_vtc g) in
  (* 2. conversion to raw units *)
  let raw_left := voltageToRawUnit filtered_left (v_rest_left g) in
  let raw_right := voltageToRawUnit filtered_right (v_rest_right g) in
  let raw_vtc := voltageToRawUnit filtered_vtc (v_rest_vtc g) in
  (* 3. two-stage calibration *)
  let F_left_corr := F32.mul raw_left C_REL_LEFT in
  let F_right_corr := F32.mul raw_right C_REL_RIGHT in
  let F_vtc_corr := F32.mul raw_vtc C_REL_VTC in
  let F_left := F32.mul F_left_corr SYSTEM_FORCE_SCALE in
  let F_right := F32.mul F_right_corr SYSTEM_FORCE_SCALE in
  let F_vtc := F32.mul F_vtc_corr SYSTEM_FORCE_SCALE in
  let F_tot := F32.add (F32.add F_left F_right) F_vtc in
  (* 4. state, centre of pressure, dead zone *)
  let isArmRested := fgt F_tot MIN_REST_THRESHOLD_N in
  st <- copStage F_left F_right F_vtc F_tot isArmRested (was_in_deadzone g) ;;
  let '(cop_x, cop_y, copStateChanged, now_in_deadzone, was) := st in
  let c := mkCycle F_left F_right F_vtc F_tot isArmRested cop_x cop_y
                   copStateChanged now_in_deadzone in
  (* 5. data logging *)
  let due := logDue (clock_gate r) (lastLogTime g) in
  let last := if due then millis (clock_store r) else lastLogTime g in
  let row :=
    if due then
      Some (mkRow (millis (clock_print r)) F_left F_right F_vtc F_tot isArmRested
                  copStateChanged cop_x cop_y)
    else None in
  Done (mkSketch last filtered_left filtered_right filtered_vtc
                 (v_rest_left g) (v_rest_right g) (v_rest_vtc g) was,
        c, row).

(** A run of [loop()]: the passes in order, one per element of the list of
    readings, with the local variables of every pass and the telemetry rows
    written. *)
Fixpoint run (rs : list Readings) (g : Sketch)
  : outcome (Sketch * list Cycle * list Row) :=
  match rs with
  | [] => Done (g, [], [])
  | r :: rs' =>
    st <- loop r g ;;
    let '(g1, c, row) := st in
    st' <- run rs' g1 ;;
    let '(g2, cs, rows) := st' in
    Done (g2, c :: cs, match row with Some w => w :: rows | None => rows end)
  end.

(** ** [setup()] *)

(** The auto-zeroing: [sample i] is what the three [analogRead] calls of
    iteration [i] return, left, right, vertex. *)
Definition accumulate (sum : float) (count : Z) : float :=
  F32.round (F64.add (F64.round sum) (F64.mul (F64.of_int count) ADC_VOLTS_PER_COUNT)).

Definition setup (sample : nat -> Z * Z * Z) : Sketch :=
  let sums :=
    fold_left
      (fun (s : float * float * float) (i : nat) =>
         let '(sum_v_left, sum_v_right, sum_v_vtc) := s in
         let '(l, r, v) := sample i in
         (accumulate sum_v_left l, accumulate sum_v_right r, accumulate sum_v_vtc v))
      (seq 0 ZEROING_SAMPLES)
      (F32.zero, F32.zero, F32.zero) in
  let '(sum_v_left, sum_v_right, sum_v_vtc) := sums in
  let n := F32.of_int (Z.of_nat ZEROING_SAMPLES) in
  let v_rest_left := F32.div sum_v_left n in
  let v_rest_right := F32.div sum_v_right n in
  let v_rest_vtc := F32.div sum_v_vtc n in
  mkSketch 0 v_rest_left v_rest_right v_rest_vtc v_rest_left v_rest_right v_rest_vtc false.

(** Steps 2 and 3 of [loop()] for one channel: the raw unit of the filtered
    voltage, the relative-sensitivity correction and the global scale. *)
Definition forceFromVoltage
    (filteredVoltage restBaseline relativeSensitivity globalScale : float) : float :=
  let raw := voltageToRawUnit filteredVoltage restBaseline in
  let corr := F32.mul raw relativeSensitivity in
  F32.mul corr globalScale.

(** ** Vocabulary of the properties *)

(** Total correctness: the computation does not fault and its result
    satisfies [P]. *)
Definition ensures {A : Type} (o : outcome A) (P : A -> Prop) : Prop :=
  match o with
  | Done a => P a
  | DivisionByZero => False
  end.

(** A number that is neither an infinity nor a NaN. *)
Definition is_finite (x : float) : bool :=
  match x with
  | S754_zero _ | S754_finite _ _ _ => true
  | _ => false
  end.

(** A number (not a NaN) with sign bit [s]. *)
Definition has_sign (s : bool) (x : float) : Prop :=
  match x with
  | S754_zero s' | S754_infinity s' | S754_finite s' _ _ => s' = s
  | S754_nan => False
  end.

(** Structural equality of floating-point data. *)
Definition same (x y : float) : bool :=
  match x, y with
  | S754_zero s, S754_zero s' => Bool.eqb s s'
  | S754_infinity s, S754_infinity s' => Bool.eqb s s'
  | S754_nan, S754_nan => true
  | S754_finite s m e, S754_finite s' m' e' => Bool.eqb s s' && Pos.eqb m m' && Z.eqb e e'
  | _, _ => false
  end.

(** The [copStateChanged] flags a sequence of dead-zone memberships calls
    for: one flag per membership, raised where it differs from the one
    before it ([prev] before the first). *)
Fixpoint changes (prev : bool) (ms : list bool) : list bool :=
  match ms with
  | [] => []
  | m :: ms' => negb (Bool.eqb m prev) :: changes m ms'
  end.

(** The numerators of the centre of pressure. *)
Definition moment_x (F_left F_right F_vtc : float) : float :=
  F32.add (F32.add (F32.mul (fst P_LEFT_XY) F_left) (F32.mul (fst P_RIGHT_XY) F_right))
          (F32.mul (fst P_VTC_XY) F_vtc).
Definition moment_y (F_left F_right F_vtc : float) : float :=
  F32.add (F32.add (F32.mul (snd P_LEFT_XY) F_left) (F32.mul (snd P_RIGHT_XY) F_right))
          (F32.mul (snd P_VTC_XY) F_vtc).
Definition inDeadZone (cop_x cop_y : float) : bool :=
  let dx := F32.sub cop_x (fst GEOMETRIC_CENTER_XY) in
  let dy := F32.sub cop_y (snd GEOMETRIC_CENTER_XY) in
  fle (F32.sqrt (F32.add (F32.mul dx dx) (F32.mul dy dy))) DEAD_ZONE_RADIUS_CM.

(** What one pass computes, local variable by local variable. *)
Record pass (r : Readings) (g g' : Sketch) (c : Cycle) (row : option Row) : Prop := {
  pass_filtered_left : filtered_v_left g' = ema (adcVoltage (adc_left r)) (filtered_v_left g);
  pass_filtered_right : filtered_v_right g' = ema (adcVoltage (adc_right r)) (filtered_v_right g);
  pass_filtered_vtc : filtered_v_vtc g' = ema (adcVoltage (adc_vtc r)) (filtered_v_vtc g);
  pass_rest_left : v_rest_left g' = v_rest_left g;
  pass_rest_right : v_rest_right g' = v_rest_right g;
  pass_rest_vtc : v_rest_vtc g' = v_rest_vtc g;
  pass_F_left :
    F_left c = forceFromVoltage (filtered_v_left g') (v_rest_left g) C_REL_LEFT SYSTEM_FORCE_SCALE;
  pass_F_right :
    F_right c = forceFromVoltage (filtered_v_right g') (v_rest_right g) C_REL_RIGHT SYSTEM_FORCE_SCALE;
  pass_F_vtc :
    F_vtc c = forceFromVoltage (filtered_v_vtc g') (v_rest_vtc g) C_REL_VTC SYSTEM_FORCE_SCALE;
  pass_F_tot : F_tot c = F32.add (F32.add (F_left c) (F_right c)) (F_vtc c);
  pass_isArmRested : isArmRested c = fgt (F_tot c) MIN_REST_THRESHOLD_N;
  pass_cop :
    if isArmRested c then
      cop_x c = F32.div (moment_x (F_left c) (F_right c) (F_vtc c)) (F_tot c) /\
      cop_y c = F32.div (moment_y (F_left c) (F_right c) (F_vtc c)) (F_tot c) /\
      now_in_deadzone c = inDeadZone (cop_x c) (cop_y c) /\
      copStateChanged c = negb (Bool.eqb (now_in_deadzone c) (was_in_deadzone g))
    else
      cop_x c = NAN /\ cop_y c = NAN /\ now_in_deadzone c = false /\
      copStateChanged c = false;
  pass_was : was_in_deadzone g' = now_in_deadzone c;
  pass_lastLogTime :
    lastLogTime g' =
    if logDue (clock_gate r) (lastLogTime g) then millis (clock_store r) else lastLogTime g;
  pass_row :
    row =
    if logDue (clock_gate r) (lastLogTime g) then
      Some (mkRow (millis (clock_print r)) (F_left c) (F_right c) (F_vtc c) (F_tot c)
                  (isArmRested c) (copStateChanged c) (cop_x c) (cop_y c))
    else None
}.

(** ** Vocabulary of the rounding

    [prec] and [emax] are the precision and the exponent bound of a format,
    as in [SpecFloat]. *)

(** The mantissa and exponent [shr_fexp] leaves. *)
Definition truncated (prec emax m e : Z) : Z * Z :=
  let k := fexp prec emax (Zdigits2 m + e) - e in
  if 0 <? k then (m / 2 ^ k, e + k) else (m, e).

(** What [binary_round_aux] returns for the mantissa [m2] and exponent [e2]
    it ends with. *)
Definition rounded (prec emax : Z) (s : bool) (m2 e2 : Z) : spec_float :=
  if m2 =? 0 then S754_zero s
  else if e2 <=? emax - prec then S754_finite s (Z.to_pos m2) e2
  else S754_infinity s.

(** ** Values of floating-point numbers *)

(** [2 ^ e], and the real number a finite floating-point number stands
    for (0 for the others). *)
Definition bpow (e : Z) : R := powerRZ 2 e.

Definition F2R (x : spec_float) : R :=
  match x with
  | S754_finite s m e => ((if s then -1 else 1) * IZR (Zpos m) * bpow e)%R
  | _ => 0%R
  end.

(** Relative and absolute error of one rounding (coarse: twice the half
    unit in the last place). *)
Definition eps (prec : Z) : R := bpow (1 - prec).
Definition eta (prec emax : Z) : R := bpow (emin prec emax).

(** [r] is a rounding, with sign [s], of the magnitude [x], within [n]
    times the errors of one rounding. *)
Definition rounds (prec emax : Z) (n : R) (s : bool) (x : R) (r : spec_float) : Prop :=
  has_sign s r /\ valid_binary prec emax r = true /\
  (is_finite r = true ->
   (Rabs (F2R r) * (1 - n * eps prec) - n * eta prec emax <= x
    <= Rabs (F2R r) * (1 + n * eps prec) + n * eta prec emax)%R /\
   (Rabs (F2R r) < bpow emax)%R) /\
  (is_finite r = false -> ((1 - eps prec) * bpow emax <= x)%R).

(** A [float] datum: a canonical binary32 number, an infinity or a NaN. *)
Definition is_float (x : float) : Prop := valid_binary F32.prec F32.emax x = true.

(** A finite [float] that is not negative. *)
Definition is_weight (x : float) : Prop :=
  is_float x /\ has_sign false x /\ is_finite x = true.

(** [v] is within [n] roundings of [x]. *)
Definition close (n v x : R) : Prop :=
  (v * (1 - n * / 8388608) - n * / 18446744073709551616 <= x
   <= v * (1 + n * / 8388608) + n * / 18446744073709551616)%R.

(** ** Vocabulary of the real-valued properties *)

(** A finite [double] that is not negative. *)
Definition is_weight64 (x : double) : Prop :=
  valid_binary F64.prec F64.emax x = true /\ has_sign false x /\ is_finite x = true.

(** [v] is within [n] roundings to [double] of [x]. *)
Definition close64 (n v x : R) : Prop :=
  (v * (1 - n * / 4503599627370496) - n * / 18446744073709551616 <= x
   <= v * (1 + n * / 4503599627370496) + n * / 18446744073709551616)%R.

(** The counts of a 12-bit converter. *)
Definition in12bits (count : Z) : Prop := 0 <= count <= 4095.

(** A filtered voltage in the range of the converter. *)
Definition inRange (v : float) : Prop := is_weight v /\ (F2R v <= 331 / 100)%R.

(** A finite non-negative voltage up to 64, and a count of [analogRead]. *)
Definition filterable (v : float) : Prop := is_weight v /\ (F2R v <= 64)%R.
Definition in16bits (count : Z) : Prop := 0 <= count <= 65535.

(** The filter of one channel over the counts [counts], from [filtered]. *)
Definition filterOver (counts : list Z) (filtered : float) : float :=
  fold_left (fun y count => ema (adcVoltage count) y) counts filtered.

(** [new] is the filter update of [old] with the voltage of [count]: it
    differs from [u = alpha * sample + (1 - alpha) * old] by at most
    [u * 2^-21 + 2^-60]. *)
Definition filterUpdate (count : Z) (old new : float) : Prop :=
  is_weight new /\
  (Rabs (F2R new
         - (F2R EMA_ALPHA * F2R (adcVoltage count) + (1 - F2R EMA_ALPHA) * F2R old))
   <= (F2R EMA_ALPHA * F2R (adcVoltage count) + (1 - F2R EMA_ALPHA) * F2R old) / 2097152
      + / 1152921504606846976)%R.

(** The sum of the first [k] counts of a channel, and the sum the
    auto-zeroing accumulates for them. *)
Fixpoint total (counts : nat -> Z) (k : nat) : Z :=
  match k with
  | O => 0
  | S k' => total counts k' + counts k'
  end.

Fixpoint accumulated (counts : nat -> Z) (k : nat) : float :=
  match k with
  | O => F32.zero
  | S k' => accumulate (accumulated counts k') (counts k')
  end.

(** The three channels of the samples of the auto-zeroing. *)
Definition leftOf (sample : nat -> Z * Z * Z) (i : nat) : Z := fst (fst (sample i)).
Definition rightOf (sample : nat -> Z * Z * Z) (i : nat) : Z := snd (fst (sample i)).
Definition vtcOf (sample : nat -> Z * Z * Z) (i : nat) : Z := snd (sample i).

(** The mean of the voltages [count * 3.3 / 4095] of the samples of the
    auto-zeroing, and a baseline within 0.1 mV of it. *)
Definition meanVoltage (counts : nat -> Z) : R :=
  (IZR (total counts ZEROING_SAMPLES) * (33 / 40950) / 200)%R.

Definition baselineOf (counts : nat -> Z) (v_rest : float) : Prop :=
  is_weight v_rest /\ (Rabs (F2R v_rest - meanVoltage counts) <= / 10000)%R.

(** The square of the distance of a point to the centre (3.5, 22/3) of the
    triangle of the sensors. *)
Definition distance2 (cop_x cop_y : float) : R :=
  ((F2R cop_x - 7 / 2) * (F2R cop_x - 7 / 2)
   + (F2R cop_y - 22 / 3) * (F2R cop_y - 22 / 3))%R.

(** The centre of pressure of three forces on the reals: the mean of the
    positions (0, 0), (7, 0) and (3.5, 22) of the sensors, weighted by the
    forces. *)
Definition meanX (F_left F_right F_vtc : float) : R :=
  ((7 * F2R F_right + 7 / 2 * F2R F_vtc) / (F2R F_left + F2R F_right + F2R F_vtc))%R.
Definition meanY (F_left F_right F_vtc : float) : R :=
  (22 * F2R F_vtc / (F2R F_left + F2R F_right + F2R F_vtc))%R.

(** The transfer polynomial on the reals, with the coefficients as the
    source writes them, and the force it stands for. *)
Definition polynomial (v : R) : R :=
  (- (213971683 / 100000000) * v * v + 1896856857 / 100000000 * v
   - 2561022289 / 100000000)%R.

Definition forceOfVoltage (voltage v_rest : float) (relativeSensitivity : R) : R :=
  ((if fle voltage v_rest then 0 else Rmax 0 (polynomial (F2R voltage)))
   * relativeSensitivity * (591 / 100))%R.

(** The calibrated force as the specification gives it, on the reals:
    [max(0, P1 v^2 + P2 v + P3) * relativeSensitivity * globalScale]. *)
Definition specifiedForce (v relativeSensitivity globalScale : R) : R :=
  (Rmax 0 (polynomial v) * relativeSensitivity * globalScale)%R.

(** The force a channel shows on pass [i] of a run, on the reals: the
    polynomial of the filter over the counts up to that pass, from the
    filtered voltage [filtered] before the run. *)
Definition forceOnPass (counts : list Z) (filtered v_rest : float) (relativeSensitivity : R)
    (i : nat) : R :=
  forceOfVoltage (filterOver (firstn (S i) counts) filtered) v_rest relativeSensitivity.

(** The forces of a pass are those of the three channels within [2^-11]. *)
Definition forcesNear (c : Cycle) (left right vtc : R) : Prop :=
  (Rabs (F2R (F_left c) - left) <= / 2048)%R /\
  (Rabs (F2R (F_right c) - right) <= / 2048)%R /\
  (Rabs (F2R (F_vtc c) - vtc) <= / 2048)%R.

(** The counts of a pass are those of a 12-bit converter. *)
Definition readings12bits (r : Readings) : Prop :=
  in12bits (adc_left r) /\ in12bits (adc_right r) /\ in12bits (adc_vtc r).

(** ** Sample states and readings *)

(** A sketch at rest at 1500 counts on every channel, and the same sketch
    with the left and right sensors filtered at 3000 counts. *)
Definition restedAt1500 : Sketch :=
  let v := adcVoltage 1500 in mkSketch 0 v v v v v v false.
Definition loadedInFront : Sketch :=
  let v := adcVoltage 1500 in
  let w := adcVoltage 3000 in mkSketch 0 w w v v v v false.
Definition inZone (g : Sketch) : Sketch :=
  mkSketch (lastLogTime g) (filtered_v_left g) (filtered_v_right g) (filtered_v_vtc g)
           (v_rest_left g) (v_rest_right g) (v_rest_vtc g) true.

(** Readings with the three converter counts and one clock value. *)
Definition readingsAt (l r v t : Z) : Readings := mkReadings l r v t t t.

(** [1.66f]. *)
Definition V_1_66 : float := S754_finite false 13925089 (-23).

Definition calibrated_pass :=
  Eval vm_compute in loop (readingsAt 3000 3000 3000 0) loadedInFront.
Definition unrested_pass :=
  Eval vm_compute in loop (readingsAt 1500 1500 1500 0) (inZone restedAt1500).

Definition stepIntoZone_run :=
  Eval vm_compute in run (repeat (readingsAt 3000 3000 3200 0) 14) loadedInFront.

(** The counts [analogRead] can return: it is a [uint16_t]. *)
Definition ADC_BITS : nat := 16.
Definition ADC_COUNTS : Z := 2 ^ Z.of_nat ADC_BITS.

(** [f] holds on the [2 ^ bits] integers from [lo] on. *)
Fixpoint allFrom (bits : nat) (lo : Z) (f : Z -> bool) : bool :=
  match bits with
  | O => f lo
  | S k => allFrom k lo f && allFrom k (lo + 2 ^ Z.of_nat k) f
  end.

(** The filter holds the voltage of [count] when it is fed that voltage. *)
Definition emaHolds (count : Z) : bool :=
  let v := adcVoltage count in same (ema v v) v.

(** The clock readings of a run are in order from [t] on: [millis()] never
    goes back between two calls ([elapsed] is the time since start, before
    it is cut to an [unsigned long]). *)
Fixpoint clocksOrdered (t : Z) (rs : list Readings) : Prop :=
  match rs with
  | [] => True
  | r :: rs' =>
    t <= clock_gate r /\ clock_gate r <= clock_store r /\
    clock_store r <= clock_print r /\ clocksOrdered (clock_print r) rs'
  end.

(** The passes of a run fall in the window of [T] milliseconds from [a]. *)
Definition inWindow (a T : Z) (rs : list Readings) : Prop :=
  clocksOrdered a rs /\ Forall (fun r => clock_gate r < a + T) rs.

(** The loop polls the clock at least once per millisecond from [t] on, and
    the three calls of [millis()] of a pass return the same value. *)
Fixpoint polledEveryMs (t : Z) (rs : list Readings) : Prop :=
  match rs with
  | [] => True
  | r :: rs' =>
    (clock_gate r = t \/ clock_gate r = t + 1) /\
    clock_store r = clock_gate r /\ clock_print r = clock_gate r /\
    polledEveryMs (clock_gate r) rs'
  end.

(** The clock value of the last pass of a run ([t] for no pass). *)
Definition lastGate (t : Z) (rs : list Readings) : Z := last (map clock_gate rs) t.

(** What the passes of a run compute and keep, the telemetry gate apart. *)
Definition signals (r : Readings) : Z * Z * Z := (adc_left r, adc_right r, adc_vtc r).
Definition pipelineState (g : Sketch) : float * float * float * (float * float * float) * bool :=
  (filtered_v_left g, filtered_v_right g, filtered_v_vtc g,
   (v_rest_left g, v_rest_right g, v_rest_vtc g), was_in_deadzone g).

(** Twenty passes, 30 ms apart. *)
Definition slowRun : list Readings :=
  map (fun k => readingsAt 1500 1500 1500 (30 * Z.of_nat k)) (seq 1 20).

(** Sixty passes, one per millisecond from 3000 ms on. *)
Definition fastRun : list Readings :=
  map (fun k => readingsAt 1500 1500 1500 (3000 + Z.of_nat k)) (seq 0 60).

(** The sketch at rest with its last row written at 3000 ms, and the first
    fifty of the sixty passes. *)
Definition loggedAt3000 : Sketch :=
  let v := adcVoltage 1500 in mkSketch 3000 v v v v v v false.
Definition fiftyPasses : list Readings := firstn 50 fastRun.

Definition slowRun_rows :=
  Eval vm_compute in
    match run slowRun restedAt1500 with
    | Done (_, _, rows) => Some (map row_Timestamp rows)
    | DivisionByZero => None
    end.

(** The count of rows as the specification states it: in every window of
    [T] ms, [T / 50] rows or one more, whatever the passes are. *)
Definition rowCountAsStated : Prop :=
  forall (rs : list Readings) (g : Sketch) (a T : Z),
    0 <= T -> inWindow a T rs ->
    ensures (run rs g) (fun '(_, _, rows) =>
      Z.of_nat (length rows) = T / LOG_INTERVAL_MS \/
      Z.of_nat (length rows) = T / LOG_INTERVAL_MS + 1).

(** Power-on with every converter at 1500 counts during the auto-zeroing,
    then four passes with the right sensor at 3000 counts. *)
Definition poweredOn : Sketch := Eval vm_compute in setup (fun _ => (1500, 1500, 1500)).
Definition pressRight : list Readings := repeat (readingsAt 1500 3000 1500 0) 4.
Definition pressRight_run := Eval vm_compute in run pressRight poweredOn.

(** A sketch at rest at 1500 counts with the left filter at 3000 counts. *)
Definition loadedOnLeft : Sketch :=
  let v := adcVoltage 1500 in
  let w := adcVoltage 3000 in mkSketch 0 w v v v v v false.
Definition left_pass :=
  Eval vm_compute in loop (readingsAt 3000 1500 1500 0) loadedOnLeft.

(** A sketch at rest at 1500 counts, its filters at 2040 counts, just below
    the root of the polynomial, and in the dead zone before; and two passes
    from it: the first still below the root, the second with the three
    sensors loaded. *)
Definition belowRoot : Sketch :=
  let v := adcVoltage 1500 in
  let w := adcVoltage 2040 in mkSketch 0 w w w v v v true.
Definition liftThenRest_run :=
  Eval vm_compute in
    run [readingsAt 2040 2040 2040 0; readingsAt 4095 4095 4095 0] belowRoot.

(** * Properties *)

(** The constants are the correctly rounded literals of the source. *)
Example P1_literal : P1 = F32.literal true 213971683 100000000.
Proof. vm_compute. reflexivity. Qed.
Example P2_literal : P2 = F32.literal false 1896856857 100000000.
Proof. vm_compute. reflexivity. Qed.
Example P3_literal : P3 = F32.literal true 2561022289 100000000.
Proof. vm_compute. reflexivity. Qed.
Example SYSTEM_FORCE_SCALE_literal : SYSTEM_FORCE_SCALE = F32.literal false 591 100.
Proof. vm_compute. reflexivity. Qed.
Example EMA_ALPHA_literal : EMA_ALPHA = F32.literal false 15 100.
Proof. vm_compute. reflexivity. Qed.
Example MIN_REST_THRESHOLD_N_literal : MIN_REST_THRESHOLD_N = F32.literal false 35 10.
Proof. vm_compute. reflexivity. Qed.
Example DEAD_ZONE_RADIUS_CM_literal : DEAD_ZONE_RADIUS_CM = F32.of_int 2.
Proof. vm_compute. reflexivity. Qed.
Example C_REL_LEFT_literal : C_REL_LEFT = F32.of_int 1.
Proof. vm_compute. reflexivity. Qed.
Example C_REL_RIGHT_value : C_REL_RIGHT = S754_finite false 14841383 (-24).
Proof. vm_compute. reflexivity. Qed.
Example C_REL_VTC_value : C_REL_VTC = S754_finite false 11909752 (-24).
Proof. vm_compute. reflexivity. Qed.

(** ** Signs and comparisons of floating-point numbers *)

Section Rounding.
Variables prec emax : Z.

Lemma iter_pos_invariant {A : Type} (f : A -> A) (P : A -> Prop) :
  (forall x, P x -> P (f x)) -> forall p x, P x -> P (iter_pos f p x).
Proof.
  intros Hf p; induction p as [p IH | p IH |]; intros x Hx; simpl; auto.
Qed.

Lemma shr_1_nonneg mrs : 0 <= shr_m mrs -> 0 <= shr_m (shr_1 mrs).
Proof.
  destruct mrs as [m r s]; simpl.
  destruct m as [ | [p | p | ] | [p | p | ] ]; simpl; lia.
Qed.

Lemma shr_nonneg mrs e n : 0 <= shr_m mrs -> 0 <= shr_m (fst (shr mrs e n)).
Proof.
  intros H; destruct n as [ | p | p ]; simpl; auto.
  apply iter_pos_invariant; auto using shr_1_nonneg.
Qed.

Lemma shr_record_of_loc_m m l : shr_m (shr_record_of_loc m l) = m.
Proof. destruct l as [ | [ | | ] ]; reflexivity. Qed.

Lemma shr_fexp_nonneg m e l :
  0 <= m -> 0 <= shr_m (fst (shr_fexp prec emax m e l)).
Proof.
  intros H; unfold shr_fexp; apply shr_nonneg.
  rewrite shr_record_of_loc_m; exact H.
Qed.

Lemma round_nearest_even_nonneg m l : 0 <= m -> 0 <= round_nearest_even m l.
Proof.
  intros H; destruct l as [ | [ | | ] ]; simpl; try lia.
  destruct (Z.even m); lia.
Qed.

(** Rounding keeps the sign it is given and never makes a NaN. *)
Lemma binary_round_aux_sign s m e l :
  0 <= m -> has_sign s (binary_round_aux prec emax s m e l).
Proof.
  intros H; unfold binary_round_aux.
  pose proof (shr_fexp_nonneg m e l H) as H1.
  destruct (shr_fexp prec emax m e l) as [mrs' e']; simpl in H1.
  pose proof (shr_fexp_nonneg
                (round_nearest_even (shr_m mrs') (loc_of_shr_record mrs')) e' loc_Exact
                (round_nearest_even_nonneg _ _ H1)) as H2.
  destruct (shr_fexp prec emax _ e' loc_Exact) as [mrs'' e'']; simpl in H2.
  destruct (shr_m mrs'') as [ | p | p ]; simpl; try reflexivity; try lia.
  destruct (e'' <=? emax - prec); reflexivity.
Qed.

Lemma binary_round_sign s m e : has_sign s (binary_round prec emax s m e).
Proof.
  unfold binary_round.
  destruct (shl_align m e _) as [mz ez].
  apply binary_round_aux_sign; lia.
Qed.

(** The product of a number with a finite non-zero number is a number,
    with the product of the signs. *)
Lemma SFmul_finite_sign s x sy my ey :
  has_sign s x -> has_sign (xorb s sy) (SFmul prec emax x (S754_finite sy my ey)).
Proof.
  destruct x as [sx | sx | | sx mx ex]; simpl; intros H; subst; try reflexivity;
    try contradiction.
  apply binary_round_aux_sign; lia.
Qed.

(** A sum of two non-negative numbers is a non-negative number. *)
Lemma SFadd_nonneg x y :
  has_sign false x -> has_sign false y -> has_sign false (SFadd prec emax x y).
Proof.
  destruct x as [sx | sx | | sx mx ex], y as [sy | sy | | sy my ey]; simpl;
    intros Hx Hy; subst; try reflexivity; try contradiction.
  destruct (shl_align mx ex _) as [mx' ex'], (shl_align my ey _) as [my' ey']; simpl.
  apply binary_round_sign.
Qed.

(** A non-negative number divided by a positive finite number is a
    non-negative number. *)
Lemma SFdiv_nonneg x my ey :
  has_sign false x -> has_sign false (SFdiv prec emax x (S754_finite false my ey)).
Proof.
  destruct x as [sx | sx | | sx mx ex]; simpl; intros H; subst; try reflexivity;
    try contradiction.
  unfold SFdiv_core_binary.
  set (m' := match _ with Z0 => Zpos mx | Zpos _ => Z.shiftl (Zpos mx) _ | Zneg _ => 0 end).
  assert (Hm : 0 <= m').
  { subst m'. destruct (ex - ey - _) as [ | p | p ]; try lia.
    apply Z.shiftl_nonneg; lia. }
  pose proof (Z_div_mod m' (Zpos my) (eq_refl _)) as Hd.
  destruct (Z.div_eucl m' (Zpos my)) as [q r].
  apply binary_round_aux_sign. nia.
Qed.
End Rounding.

(** The comparisons of C++, read on the data. *)
Lemma fle_zero_iff x :
  fle F32.zero x = true <-> (x = S754_zero true \/ has_sign false x).
Proof.
  unfold fle, SFleb, F32.zero.
  destruct x as [[ | ] | [ | ] | | [ | ] m e]; simpl; split; intros H;
    try reflexivity; try discriminate; auto;
    destruct H as [H | H]; try discriminate; try contradiction.
Qed.

Lemma flt_zero_iff x :
  flt F32.zero x = true <->
  (x = S754_infinity false \/ exists m e, x = S754_finite false m e).
Proof.
  unfold flt, SFltb, F32.zero.
  destruct x as [[ | ] | [ | ] | | [ | ] m e]; simpl; split; intros H;
    try reflexivity; try discriminate; eauto;
    destruct H as [H | (m' & e' & H)]; discriminate.
Qed.

Lemma SFcompare_antisym x y :
  SFcompare y x = match SFcompare x y with Some c => Some (CompOpp c) | None => None end.
Proof.
  destruct x as [sx | sx | | sx mx ex], y as [sy | sy | | sy my ey]; simpl;
    try reflexivity;
    try (destruct sx; reflexivity); try (destruct sy; reflexivity);
    try (destruct sx, sy; reflexivity).
  change (Pos.compare_cont Eq my mx) with (Pos.compare my mx).
  change (Pos.compare_cont Eq mx my) with (Pos.compare mx my).
  rewrite (Z.compare_antisym ey ex), (Pos.compare_antisym my mx).
  destruct sx, sy; try reflexivity;
    destruct (ey ?= ex); simpl; try reflexivity;
    destruct (my ?= mx)%positive; reflexivity.
Qed.

(** [v_rest < voltage] makes the test [voltage <= v_rest] false. *)
Lemma fle_false_of_flt x y : flt y x = true -> fle x y = false.
Proof.
  unfold flt, fle, SFltb, SFleb.
  rewrite (SFcompare_antisym x y).
  destruct (SFcompare x y) as [[ | | ] | ]; simpl; congruence.
Qed.

(** ** Rounding, on the integers *)

Lemma digits2_pos_size p : digits2_pos p = Pos.size p.
Proof. induction p as [p IH | p IH | ]; simpl; congruence. Qed.

Lemma Zdigits2_log2 m : 0 < m -> Zdigits2 m = Z.log2 m + 1.
Proof.
  destruct m as [ | p | p]; try lia; intros _.
  unfold Zdigits2; rewrite digits2_pos_size.
  destruct p as [p | p | ]; simpl; try rewrite Pos2Z.inj_succ; lia.
Qed.

Lemma Zdigits2_nonneg m : 0 <= Zdigits2 m.
Proof. destruct m; simpl; lia. Qed.

Lemma Zdigits2_bounds m : 0 < m -> 2 ^ (Zdigits2 m - 1) <= m < 2 ^ Zdigits2 m.
Proof.
  intros H; rewrite (Zdigits2_log2 m H).
  replace (Z.log2 m + 1 - 1) with (Z.log2 m) by lia.
  apply Z.log2_spec, H.
Qed.

Lemma Zdigits2_unique m n : 2 ^ (n - 1) <= m < 2 ^ n -> 0 < n -> Zdigits2 m = n.
Proof.
  intros H Hn.
  assert (0 < m) by (pose proof (Z.pow_pos_nonneg 2 (n - 1)); lia).
  rewrite (Zdigits2_log2 m) by assumption.
  rewrite (Z.log2_unique m (n - 1)); try lia.
  replace (Z.succ (n - 1)) with n by lia; exact H.
Qed.

Lemma Zdigits2_mono a b : 0 <= a <= b -> Zdigits2 a <= Zdigits2 b.
Proof.
  intros H.
  destruct (Z.eq_dec a 0) as [-> | Ha]; [ apply Zdigits2_nonneg | ].
  rewrite !Zdigits2_log2 by lia.
  pose proof (Z.log2_le_mono a b); lia.
Qed.

Lemma Zdigits2_div_pow2 m k :
  0 < m -> 0 <= k < Zdigits2 m -> Zdigits2 (m / 2 ^ k) = Zdigits2 m - k.
Proof.
  intros Hm Hk.
  destruct (Zdigits2_bounds m Hm) as (Hlo & Hhi).
  assert (Hp : 0 < 2 ^ k) by (apply Z.pow_pos_nonneg; lia).
  apply Zdigits2_unique; [ split | lia ].
  - apply Z.div_le_lower_bound; [ exact Hp | ].
    rewrite <- Z.pow_add_r by lia.
    replace (k + (Zdigits2 m - k - 1)) with (Zdigits2 m - 1) by lia; exact Hlo.
  - apply Z.div_lt_upper_bound; [ exact Hp | ].
    rewrite <- Z.pow_add_r by lia.
    replace (k + (Zdigits2 m - k)) with (Zdigits2 m) by lia; exact Hhi.
Qed.

Lemma div_pow2_small m k : 0 <= m -> Zdigits2 m <= k -> m / 2 ^ k = 0.
Proof.
  intros Hm Hk.
  destruct (Z.eq_dec m 0) as [-> | Hm0]; [ apply Z.div_0_l; pose proof (Z.pow_pos_nonneg 2 k); pose proof (Zdigits2_nonneg 0); lia | ].
  apply Z.div_small; split; [ lia | ].
  destruct (Zdigits2_bounds m ltac:(lia)) as (_ & Hhi).
  pose proof (Z.pow_le_mono_r 2 (Zdigits2 m) k); lia.
Qed.

Lemma shr_1_div2 mrs : 0 <= shr_m mrs -> shr_m (shr_1 mrs) = shr_m mrs / 2.
Proof.
  destruct mrs as [m r s]; simpl.
  destruct m as [ | [p | p | ] | p]; simpl; intros H; try lia; try reflexivity.
  - rewrite Pos2Z.inj_xI. apply (Z.div_unique _ 2 _ 1); lia.
  - rewrite Pos2Z.inj_xO. apply (Z.div_unique _ 2 _ 0); lia.
Qed.

Lemma iter_shr_1_div p : forall mrs,
  0 <= shr_m mrs ->
  shr_m (iter_pos shr_1 p mrs) = shr_m mrs / 2 ^ Zpos p.
Proof.
  induction p as [p IH | p IH | ]; intros mrs H; simpl iter_pos.
  - assert (H1 : 0 <= shr_m (shr_1 mrs)) by (rewrite shr_1_div2 by exact H; apply Z.div_pos; lia).
    assert (H2 : 0 <= shr_m (iter_pos shr_1 p (shr_1 mrs)))
      by (rewrite IH by exact H1; apply Z.div_pos; [ exact H1 | apply Z.pow_pos_nonneg; lia ]).
    rewrite IH by exact H2. rewrite IH by exact H1. rewrite shr_1_div2 by exact H.
    rewrite !Z.div_div by (try apply Z.pow_pos_nonneg; lia).
    f_equal. rewrite Pos2Z.inj_xI, <- Z.pow_add_r, <- Z.pow_succ_r by lia.
    f_equal; lia.
  - assert (H2 : 0 <= shr_m (iter_pos shr_1 p mrs))
      by (rewrite IH by exact H; apply Z.div_pos; [ exact H | apply Z.pow_pos_nonneg; lia ]).
    rewrite IH by exact H2. rewrite IH by exact H.
    rewrite !Z.div_div by (try apply Z.pow_pos_nonneg; lia).
    f_equal. rewrite Pos2Z.inj_xO, <- Z.pow_add_r by lia.
    f_equal; lia.
  - rewrite shr_1_div2 by exact H. reflexivity.
Qed.

Section Format.
Variables prec emax : Z.
Hypothesis prec_pos : 0 < prec.

Lemma fexp_ge_emin z : emin prec emax <= fexp prec emax z.
Proof. unfold fexp; lia. Qed.

Lemma fexp_mono a b : a <= b -> fexp prec emax a <= fexp prec emax b.
Proof. unfold fexp; lia. Qed.

Lemma shr_fexp_truncated m e l :
  0 <= m ->
  (shr_m (fst (shr_fexp prec emax m e l)), snd (shr_fexp prec emax m e l)) = truncated prec emax m e.
Proof.
  intros Hm; unfold shr_fexp, truncated, shr.
  destruct (fexp prec emax (Zdigits2 m + e) - e) as [ | k | k] eqn:Ek; simpl;
    try (rewrite shr_record_of_loc_m; reflexivity).
  rewrite iter_shr_1_div, shr_record_of_loc_m; [ reflexivity | ].
  rewrite shr_record_of_loc_m; exact Hm.
Qed.

Lemma shr_fexp_unshifted m e l :
  fexp prec emax (Zdigits2 m + e) - e <= 0 ->
  shr_fexp prec emax m e l = (shr_record_of_loc m l, e).
Proof.
  intros H; unfold shr_fexp, shr.
  destruct (fexp prec emax (Zdigits2 m + e) - e) as [ | k | k]; try reflexivity; lia.
Qed.

Lemma truncated_bounds m e :
  0 <= m ->
  0 <= fst (truncated prec emax m e) /\ e <= snd (truncated prec emax m e) /\
  fst (truncated prec emax m e) * 2 ^ (snd (truncated prec emax m e) - e) <= m
    < (fst (truncated prec emax m e) + 1) * 2 ^ (snd (truncated prec emax m e) - e).
Proof.
  intros Hm; unfold truncated.
  set (k := fexp prec emax (Zdigits2 m + e) - e).
  destruct (0 <? k) eqn:Hk; simpl.
  - apply Z.ltb_lt in Hk.
    assert (Hp : 0 < 2 ^ k) by (apply Z.pow_pos_nonneg; lia).
    replace (e + k - e) with k by lia.
    pose proof (Z.mul_div_le m (2 ^ k) Hp).
    pose proof (Z.mul_succ_div_gt m (2 ^ k) Hp).
    pose proof (Z.div_pos m (2 ^ k) Hm Hp).
    repeat split; try lia.
  - replace (e - e) with 0 by lia; simpl; lia.
Qed.

(** Truncation of a number that is not too short gives a canonical one. *)
Lemma truncated_canonical m e :
  0 <= m ->
  0 <= fexp prec emax (Zdigits2 m + e) - e ->
  fexp prec emax (Zdigits2 (fst (truncated prec emax m e)) + snd (truncated prec emax m e))
  = snd (truncated prec emax m e).
Proof.
  intros Hm Hk; unfold truncated.
  set (k := fexp prec emax (Zdigits2 m + e) - e) in *.
  destruct (0 <? k) eqn:Ek; simpl.
  - apply Z.ltb_lt in Ek.
    destruct (Z_lt_le_dec k (Zdigits2 m)) as [Hkd | Hkd].
    + assert (0 < m) by (destruct m; simpl in *; lia).
      rewrite Zdigits2_div_pow2 by lia.
      replace (Zdigits2 m - k + (e + k)) with (Zdigits2 m + e) by lia.
      subst k; lia.
    + rewrite div_pow2_small by lia. simpl.
      subst k. unfold fexp in *. pose proof (Zdigits2_nonneg m). lia.
  - apply Z.ltb_ge in Ek. subst k; lia.
Qed.

Lemma round_nearest_even_cases m l :
  round_nearest_even m l = m \/ round_nearest_even m l = m + 1.
Proof. destruct l as [ | [ | | ]]; simpl; auto. destruct (Z.even m); auto. Qed.

Lemma loc_of_shr_record_of_loc m l : loc_of_shr_record (shr_record_of_loc m l) = l.
Proof. destruct l as [ | [ | | ]]; reflexivity. Qed.

Lemma binary_round_aux_spec s m e l :
  0 <= m ->
  exists m2 e2,
    binary_round_aux prec emax s m e l = rounded prec emax s m2 e2 /\
    0 <= m2 /\ e <= e2 /\
    (m2 - 1) * 2 ^ (e2 - e) <= m < (m2 + 1) * 2 ^ (e2 - e) /\
    (l = loc_Exact -> e2 = e -> m2 = m) /\
    (0 <= fexp prec emax (Zdigits2 m + e) - e ->
     fexp prec emax (Zdigits2 m2 + e2) = e2).
Proof.
  intros Hm.
  pose proof (shr_fexp_truncated m e l Hm) as E1.
  pose proof (truncated_bounds m e Hm) as (B1 & B2 & B3).
  unfold binary_round_aux.
  destruct (shr_fexp prec emax m e l) as [mrs' e'] eqn:S1; simpl in E1.
  set (m1 := round_nearest_even (shr_m mrs') (loc_of_shr_record mrs')).
  assert (Hm' : shr_m mrs' = fst (truncated prec emax m e)) by (rewrite <- E1; reflexivity).
  assert (He' : e' = snd (truncated prec emax m e)) by (rewrite <- E1; reflexivity).
  rewrite <- Hm' in B1, B3; rewrite <- He' in B2, B3.
  assert (Hm1 : m1 = shr_m mrs' \/ m1 = shr_m mrs' + 1) by apply round_nearest_even_cases.
  assert (Hm1pos : 0 <= m1) by lia.
  pose proof (shr_fexp_truncated m1 e' loc_Exact Hm1pos) as E2.
  pose proof (truncated_bounds m1 e' Hm1pos) as (C1 & C2 & C3).
  destruct (shr_fexp prec emax m1 e' loc_Exact) as [mrs'' e''] eqn:S2; simpl in E2.
  assert (Hm'' : shr_m mrs'' = fst (truncated prec emax m1 e')) by (rewrite <- E2; reflexivity).
  assert (He'' : e'' = snd (truncated prec emax m1 e')) by (rewrite <- E2; reflexivity).
  rewrite <- Hm'' in C1, C3; rewrite <- He'' in C2, C3.
  exists (shr_m mrs''), e''.
  split; [ | split; [ exact C1 | split; [ lia | split; [ | split ] ] ] ].
  - unfold rounded. destruct (shr_m mrs'') as [ | p | p]; simpl; try reflexivity; lia.
  - replace (e'' - e) with ((e'' - e') + (e' - e)) by lia.
    rewrite Z.pow_add_r by lia.
    assert (0 < 2 ^ (e'' - e')) by (apply Z.pow_pos_nonneg; lia).
    assert (0 < 2 ^ (e' - e)) by (apply Z.pow_pos_nonneg; lia).
    nia.
  - intros -> Hee.
    assert (Heq : e' = e) by lia.
    assert (Hk : fexp prec emax (Zdigits2 m + e) - e <= 0).
    { unfold truncated in He'.
      destruct (0 <? fexp prec emax (Zdigits2 m + e) - e) eqn:Hk; simpl in He'.
      - apply Z.ltb_lt in Hk; lia.
      - apply Z.ltb_ge in Hk; exact Hk. }
    rewrite (shr_fexp_unshifted m e loc_Exact Hk) in S1.
    injection S1 as Hmrs _.
    assert (Hm1m : m1 = m) by (subst m1; rewrite <- Hmrs; reflexivity).
    replace (e'' - e') with 0 in C3 by lia. simpl in C3. lia.
  - intros Hk.
    pose proof (truncated_canonical m e Hm Hk) as K1.
    rewrite <- Hm', <- He' in K1.
    assert (Hk2 : 0 <= fexp prec emax (Zdigits2 m1 + e') - e').
    { assert (Zdigits2 (shr_m mrs') <= Zdigits2 m1) by (apply Zdigits2_mono; lia).
      pose proof (fexp_mono (Zdigits2 (shr_m mrs') + e') (Zdigits2 m1 + e')). lia. }
    pose proof (truncated_canonical m1 e' Hm1pos Hk2) as K2.
    rewrite <- Hm'', <- He'' in K2. exact K2.
Qed.
End Format.

(** ** Rounding, on the reals *)

Lemma bpow_pos e : (0 < bpow e)%R.
Proof. apply powerRZ_lt; lra. Qed.

Lemma bpow_add a b : bpow (a + b) = (bpow a * bpow b)%R.
Proof. apply powerRZ_add; lra. Qed.

Lemma bpow_IZR k : 0 <= k -> bpow k = IZR (2 ^ k).
Proof.
  intros H; unfold bpow.
  rewrite <- (Z2Nat.id k H), <- pow_powerRZ, pow_IZR; reflexivity.
Qed.

Lemma bpow_le a b : a <= b -> (bpow a <= bpow b)%R.
Proof.
  intros H.
  replace b with (a + (b - a)) by lia.
  rewrite bpow_add, (bpow_IZR (b - a)) by lia.
  assert (1 <= 2 ^ (b - a)) by (pose proof (Z.pow_pos_nonneg 2 (b - a)); lia).
  apply IZR_le in H0.
  pose proof (bpow_pos a). nra.
Qed.

Lemma bpow_lt a b : a < b -> (bpow a < bpow b)%R.
Proof.
  intros H.
  replace b with (a + (b - a)) by lia.
  rewrite bpow_add, (bpow_IZR (b - a)) by lia.
  assert (2 <= 2 ^ (b - a)).
  { replace (b - a) with (Z.succ (b - a - 1)) by lia.
    rewrite Z.pow_succ_r by lia.
    pose proof (Z.pow_pos_nonneg 2 (b - a - 1)); lia. }
  apply IZR_le in H0.
  pose proof (bpow_pos a). nra.
Qed.

Section FormatR.
Variables prec emax : Z.
Hypothesis prec_pos : 0 < prec.
Hypothesis prec_lt_emax : prec < emax.

Lemma canonical_cases m2 e2 :
  0 <= m2 ->
  fexp prec emax (Zdigits2 m2 + e2) = e2 ->
  (IZR m2 < bpow prec)%R /\
  (e2 = emin prec emax \/ (bpow e2 <= IZR m2 * bpow e2 * eps prec)%R).
Proof.
  intros Hm Hc.
  destruct (Z.eq_dec m2 0) as [-> | Hm0].
  - simpl in Hc. split; [ apply bpow_pos | left ].
    unfold fexp in Hc; lia.
  - destruct (Zdigits2_bounds m2 ltac:(lia)) as (Hlo & Hhi).
    assert (Hd : Zdigits2 m2 <= prec) by (unfold fexp in Hc; lia).
    split.
    + rewrite (bpow_IZR prec) by lia. apply IZR_lt.
      pose proof (Z.pow_le_mono_r 2 (Zdigits2 m2) prec); lia.
    + destruct (Z.eq_dec e2 (emin prec emax)) as [He | He]; [ left; exact He | right ].
      assert (Hdp : Zdigits2 m2 = prec) by (unfold fexp in Hc; lia).
      rewrite Hdp in Hlo. apply IZR_le in Hlo. rewrite <- bpow_IZR in Hlo by lia.
      unfold eps.
      assert (Hone : (bpow (prec - 1) * bpow (1 - prec) = 1)%R).
      { rewrite <- bpow_add. replace (prec - 1 + (1 - prec)) with 0 by lia. reflexivity. }
      pose proof (bpow_pos e2). pose proof (bpow_pos (1 - prec)).
      assert (1 <= IZR m2 * bpow (1 - prec))%R by nra.
      nra.
Qed.

Lemma F2R_rounded_abs s m2 e2 :
  0 <= m2 -> is_finite (rounded prec emax s m2 e2) = true ->
  Rabs (F2R (rounded prec emax s m2 e2)) = (IZR m2 * bpow e2)%R.
Proof.
  intros Hm; unfold rounded.
  destruct (m2 =? 0) eqn:E0.
  - apply Z.eqb_eq in E0; subst; simpl. rewrite Rabs_R0; lra.
  - apply Z.eqb_neq in E0.
    destruct (e2 <=? emax - prec); simpl; [ intros _ | discriminate ].
    rewrite Z2Pos.id by lia.
    pose proof (bpow_pos e2). assert (0 < IZR m2)%R by (apply IZR_lt; lia).
    destruct s.
    + rewrite Rabs_left; nra.
    + rewrite Rabs_right; nra.
Qed.

(** The specification of [binary_round_aux] on the reals, for a mantissa
    that is not shorter than the format asks: the result is within one
    unit in the last place of [m * 2 ^ e], and that unit is at least
    [2 ^ e]. *)
Lemma binary_round_aux_rounds s m e l :
  0 <= m ->
  0 <= fexp prec emax (Zdigits2 m + e) - e ->
  let r := binary_round_aux prec emax s m e l in
  rounds prec emax 1 s (IZR m * bpow e) r /\
  (is_finite r = true -> (bpow e <= Rabs (F2R r) * eps prec + eta prec emax)%R).
Proof.
  intros Hm Hk r; subst r.
  destruct (binary_round_aux_spec prec emax prec_pos s m e l Hm)
    as (m2 & e2 & Er & Hm2 & He2 & Hb & _ & Hcan).
  specialize (Hcan Hk).
  destruct (canonical_cases m2 e2 Hm2 Hcan) as (Hlt & Hmag).
  assert (Hx : ((IZR m2 - 1) * bpow e2 <= IZR m * bpow e <= (IZR m2 + 1) * bpow e2)%R).
  { assert (Hpe : bpow e2 = (bpow e * IZR (2 ^ (e2 - e)))%R).
    { rewrite <- bpow_IZR, <- bpow_add by lia. f_equal; lia. }
    rewrite Hpe.
    destruct Hb as (Hb1 & Hb2).
    apply IZR_le in Hb1. apply IZR_lt in Hb2.
    rewrite mult_IZR, minus_IZR in Hb1. rewrite mult_IZR, plus_IZR in Hb2.
    pose proof (bpow_pos e). split; nra. }
  pose proof (bpow_pos e2) as P2. pose proof (bpow_pos (1 - prec)) as Pe.
  pose proof (bpow_pos (emin prec emax)) as Pm.
  assert (Hm2R : (0 <= IZR m2)%R) by (apply IZR_le; lia).
  fold (eps prec) in *. fold (eta prec emax) in *.
  assert (HV : (0 <= IZR m2 * bpow e2)%R) by nra.
  assert (HVe : (0 <= IZR m2 * bpow e2 * eps prec)%R) by nra.
  assert (Hulp : (bpow e2 <= IZR m2 * bpow e2 * eps prec + eta prec emax)%R).
  { destruct Hmag as [Hmin | Hmag]; [ rewrite Hmin in *; fold (eta prec emax) in *; lra | lra ]. }
  assert (Herr : (IZR m2 * bpow e2 * (1 - 1 * eps prec) - 1 * eta prec emax <= IZR m * bpow e
                  <= IZR m2 * bpow e2 * (1 + 1 * eps prec) + 1 * eta prec emax)%R) by (split; lra).
  rewrite Er.
  split; [ unfold rounds; split; [ | split; [ | split ] ] | ].
  - unfold rounded. destruct (m2 =? 0); [ reflexivity | ].
    destruct (e2 <=? emax - prec); reflexivity.
  - unfold rounded. destruct (m2 =? 0) eqn:E0; [ reflexivity | ].
    apply Z.eqb_neq in E0.
    destruct (e2 <=? emax - prec) eqn:Ee; [ | reflexivity ].
    simpl. unfold bounded, canonical_mantissa.
    rewrite Ee, andb_true_r. apply Z.eqb_eq.
    change (Z.pos (digits2_pos (Z.to_pos m2))) with (Zdigits2 (Zpos (Z.to_pos m2))).
    rewrite Z2Pos.id by lia. exact Hcan.
  - intros Hfin. rewrite (F2R_rounded_abs s m2 e2 Hm2 Hfin).
    split; [ exact Herr | ].
    unfold rounded in Hfin.
    destruct (m2 =? 0) eqn:E0.
    + apply Z.eqb_eq in E0; subst. rewrite Rmult_0_l. apply bpow_pos.
    + destruct (e2 <=? emax - prec) eqn:Ee; [ | discriminate ].
      apply Z.leb_le in Ee.
      replace emax with (prec + (emax - prec)) by lia. rewrite bpow_add.
      pose proof (bpow_le e2 (emax - prec) Ee).
      pose proof (bpow_pos prec). nra.
  - intros Hinf. unfold rounded in Hinf.
    destruct (m2 =? 0) eqn:E0; [ discriminate | ].
    apply Z.eqb_neq in E0.
    destruct (e2 <=? emax - prec) eqn:Ee; [ discriminate | ].
    apply Z.leb_gt in Ee.
    destruct Hmag as [Hmin | Hmag]; [ unfold emin in Hmin; lia | ].
    assert (Hbig : (bpow emax <= IZR m2 * bpow e2)%R).
    { destruct (Zdigits2_bounds m2 ltac:(lia)) as (Hlo & _).
      assert (Hdp : Zdigits2 m2 = prec) by (unfold fexp, emin in Hcan; lia).
      rewrite Hdp in Hlo. apply IZR_le in Hlo. rewrite <- bpow_IZR in Hlo by lia.
      assert (Hle : (bpow (emax - prec + 1) <= bpow e2)%R) by (apply bpow_le; lia).
      replace emax with ((prec - 1) + (emax - prec + 1)) at 1 by lia.
      rewrite bpow_add.
      pose proof (bpow_pos (prec - 1)). pose proof (bpow_pos (emax - prec + 1)).
      nra. }
    pose proof (bpow_pos emax).
    assert (Heps1 : (eps prec <= 1)%R).
    { unfold eps. change 1%R with (bpow 0). apply bpow_le; lia. }
    nra.
  - intros Hfin. rewrite (F2R_rounded_abs s m2 e2 Hm2 Hfin).
    pose proof (bpow_le e e2 He2). lra.
Qed.
End FormatR.

Lemma Zdigits2_pow2 n : 0 <= n -> Zdigits2 (2 ^ n) = n + 1.
Proof.
  intros H; apply Zdigits2_unique; [ | lia ].
  replace (n + 1 - 1) with n by lia. split; [ lia | ].
  apply Z.pow_lt_mono_r; lia.
Qed.

Lemma Zdigits2_mul_pow2 m d : 0 < m -> 0 <= d -> Zdigits2 (m * 2 ^ d) = Zdigits2 m + d.
Proof.
  intros Hm Hd.
  destruct (Zdigits2_bounds m Hm) as (Hlo & Hhi).
  assert (0 < 2 ^ d) by (apply Z.pow_pos_nonneg; lia).
  pose proof (Zdigits2_nonneg m).
  assert (0 < Zdigits2 m) by (destruct m; simpl in *; lia).
  apply Zdigits2_unique; [ | lia ].
  replace (Zdigits2 m + d - 1) with ((Zdigits2 m - 1) + d) by lia.
  rewrite !Z.pow_add_r by lia. split; nia.
Qed.

Lemma Zdigits2_mul_ge a b :
  0 < a -> 0 < b -> Zdigits2 a + Zdigits2 b - 1 <= Zdigits2 (a * b).
Proof.
  intros Ha Hb.
  destruct (Zdigits2_bounds a Ha) as (Hla & _).
  destruct (Zdigits2_bounds b Hb) as (Hlb & _).
  assert (0 < Zdigits2 a) by (destruct a; simpl in *; lia).
  assert (0 < Zdigits2 b) by (destruct b; simpl in *; lia).
  assert (Hp : 2 ^ (Zdigits2 a + Zdigits2 b - 2) <= a * b).
  { replace (Zdigits2 a + Zdigits2 b - 2) with ((Zdigits2 a - 1) + (Zdigits2 b - 1)) by lia.
    rewrite Z.pow_add_r by lia.
    assert (0 < 2 ^ (Zdigits2 a - 1)) by (apply Z.pow_pos_nonneg; lia).
    assert (0 < 2 ^ (Zdigits2 b - 1)) by (apply Z.pow_pos_nonneg; lia).
    nia. }
  pose proof (Zdigits2_mono _ _ (conj (Z.lt_le_incl _ _ (Z.pow_pos_nonneg 2 (Zdigits2 a + Zdigits2 b - 2) ltac:(lia) ltac:(lia))) Hp)) as Hm.
  rewrite Zdigits2_pow2 in Hm by lia. lia.
Qed.

Lemma Zdigits2_div_ge a b :
  0 <= a -> 0 < b -> Zdigits2 a - Zdigits2 b <= Zdigits2 (a / b).
Proof.
  intros Ha Hb.
  pose proof (Zdigits2_nonneg (a / b)) as Hq.
  assert (0 < Zdigits2 b) by (destruct b; simpl in *; lia).
  destruct (Z.eq_dec a 0) as [-> | Ha0]; [ rewrite Z.div_0_l by lia; simpl; lia | ].
  destruct (Z_le_gt_dec (Zdigits2 a - Zdigits2 b) 0) as [Hn | Hn]; [ lia | ].
  destruct (Zdigits2_bounds a ltac:(lia)) as (Hla & _).
  destruct (Zdigits2_bounds b Hb) as (_ & Hhb).
  set (n := Zdigits2 a - Zdigits2 b) in *.
  assert (Hge : 2 ^ (n - 1) <= a / b).
  { apply Z.div_le_lower_bound; [ exact Hb | ].
    assert (Hpw : 2 ^ (Zdigits2 a - 1) = 2 ^ Zdigits2 b * 2 ^ (n - 1)).
    { rewrite <- Z.pow_add_r by lia. f_equal; lia. }
    assert (0 < 2 ^ (n - 1)) by (apply Z.pow_pos_nonneg; lia).
    nia. }
  pose proof (Zdigits2_mono _ _ (conj (Z.lt_le_incl _ _ (Z.pow_pos_nonneg 2 (n - 1) ltac:(lia) ltac:(lia))) Hge)) as Hm.
  rewrite Zdigits2_pow2 in Hm by lia. lia.
Qed.

Lemma iter_xO_pow2 m d : Zpos (Pos.iter xO m d) = Zpos m * 2 ^ Zpos d.
Proof.
  induction d as [ | d IH] using Pos.peano_ind.
  - simpl. lia.
  - rewrite Pos.iter_succ, Pos2Z.inj_xO, IH, Pos2Z.inj_succ, Z.pow_succ_r by lia. lia.
Qed.

Lemma shl_align_spec mx ex e :
  e <= ex ->
  snd (shl_align mx ex e) = e /\
  Zpos (fst (shl_align mx ex e)) = Zpos mx * 2 ^ (ex - e).
Proof.
  intros H; unfold shl_align.
  destruct (e - ex) as [ | d | d] eqn:Ed; cbn [fst snd]; try lia.
  - replace (ex - e) with 0 by lia. rewrite Z.pow_0_r. split; lia.
  - rewrite iter_xO_pow2. replace (ex - e) with (Zpos d) by lia. split; lia.
Qed.

Lemma shl_align_id mx ex e : ex <= e -> shl_align mx ex e = (mx, ex).
Proof.
  intros H; unfold shl_align.
  destruct (e - ex) as [ | d | d] eqn:Ed; try reflexivity; lia.
Qed.

Section FormatOps.
Variables prec emax : Z.
Hypothesis prec_pos : 0 < prec.
Hypothesis prec_lt_emax : prec < emax.

Lemma binary_round_rounds s m e :
  rounds prec emax 1 s (IZR (Zpos m) * bpow e) (binary_round prec emax s m e).
Proof.
  unfold binary_round.
  set (t := fexp prec emax (Zpos (digits2_pos m) + e)).
  change (Zpos (digits2_pos m)) with (Zdigits2 (Zpos m)) in t.
  destruct (Z_lt_le_dec t e) as [Hlt | Hge].
  - destruct (shl_align_spec m e t ltac:(lia)) as (He & Hm).
    destruct (shl_align m e t) as [mz ez]; cbn [fst snd] in He, Hm; subst ez.
    assert (Hv : (IZR (Zpos m) * bpow e = IZR (Zpos mz) * bpow t)%R).
    { rewrite Hm, mult_IZR, <- bpow_IZR by lia.
      rewrite Rmult_assoc, <- bpow_add. do 2 f_equal. lia. }
    rewrite Hv.
    refine (proj1 (binary_round_aux_rounds prec emax prec_pos prec_lt_emax
                     s (Zpos mz) t loc_Exact _ _)); [ lia | ].
    rewrite Hm, Zdigits2_mul_pow2 by lia.
    replace (Zdigits2 (Zpos m) + (e - t) + t) with (Zdigits2 (Zpos m) + e) by lia.
    fold t; lia.
  - rewrite shl_align_id by lia.
    refine (proj1 (binary_round_aux_rounds prec emax prec_pos prec_lt_emax
                     s (Zpos m) e loc_Exact _ _)); [ lia | ].
    fold t; lia.
Qed.

Lemma bounded_canonical m e :
  bounded prec emax m e = true ->
  fexp prec emax (Zdigits2 (Zpos m) + e) = e /\ e <= emax - prec.
Proof.
  unfold bounded, canonical_mantissa; intros H.
  apply andb_prop in H; destruct H as (H1 & H2).
  apply Z.eqb_eq in H1; apply Z.leb_le in H2. split; assumption.
Qed.

(** The product of two finite numbers. *)
Lemma SFmul_rounds sx mx ex sy my ey :
  bounded prec emax mx ex = true -> bounded prec emax my ey = true ->
  rounds prec emax 1 (xorb sx sy)
    ((IZR (Zpos mx) * bpow ex) * (IZR (Zpos my) * bpow ey))
    (SFmul prec emax (S754_finite sx mx ex) (S754_finite sy my ey)).
Proof.
  intros Bx By.
  destruct (bounded_canonical _ _ Bx) as (Cx & _).
  destruct (bounded_canonical _ _ By) as (Cy & _).
  simpl SFmul.
  replace ((IZR (Zpos mx) * bpow ex) * (IZR (Zpos my) * bpow ey))%R
    with (IZR (Zpos (mx * my)) * bpow (ex + ey))%R
    by (rewrite Pos2Z.inj_mul, mult_IZR, bpow_add; ring).
  refine (proj1 (binary_round_aux_rounds prec emax prec_pos prec_lt_emax
                   (xorb sx sy) (Zpos (mx * my)) (ex + ey) loc_Exact _ _)); [ lia | ].
  pose proof (Zdigits2_mul_ge (Zpos mx) (Zpos my) ltac:(lia) ltac:(lia)) as Hd.
  rewrite <- Pos2Z.inj_mul in Hd.
  assert (0 < Zdigits2 (Zpos mx)) by (simpl; lia).
  assert (0 < Zdigits2 (Zpos my)) by (simpl; lia).
  unfold fexp, emin in *. lia.
Qed.

(** The sum of two finite numbers. *)
Lemma SFadd_rounds sx mx ex sy my ey :
  let x := S754_finite sx mx ex in
  let y := S754_finite sy my ey in
  let S := (F2R x + F2R y)%R in
  (S = 0%R -> SFadd prec emax x y = S754_zero false) /\
  ((0 < S)%R -> rounds prec emax 1 false S (SFadd prec emax x y)) /\
  ((S < 0)%R -> rounds prec emax 1 true (- S) (SFadd prec emax x y)).
Proof.
  intros x y S; subst x y.
  simpl SFadd.
  set (ez := Z.min ex ey).
  destruct (shl_align_spec mx ex ez ltac:(lia)) as (_ & Hmx).
  destruct (shl_align_spec my ey ez ltac:(lia)) as (_ & Hmy).
  set (sum := cond_Zopp sx (Zpos (fst (shl_align mx ex ez)))
              + cond_Zopp sy (Zpos (fst (shl_align my ey ez)))).
  assert (HS : S = (IZR sum * bpow ez)%R).
  { subst S sum. simpl F2R. rewrite plus_IZR.
    assert (Hx : (IZR (Zpos mx) * bpow ex = IZR (Zpos (fst (shl_align mx ex ez))) * bpow ez)%R).
    { rewrite Hmx, mult_IZR, <- bpow_IZR by lia.
      rewrite Rmult_assoc, <- bpow_add. do 2 f_equal. lia. }
    assert (Hy : (IZR (Zpos my) * bpow ey = IZR (Zpos (fst (shl_align my ey ez))) * bpow ez)%R).
    { rewrite Hmy, mult_IZR, <- bpow_IZR by lia.
      rewrite Rmult_assoc, <- bpow_add. do 2 f_equal. lia. }
    destruct sx, sy; unfold cond_Zopp; rewrite ?opp_IZR; nra. }
  pose proof (bpow_pos ez) as Pz.
  destruct sum as [ | p | p] eqn:Es; simpl binary_normalize.
  - split; [ intros H | split; intros H ]; try reflexivity;
      rewrite HS in H; exfalso; lra.
  - assert (Hp : (0 < IZR (Zpos p))%R) by (apply IZR_lt; lia).
    split; [ intros H | split; intros H ]; try (exfalso; nra).
    rewrite HS. apply binary_round_rounds.
  - assert (Hp : (IZR (Zneg p) < 0)%R) by (apply IZR_lt; lia).
    split; [ intros H | split; intros H ]; try (exfalso; nra).
    rewrite HS.
    replace (- (IZR (Zneg p) * bpow ez))%R with (IZR (Zpos p) * bpow ez)%R
      by (change (Zneg p) with (- Zpos p); rewrite opp_IZR; ring).
    apply binary_round_rounds.
Qed.
(** The quotient of two finite numbers: the integer quotient loses at most
    one more unit in the last place. *)
Lemma SFdiv_rounds sx mx ex sy my ey :
  rounds prec emax 2 (xorb sx sy)
    ((IZR (Zpos mx) * bpow ex) / (IZR (Zpos my) * bpow ey))
    (SFdiv prec emax (S754_finite sx mx ex) (S754_finite sy my ey)).
Proof.
  simpl SFdiv. unfold SFdiv_core_binary.
  set (e' := Z.min (fexp prec emax (Zdigits2 (Zpos mx) + ex - (Zdigits2 (Zpos my) + ey)))
                   (ex - ey)).
  set (s := ex - ey - e').
  assert (Hs : 0 <= s) by (subst s e'; lia).
  set (m' := match s with
             | 0 => Zpos mx
             | Zpos _ => Z.shiftl (Zpos mx) s
             | Zneg _ => 0
             end).
  assert (Hm' : m' = Zpos mx * 2 ^ s).
  { subst m'. destruct s as [ | p | p] eqn:Es; try lia.
    apply Z.shiftl_mul_pow2; lia. }
  assert (Hq : Z.div_eucl m' (Zpos my) = (m' / Zpos my, m' mod Zpos my)).
  { unfold Z.div, Z.modulo. destruct (Z.div_eucl m' (Zpos my)); reflexivity. }
  rewrite Hq.
  set (q := m' / Zpos my).
  assert (Hp2 : 0 < 2 ^ s) by (apply Z.pow_pos_nonneg; lia).
  assert (Hq0 : 0 <= q) by (apply Z.div_pos; nia).
  assert (Hk : 0 <= fexp prec emax (Zdigits2 q + e') - e').
  { pose proof (Zdigits2_div_ge m' (Zpos my) ltac:(nia) ltac:(lia)) as Hd.
    fold q in Hd. rewrite Hm', Zdigits2_mul_pow2 in Hd by lia.
    pose proof (fexp_mono prec emax
                  (Zdigits2 (Zpos mx) + ex - (Zdigits2 (Zpos my) + ey))
                  (Zdigits2 q + e') ltac:(subst s; lia)).
    subst e'; lia. }
  destruct (binary_round_aux_rounds prec emax prec_pos prec_lt_emax (xorb sx sy) q e'
              (new_location (Zpos my) (m' mod Zpos my)) Hq0 Hk)
    as ((Hsign & Hvalid & Hfin & Hinf) & Hulp).
  set (Q := ((IZR (Zpos mx) * bpow ex) / (IZR (Zpos my) * bpow ey))%R).
  assert (HQ : (IZR q * bpow e' <= Q < IZR q * bpow e' + bpow e')%R).
  { assert (Py : (0 < IZR (Zpos my))%R) by (apply IZR_lt; lia).
    pose proof (bpow_pos ey) as Pey. pose proof (bpow_pos e') as Pe'.
    assert (HQ' : Q = (IZR m' / IZR (Zpos my) * bpow e')%R).
    { subst Q. rewrite Hm', mult_IZR, <- bpow_IZR by lia.
      replace ex with (s + e' + ey) by (subst s; lia).
      rewrite !bpow_add. field. split; lra. }
    pose proof (Z.mul_div_le m' (Zpos my) ltac:(lia)) as Hlo.
    pose proof (Z.mul_succ_div_gt m' (Zpos my) ltac:(lia)) as Hhi.
    fold q in Hlo, Hhi.
    apply IZR_le in Hlo. apply IZR_lt in Hhi.
    rewrite mult_IZR in Hlo. rewrite mult_IZR, succ_IZR in Hhi.
    assert (Hdiv : (IZR q <= IZR m' / IZR (Zpos my) < IZR q + 1)%R).
    { split.
      - apply Rmult_le_reg_r with (IZR (Zpos my)); [ exact Py | ].
        unfold Rdiv. rewrite Rmult_assoc, Rinv_l by lra. lra.
      - apply Rmult_lt_reg_r with (IZR (Zpos my)); [ exact Py | ].
        unfold Rdiv. rewrite Rmult_assoc, Rinv_l by lra. lra. }
    rewrite HQ'. split; nra. }
  fold Q.
  pose proof (bpow_pos (1 - prec)) as Pe. pose proof (bpow_pos (emin prec emax)) as Pm.
  fold (eps prec) in Pe. fold (eta prec emax) in Pm.
  split; [ exact Hsign | split; [ exact Hvalid | split ] ].
  - intros F. destruct (Hfin F) as (Herr & Hlt). specialize (Hulp F).
    pose proof (Rabs_pos (F2R (binary_round_aux prec emax (xorb sx sy) q e'
                                 (new_location (Zpos my) (m' mod Zpos my))))) as HV.
    split; [ split; nra | exact Hlt ].
  - intros F. specialize (Hinf F). lra.
Qed.
End FormatOps.

(** ** The arithmetic of [float], on the reals *)

Lemma bpow_neg k : bpow (- k) = (/ bpow k)%R.
Proof.
  pose proof (bpow_pos k).
  apply Rmult_eq_reg_r with (bpow k); [ | lra ].
  rewrite <- bpow_add, Rinv_l by lra.
  replace (- k + k) with 0 by lia. reflexivity.
Qed.

Lemma eps32 : eps F32.prec = (/ 8388608)%R.
Proof.
  unfold eps, F32.prec. change (1 - 24) with (Z.opp 23).
  rewrite bpow_neg, (bpow_IZR 23) by lia. reflexivity.
Qed.

Lemma eta32 : (0 < eta F32.prec F32.emax <= / 18446744073709551616)%R.
Proof.
  unfold eta, emin, F32.prec, F32.emax. change (3 - 128 - 24) with (Z.opp 149).
  split; [ apply bpow_pos | ].
  apply Rle_trans with (bpow (Z.opp 64)); [ apply bpow_le; lia | ].
  rewrite bpow_neg, (bpow_IZR 64) by lia. apply Rle_refl.
Qed.

Lemma bpow_emax32 : bpow F32.emax = 340282366920938463463374607431768211456%R.
Proof. unfold F32.emax. rewrite (bpow_IZR 128) by lia. reflexivity. Qed.

Lemma F2R_nonneg x : has_sign false x -> (0 <= F2R x)%R.
Proof.
  destruct x as [s | s | | s m e]; simpl; intros H; subst; try lra.
  pose proof (bpow_pos e). assert (0 < IZR (Zpos m))%R by (apply IZR_lt; lia). nra.
Qed.

Lemma F2R_abs_nonneg x : has_sign false x -> Rabs (F2R x) = F2R x.
Proof. intros H; apply Rabs_right, Rle_ge, F2R_nonneg, H. Qed.

(** A rounding that cannot overflow is a weight, close to what it rounds. *)
Lemma rounds_weight n x r :
  rounds F32.prec F32.emax n false x r ->
  (x < 2 ^ 127)%R ->
  is_weight r /\
  (F2R r * (1 - n * / 8388608) - n * / 18446744073709551616 <= x)%R /\
  ((0 <= n)%R -> x <= F2R r * (1 + n * / 8388608) + n * / 18446744073709551616)%R.
Proof.
  intros (Hs & Hv & Hf & Hi) Hx.
  pose proof eta32 as (Eta0 & Eta). pose proof eps32 as Eps.
  destruct (is_finite r) eqn:Fr.
  - destruct (Hf eq_refl) as ((Hlo & Hhi) & _).
    rewrite (F2R_abs_nonneg r Hs), Eps in Hlo, Hhi.
    pose proof (F2R_nonneg r Hs).
    split; [ repeat split; assumption | ].
    split; [ | intros Hn ]; nra.
  - specialize (Hi eq_refl). rewrite Eps, bpow_emax32 in Hi. exfalso. lra.
Qed.

Lemma close_refl n v : (0 <= n)%R -> (0 <= v)%R -> close n v v.
Proof. intros Hn Hv; unfold close; split; nra. Qed.

Lemma rounds_close n x r :
  (0 <= n)%R ->
  rounds F32.prec F32.emax n false x r -> (x < 2 ^ 127)%R ->
  is_weight r /\ close n (F2R r) x.
Proof.
  intros Hn Hr Hx.
  destruct (rounds_weight n x r Hr Hx) as (Hw & Hlo & Hhi).
  split; [ exact Hw | split; auto ].
Qed.

Lemma weight_cases x :
  is_weight x ->
  x = S754_zero false \/
  exists m e, x = S754_finite false m e /\ bounded F32.prec F32.emax m e = true.
Proof.
  intros (Hv & Hs & Hf).
  destruct x as [s | s | | s m e]; simpl in *; subst; try discriminate; eauto.
Qed.

Lemma zero_weight : is_weight (S754_zero false).
Proof. repeat split. Qed.

Lemma F2R_finite_pos m e : (0 < F2R (S754_finite false m e))%R.
Proof.
  simpl. pose proof (bpow_pos e). assert (0 < IZR (Zpos m))%R by (apply IZR_lt; lia). nra.
Qed.

Lemma F2R_finite_false m e : F2R (S754_finite false m e) = (IZR (Zpos m) * bpow e)%R.
Proof. simpl; ring. Qed.

Lemma mul_weight x y :
  is_weight x -> is_weight y -> (F2R x * F2R y < 2 ^ 127)%R ->
  is_weight (F32.mul x y) /\ close 1 (F2R (F32.mul x y)) (F2R x * F2R y).
Proof.
  intros Hx Hy Hxy.
  destruct (weight_cases x Hx) as [-> | (mx & ex & -> & Bx)];
    destruct (weight_cases y Hy) as [-> | (my & ey & -> & By)];
    try (simpl F32.mul; simpl F2R; rewrite ?Rmult_0_l, ?Rmult_0_r;
         split; [ apply zero_weight | apply close_refl; lra ]).
  apply rounds_close; [ lra | | exact Hxy ].
  rewrite !F2R_finite_false.
  apply (SFmul_rounds F32.prec F32.emax ltac:(reflexivity) ltac:(reflexivity)
           false mx ex false my ey Bx By).
Qed.

Lemma add_weight x y :
  is_weight x -> is_weight y -> (F2R x + F2R y < 2 ^ 127)%R ->
  is_weight (F32.add x y) /\ close 1 (F2R (F32.add x y)) (F2R x + F2R y).
Proof.
  intros Hx Hy Hxy.
  pose proof (F2R_nonneg x (proj1 (proj2 Hx))) as Px.
  pose proof (F2R_nonneg y (proj1 (proj2 Hy))) as Py.
  destruct (weight_cases x Hx) as [-> | (mx & ex & -> & Bx)];
    destruct (weight_cases y Hy) as [-> | (my & ey & -> & By)].
  - simpl. split; [ apply zero_weight | rewrite Rplus_0_l; apply close_refl; lra ].
  - simpl F32.add. replace (F2R (S754_zero false)) with 0%R by reflexivity.
    rewrite Rplus_0_l. split; [ exact Hy | apply close_refl; lra ].
  - simpl F32.add. replace (F2R (S754_zero false)) with 0%R by reflexivity.
    rewrite Rplus_0_r. split; [ exact Hx | apply close_refl; lra ].
  - apply rounds_close; [ lra | | exact Hxy ].
    apply (SFadd_rounds F32.prec F32.emax ltac:(reflexivity) ltac:(reflexivity)
             false mx ex false my ey).
    pose proof (F2R_finite_pos mx ex). pose proof (F2R_finite_pos my ey). lra.
Qed.

Lemma div_weight x my ey :
  is_weight x ->
  (F2R x / F2R (S754_finite false my ey) < 2 ^ 127)%R ->
  is_weight (F32.div x (S754_finite false my ey)) /\
  close 2 (F2R (F32.div x (S754_finite false my ey)))
          (F2R x / F2R (S754_finite false my ey)).
Proof.
  intros Hx Hxy.
  destruct (weight_cases x Hx) as [-> | (mx & ex & -> & Bx)].
  - simpl F32.div. replace (F2R (S754_zero false)) with 0%R by reflexivity.
    unfold Rdiv; rewrite Rmult_0_l. split; [ apply zero_weight | apply close_refl; lra ].
  - apply rounds_close; [ lra | | exact Hxy ].
    rewrite !F2R_finite_false.
    apply (SFdiv_rounds F32.prec F32.emax ltac:(reflexivity) ltac:(reflexivity)
             false mx ex false my ey).
Qed.

(** The order of two positive finite numbers, read on their fields. *)
Lemma SFltb_finite m1 e1 m2 e2 :
  SFltb (S754_finite false m1 e1) (S754_finite false m2 e2) = true ->
  e1 < e2 \/ (e1 = e2 /\ (m1 < m2)%positive).
Proof.
  unfold SFltb, SFcompare.
  destruct (Z.compare_spec e1 e2) as [Heq | Hlt | Hgt]; try discriminate; [ | lia ].
  rewrite Pos.compare_cont_spec; simpl Pos.switch_Eq.
  destruct (Pos.compare_spec m1 m2) as [ | Hm | ]; try discriminate.
  intros _; right; split; assumption.
Qed.

(** [F > 3.5f], on the reals. *)
Lemma rested_value F :
  is_float F -> fgt F MIN_REST_THRESHOLD_N = true ->
  F = S754_infinity false \/
  exists m e, F = S754_finite false m e /\ (7 / 2 < F2R F)%R.
Proof.
  intros Hv H.
  unfold fgt, MIN_REST_THRESHOLD_N in H.
  destruct F as [s | [ | ] | | [ | ] m e]; try discriminate;
    [ left; reflexivity | right ].
  exists m, e; split; [ reflexivity | ].
  apply SFltb_finite in H.
  destruct (bounded_canonical _ _ _ _ Hv) as (Hc & _).
  rewrite F2R_finite_false.
  destruct H as [Hlt | (<- & Hm)].
  - assert (Hd : Zdigits2 (Zpos m) = 24) by (unfold fexp, emin, F32.prec, F32.emax in Hc; lia).
    destruct (Zdigits2_bounds (Zpos m) ltac:(lia)) as (Hlo & _).
    rewrite Hd in Hlo. apply IZR_le in Hlo.
    change (IZR (2 ^ (24 - 1))) with 8388608%R in Hlo.
    assert (Hb : (bpow (Z.opp 21) <= bpow e)%R) by (apply bpow_le; lia).
    rewrite bpow_neg, (bpow_IZR 21) in Hb by lia.
    change (IZR (2 ^ 21)) with 2097152%R in Hb.
    pose proof (bpow_pos e). nra.
  - assert (Hm' : 14680064 < Zpos m) by exact Hm.
    clear Hm Hc Hv. apply IZR_lt in Hm'.
    change (-22) with (Z.opp 22). rewrite bpow_neg, (bpow_IZR 22) by lia.
    change (IZR (2 ^ 22)) with 4194304%R. lra.
Qed.

(** ** One pass of [loop()] *)

Lemma rested_positive F : fgt F MIN_REST_THRESHOLD_N = true -> flt F32.zero F = true.
Proof.
  unfold fgt, flt, SFltb, MIN_REST_THRESHOLD_N, F32.zero.
  destruct F as [s | [ | ] | | [ | ] m e]; simpl; intros H;
    try discriminate; reflexivity.
Qed.

Lemma positive_not_zero F : flt F32.zero F = true -> is_zero F = false.
Proof. destruct F as [s | s | | s m e]; simpl; intros H; try discriminate; reflexivity. Qed.

Lemma copStage_rested Fl Fr Fv Ft was :
  is_zero Ft = false ->
  copStage Fl Fr Fv Ft true was =
  let cx := F32.div (moment_x Fl Fr Fv) Ft in
  let cy := F32.div (moment_y Fl Fr Fv) Ft in
  let now := inDeadZone cx cy in
  Done (cx, cy, negb (Bool.eqb now was), now, now).
Proof.
  intros H; unfold copStage, fdiv, bind; rewrite H; reflexivity.
Qed.

Lemma copStage_unrested Fl Fr Fv Ft was :
  copStage Fl Fr Fv Ft false was = Done (NAN, NAN, false, false, false).
Proof. reflexivity. Qed.

(** [loop()] never faults, and this is what it computes. *)
Lemma loop_pass r g : ensures (loop r g) (fun '(g', c, row) => pass r g g' c row).
Proof.
  unfold loop.
  set (Fl := F32.mul (F32.mul (voltageToRawUnit _ (v_rest_left g)) _) _).
  set (Fr := F32.mul (F32.mul (voltageToRawUnit _ (v_rest_right g)) _) _).
  set (Fv := F32.mul (F32.mul (voltageToRawUnit _ (v_rest_vtc g)) _) _).
  set (Ft := F32.add (F32.add Fl Fr) Fv).
  destruct (fgt Ft MIN_REST_THRESHOLD_N) eqn:Hrest.
  - rewrite copStage_rested
      by (apply positive_not_zero, rested_positive; exact Hrest).
    cbv zeta; unfold bind, ensures.
    constructor; cbn [filtered_v_left filtered_v_right filtered_v_vtc v_rest_left
      v_rest_right v_rest_vtc was_in_deadzone lastLogTime F_left F_right F_vtc F_tot
      isArmRested cop_x cop_y copStateChanged now_in_deadzone]; auto.
  - rewrite copStage_unrested.
    cbv zeta; unfold bind, ensures.
    constructor; cbn [filtered_v_left filtered_v_right filtered_v_vtc v_rest_left
      v_rest_right v_rest_vtc was_in_deadzone lastLogTime F_left F_right F_vtc F_tot
      isArmRested cop_x cop_y copStateChanged now_in_deadzone]; auto.
Qed.

Lemma loop_done r g :
  exists g' c row, loop r g = Done (g', c, row) /\ pass r g g' c row.
Proof.
  pose proof (loop_pass r g) as H.
  destruct (loop r g) as [[[g' c] row] | ]; simpl in H; [ | contradiction ].
  exists g', c, row; auto.
Qed.

Lemma ensures_bind {A B : Type} (o : outcome A) (k : A -> outcome B)
    (Q : A -> Prop) (P : B -> Prop) :
  ensures o Q -> (forall a, Q a -> ensures (k a) P) -> ensures (bind o k) P.
Proof. destruct o as [a | ]; simpl; auto. Qed.

Lemma ensures_weaken {A : Type} (o : outcome A) (Q P : A -> Prop) :
  ensures o Q -> (forall a, Q a -> P a) -> ensures o P.
Proof. destruct o as [a | ]; simpl; auto. Qed.

(** ** The calibration chain *)

Lemma raw_below_baseline v b : fle v b = true -> voltageToRawUnit v b = F32.zero.
Proof. intros H; unfold voltageToRawUnit; rewrite H; reflexivity. Qed.

Lemma raw_above_baseline v b :
  flt b v = true -> voltageToRawUnit v b = max F32.zero (transfer v).
Proof.
  intros H; unfold voltageToRawUnit; rewrite (fle_false_of_flt _ _ H); reflexivity.
Qed.

Lemma max_zero_sign t : has_sign false (max F32.zero t).
Proof.
  unfold max; destruct (flt F32.zero t) eqn:E; [ | reflexivity ].
  apply flt_zero_iff in E; destruct E as [-> | (m & e & ->)]; reflexivity.
Qed.

Lemma raw_sign v b : has_sign false (voltageToRawUnit v b).
Proof.
  unfold voltageToRawUnit; destruct (fle v b); [ reflexivity | apply max_zero_sign ].
Qed.

(** With positive finite coefficients the force is a non-negative number. *)
Lemma force_sign v b mr er ms es :
  has_sign false
    (forceFromVoltage v b (S754_finite false mr er) (S754_finite false ms es)).
Proof.
  unfold forceFromVoltage, F32.mul.
  apply (SFmul_finite_sign F32.prec F32.emax false _ false).
  apply (SFmul_finite_sign F32.prec F32.emax false _ false).
  apply raw_sign.
Qed.

Lemma sketch_force_sign v b c :
  c = C_REL_LEFT \/ c = C_REL_RIGHT \/ c = C_REL_VTC ->
  has_sign false (forceFromVoltage v b c SYSTEM_FORCE_SCALE).
Proof.
  intros [-> | [-> | ->]];
    [ | rewrite C_REL_RIGHT_value | rewrite C_REL_VTC_value ]; apply force_sign.
Qed.

Lemma sketch_force_nonneg v b c :
  c = C_REL_LEFT \/ c = C_REL_RIGHT \/ c = C_REL_VTC ->
  fle F32.zero (forceFromVoltage v b c SYSTEM_FORCE_SCALE) = true.
Proof. intros H; apply fle_zero_iff; right; apply sketch_force_sign, H. Qed.

Lemma zero_times_finite x :
  is_finite x = true -> forall s, exists s', F32.mul (S754_zero s) x = S754_zero s'.
Proof.
  destruct x as [sx | sx | | sx mx ex]; simpl; intros H s; try discriminate; eauto.
Qed.

(** C5.  A filtered voltage at or below the rest baseline gives the raw unit
    [0.0f], hence a force that is a zero for all finite values of the two
    coefficients, and [0.0f] with the coefficients of the sketch. *)
Theorem force_zero_below_baseline
    (filteredVoltage restBaseline relativeSensitivity globalScale : float) :
  fle filteredVoltage restBaseline = true ->
  is_finite relativeSensitivity = true ->
  is_finite globalScale = true ->
  voltageToRawUnit filteredVoltage restBaseline = F32.zero /\
  is_zero (forceFromVoltage filteredVoltage restBaseline relativeSensitivity globalScale)
    = true /\
  SFeqb (forceFromVoltage filteredVoltage restBaseline relativeSensitivity globalScale)
        F32.zero = true /\
  forceFromVoltage filteredVoltage restBaseline C_REL_LEFT SYSTEM_FORCE_SCALE = F32.zero /\
  forceFromVoltage filteredVoltage restBaseline C_REL_RIGHT SYSTEM_FORCE_SCALE = F32.zero /\
  forceFromVoltage filteredVoltage restBaseline C_REL_VTC SYSTEM_FORCE_SCALE = F32.zero.
Proof.
  intros Hv Hr Hs.
  pose proof (raw_below_baseline _ _ Hv) as Hraw.
  unfold forceFromVoltage; cbv zeta; rewrite Hraw; unfold F32.zero.
  destruct (zero_times_finite _ Hr false) as (s1 & ->).
  destruct (zero_times_finite _ Hs s1) as (s2 & ->).
  repeat split; reflexivity.
Qed.

Lemma force_zero_below_baseline_witness :
  forceFromVoltage (adcVoltage 1200) (adcVoltage 1500) C_REL_RIGHT SYSTEM_FORCE_SCALE
  = F32.zero.
Proof.
  apply (force_zero_below_baseline (adcVoltage 1200) (adcVoltage 1500)
           C_REL_RIGHT SYSTEM_FORCE_SCALE); reflexivity.
Defined.

(** ** The transfer function, on the reals *)

(** A rounding either overflows or is finite and close to what it rounds. *)
Lemma rounds_cases n s x r :
  (0 <= n)%R ->
  rounds F32.prec F32.emax n s x r ->
  r = S754_infinity s \/
  (is_finite r = true /\ has_sign s r /\ is_float r /\ close n (Rabs (F2R r)) x /\
   (Rabs (F2R r) < 2 ^ 128)%R).
Proof.
  intros Hn (Hs & Hv & Hf & Hi).
  pose proof eta32 as (Eta0 & Eta). pose proof eps32 as Eps.
  destruct (is_finite r) eqn:Fr.
  - right. destruct (Hf eq_refl) as ((Hlo & Hhi) & Hmax).
    rewrite Eps in Hlo, Hhi. rewrite bpow_emax32 in Hmax.
    pose proof (Rabs_pos (F2R r)).
    repeat split; try assumption; unfold close; try nra; lra.
  - left. destruct r as [s' | s' | | s' m e]; simpl in *; try discriminate; try contradiction.
    congruence.
Qed.

Lemma F2R_P1 : Rabs (F2R P1) = (8974623 / 4194304)%R.
Proof.
  unfold P1, F2R. change (-22) with (Z.opp 22).
  rewrite bpow_neg, (bpow_IZR 22) by lia. change (IZR (2 ^ 22)) with 4194304%R.
  rewrite Rabs_left; lra.
Qed.

Lemma F2R_P2 : F2R P2 = (9944993 / 524288)%R.
Proof.
  unfold P2, F2R. change (-19) with (Z.opp 19).
  rewrite bpow_neg, (bpow_IZR 19) by lia. change (IZR (2 ^ 19)) with 524288%R. lra.
Qed.

Lemma F2R_P3 : F2R P3 = (- (13427133 / 524288))%R.
Proof.
  unfold P3, F2R. change (-19) with (Z.opp 19).
  rewrite bpow_neg, (bpow_IZR 19) by lia. change (IZR (2 ^ 19)) with 524288%R. lra.
Qed.

Lemma SFadd_sign b x y :
  has_sign b x -> has_sign b y -> has_sign b (F32.add x y).
Proof.
  destruct x as [sx | sx | | sx mx ex], y as [sy | sy | | sy my ey]; simpl;
    intros Hx Hy; try contradiction; subst sx; subst b; try reflexivity;
    try (destruct sy; reflexivity).
  destruct (shl_align mx ex _) as [mx' ex'], (shl_align my ey _) as [my' ey']; simpl.
  destruct sy; simpl; apply binary_round_sign.
Qed.

Lemma not_positive_of_sign t : has_sign true t -> flt F32.zero t = false.
Proof. destruct t as [s | s | | s m e]; simpl; intros H; subst; reflexivity. Qed.

Lemma positive_weight t :
  flt F32.zero t = true -> has_sign false t.
Proof.
  intros H; apply flt_zero_iff in H; destruct H as [-> | (m & e & ->)]; reflexivity.
Qed.

Lemma positive_value t : flt F32.zero t = true -> is_finite t = true -> (0 < F2R t)%R.
Proof.
  intros H F; apply flt_zero_iff in H; destruct H as [-> | (m & e & ->)];
    [ discriminate | apply F2R_finite_pos ].
Qed.

Lemma finite_cases x :
  is_float x -> is_finite x = true ->
  (exists s, x = S754_zero s) \/
  exists s m e, x = S754_finite s m e /\ bounded F32.prec F32.emax m e = true.
Proof.
  intros Hv Hf; destruct x as [s | s | | s m e]; try discriminate; eauto.
  right; exists s, m, e; split; [ reflexivity | exact Hv ].
Qed.

(** A sum of two finite numbers that comes out positive. *)
Lemma add_upper x y :
  is_float x -> is_finite x = true -> is_float y -> is_finite y = true ->
  (F2R x + F2R y < 2 ^ 127)%R ->
  flt F32.zero (F32.add x y) = true ->
  is_weight (F32.add x y) /\ close 1 (F2R (F32.add x y)) (F2R x + F2R y) /\
  (0 < F2R x + F2R y)%R.
Proof.
  intros Vx Fx Vy Fy Hs Hpos.
  destruct (finite_cases x Vx Fx) as [(sx & ->) | (sx & mx & ex & -> & Bx)];
    destruct (finite_cases y Vy Fy) as [(sy & ->) | (sy & my & ey & -> & By)].
  - exfalso. destruct sx, sy; discriminate.
  - simpl F32.add in *. replace (F2R (S754_zero sx)) with 0%R by reflexivity.
    rewrite Rplus_0_l.
    pose proof (positive_weight _ Hpos) as Hsy. simpl in Hsy; subst sy.
    pose proof (F2R_finite_pos my ey).
    repeat split; try assumption; try (apply close_refl; lra); lra.
  - simpl F32.add in *. replace (F2R (S754_zero sy)) with 0%R by reflexivity.
    rewrite Rplus_0_r.
    pose proof (positive_weight _ Hpos) as Hsx. simpl in Hsx; subst sx.
    pose proof (F2R_finite_pos mx ex).
    repeat split; try assumption; try (apply close_refl; lra); lra.
  - destruct (SFadd_rounds F32.prec F32.emax ltac:(reflexivity) ltac:(reflexivity)
                sx mx ex sy my ey) as (H0 & Hp & Hn).
    fold (F32.add (S754_finite sx mx ex) (S754_finite sy my ey)) in H0, Hp, Hn.
    destruct (Rtotal_order (F2R (S754_finite sx mx ex) + F2R (S754_finite sy my ey)) 0)
      as [Hlt | [Heq | Hgt]].
    + exfalso. destruct (Hn Hlt) as (Hsg & _).
      rewrite (not_positive_of_sign _ Hsg) in Hpos; discriminate.
    + exfalso. rewrite (H0 Heq) in Hpos; discriminate.
    + destruct (rounds_close 1 _ _ ltac:(lra) (Hp Hgt) Hs) as (Hw & Hc).
      repeat split; try apply Hw; try apply Hc; lra.
Qed.

(** A sum with [P3] that comes out positive has a positive first term. *)
Lemma positive_before_P3 X : flt F32.zero (F32.add X P3) = true -> flt F32.zero X = true.
Proof.
  intros H.
  destruct X as [s | [ | ] | | [ | ] m e]; try reflexivity; exfalso;
    try (destruct s); try discriminate.
  assert (Hs : has_sign true (F32.add (S754_finite true m e) P3))
    by (apply SFadd_sign; reflexivity).
  rewrite (not_positive_of_sign _ Hs) in H; discriminate.
Qed.

(** A sum with [-inf] or with a NaN as first term is not positive. *)
Lemma not_positive_after_inf B :
  has_sign false B ->
  flt F32.zero (F32.add (F32.add (S754_infinity true) B) P3) = false.
Proof.
  destruct B as [s | s | | s m e]; simpl; intros H; subst; reflexivity.
Qed.

(** The two products of the polynomial for a negative voltage, and the
    polynomial itself, are negative (or [-0], or [-inf]). *)
Lemma transfer_negative m e :
  has_sign true (transfer (S754_finite true m e)).
Proof.
  unfold transfer.
  apply SFadd_sign; [ | reflexivity ].
  apply SFadd_sign.
  - apply (SFmul_finite_sign F32.prec F32.emax false _ true m e).
    apply (SFmul_finite_sign F32.prec F32.emax true P1 true m e). reflexivity.
  - apply (SFmul_finite_sign F32.prec F32.emax false P2 true m e). reflexivity.
Qed.

(** The quadratic with the coefficients of the rounded polynomial stays
    below 17. *)
Lemma quadratic_bound (V T A B X t : R) :
  (0 <= V)%R -> (0 <= T)%R -> (0 <= A)%R -> (0 <= B)%R -> (0 <= X)%R -> (0 <= t)%R ->
  close 1 T (8974623 / 4194304 * V) ->
  close 1 A (T * V) ->
  close 1 B (9944993 / 524288 * V) ->
  close 1 X (B - A) ->
  close 1 t (X - 13427133 / 524288) ->
  (t <= 17)%R.
Proof.
  unfold close. intros HV HT HA HB HX Ht (T1 & T2) (A1 & A2) (B1 & B2) (X1 & X2) (t1 & t2).
  assert (HTV : (8974623 / 4194304 * (V * V)
                 <= (A * (1 + 1 * / 8388608) + 1 * / 18446744073709551616)
                    * (1 + 1 * / 8388608) + 1 * / 18446744073709551616 * V)%R) by nra.
  pose proof (pow2_ge_0 (V - 443 / 100)) as Hsq.
  nra.
Qed.

Lemma P1_bounded : bounded F32.prec F32.emax 8974623 (-22) = true.
Proof. reflexivity. Qed.
Lemma P2_bounded : bounded F32.prec F32.emax 9944993 (-19) = true.
Proof. reflexivity. Qed.

(** A finite negative number or a zero, by its magnitude. *)
Lemma negative_value A :
  has_sign true A -> F2R A = (- Rabs (F2R A))%R.
Proof.
  destruct A as [s | s | | s m e]; simpl; intros H; subst;
    rewrite ?Rabs_R0; try lra.
  pose proof (bpow_pos e). assert (0 < IZR (Zpos m))%R by (apply IZR_lt; lia).
  rewrite Rabs_left; nra.
Qed.

(** Where the polynomial comes out positive it is a finite number, at
    most 17. *)
Lemma transfer_positive v :
  is_float v -> flt F32.zero (transfer v) = true ->
  is_weight (transfer v) /\ (F2R (transfer v) <= 17)%R.
Proof.
  intros Hv Hpos.
  destruct v as [s | s | | s m e];
    [ exfalso; destruct s; vm_compute in Hpos; discriminate
    | exfalso; destruct s; vm_compute in Hpos; discriminate
    | exfalso; vm_compute in Hpos; discriminate
    | ].
  destruct s.
  { exfalso. rewrite (not_positive_of_sign _ (transfer_negative m e)) in Hpos; discriminate. }
  unfold transfer in *.
  set (v := S754_finite false m e) in *.
  set (V := (IZR (Zpos m) * bpow e)%R).
  assert (HV : (0 < V)%R).
  { subst V. pose proof (bpow_pos e). assert (0 < IZR (Zpos m))%R by (apply IZR_lt; lia). nra. }
  (* the two products by the voltage *)
  pose proof (SFmul_rounds F32.prec F32.emax ltac:(reflexivity) ltac:(reflexivity)
                true 8974623 (-22) false m e P1_bounded Hv) as R1.
  pose proof (SFmul_rounds F32.prec F32.emax ltac:(reflexivity) ltac:(reflexivity)
                false 9944993 (-19) false m e P2_bounded Hv) as R2.
  change (SFmul F32.prec F32.emax (S754_finite true 8974623 (-22)) (S754_finite false m e))
    with (F32.mul P1 v) in R1.
  change (SFmul F32.prec F32.emax (S754_finite false 9944993 (-19)) (S754_finite false m e))
    with (F32.mul P2 v) in R2.
  fold V in R1, R2. simpl xorb in R1, R2.
  assert (E1 : (IZR (Zpos 8974623) * bpow (-22) = 8974623 / 4194304)%R).
  { change (-22) with (Z.opp 22). rewrite bpow_neg, (bpow_IZR 22) by lia.
    change (IZR (2 ^ 22)) with 4194304%R. lra. }
  assert (E2 : (IZR (Zpos 9944993) * bpow (-19) = 9944993 / 524288)%R).
  { change (-19) with (Z.opp 19). rewrite bpow_neg, (bpow_IZR 19) by lia.
    change (IZR (2 ^ 19)) with 524288%R. lra. }
  rewrite E1 in R1. rewrite E2 in R2.
  assert (SB : has_sign false (F32.mul P2 v)) by apply R2.
  set (t1 := F32.mul P1 v) in *.
  set (B := F32.mul P2 v) in *.
  pose proof (positive_before_P3 _ Hpos) as HposX.
  (* the first product overflows, or not *)
  destruct (rounds_cases 1 true _ t1 ltac:(lra) R1) as [Et1 | (Ft1 & St1 & Vt1 & Ct1 & _)].
  { exfalso. rewrite Et1 in Hpos. simpl F32.mul in Hpos.
    rewrite (not_positive_after_inf B SB) in Hpos; discriminate. }
  assert (SA : has_sign true (F32.mul t1 v))
    by (apply (SFmul_finite_sign F32.prec F32.emax true t1 false m e St1)).
  assert (HA : F32.mul t1 v = S754_infinity true \/
               (is_finite (F32.mul t1 v) = true /\ is_float (F32.mul t1 v) /\
                close 1 (Rabs (F2R (F32.mul t1 v))) (Rabs (F2R t1) * V) /\
                (Rabs (F2R (F32.mul t1 v)) < 2 ^ 128)%R)).
  { destruct (finite_cases t1 Vt1 Ft1) as [(s1 & E) | (s1 & m1 & e1 & E & B1)];
      rewrite E in St1 |- *; simpl in St1; subst s1.
    - right. simpl. rewrite Rabs_R0, Rmult_0_l.
      refine (conj eq_refl (conj eq_refl (conj _ _))); [ unfold close; lra | lra ].
    - pose proof (SFmul_rounds F32.prec F32.emax ltac:(reflexivity) ltac:(reflexivity)
                    true m1 e1 false m e B1 Hv) as RA.
      fold V in RA. simpl xorb in RA.
      replace (Rabs (F2R (S754_finite true m1 e1))) with (IZR (Zpos m1) * bpow e1)%R.
      + destruct (rounds_cases 1 true _ _ ltac:(lra) RA) as [EA | (FA & _ & VA & CA & MA)];
          [ left; exact EA | right; exact (conj FA (conj VA (conj CA MA))) ].
      + simpl. pose proof (bpow_pos e1).
        assert (0 < IZR (Zpos m1))%R by (apply IZR_lt; lia).
        rewrite Rabs_left; nra. }
  destruct HA as [EA | (FA & VA & CA & MA)].
  { exfalso. rewrite EA in Hpos.
    rewrite (not_positive_after_inf B SB) in Hpos; discriminate. }
  set (A := F32.mul t1 v) in *.
  pose proof (Rabs_pos (F2R t1)) as PT. pose proof (Rabs_pos (F2R A)) as PA.
  (* the voltage is far below the overflow of the second product *)
  assert (HVb : (V < 2 ^ 65)%R).
  { destruct (Rlt_le_dec V (2 ^ 65)) as [H | H]; [ exact H | exfalso ].
    unfold close in Ct1, CA.
    assert (Rabs (F2R t1) >= V)%R by nra.
    assert (Rabs (F2R t1) * V >= 2 ^ 65 * 2 ^ 65)%R by nra.
    nra. }
  destruct (rounds_close 1 _ B ltac:(lra) R2 ltac:(nra)) as (WB & CB).
  pose proof (F2R_nonneg B SB) as PB.
  (* the two sums *)
  destruct (add_upper A B VA FA (proj1 WB) (proj2 (proj2 WB))
              ltac:(rewrite (negative_value A SA); unfold close in CB; nra) HposX)
    as (WX & CX & PX).
  rewrite (negative_value A SA) in CX, PX.
  pose proof (F2R_nonneg _ (proj1 (proj2 WX))) as PXv.
  assert (HXb : (F2R (F32.add A B) < 2 ^ 100)%R) by (unfold close in CX, CB; nra).
  destruct (add_upper (F32.add A B) P3 (proj1 WX) (proj2 (proj2 WX))
              ltac:(reflexivity) ltac:(reflexivity)
              ltac:(rewrite F2R_P3; nra) Hpos)
    as (Wt & Ct & Pt).
  rewrite F2R_P3 in Ct.
  split; [ exact Wt | ].
  pose proof (F2R_nonneg _ (proj1 (proj2 Wt))) as Ptv.
  apply (quadratic_bound V (Rabs (F2R t1)) (Rabs (F2R A)) (F2R B) (F2R (F32.add A B)));
    try lra; try assumption.
  replace (F2R B - Rabs (F2R A))%R with (- Rabs (F2R A) + F2R B)%R by ring. exact CX.
Qed.

(** ** The forces and the centre of pressure, on the reals *)

Lemma F2R_scaled m k :
  0 <= k -> F2R (S754_finite false m (- k)) = (IZR (Zpos m) / IZR (2 ^ k))%R.
Proof.
  intros H. rewrite F2R_finite_false, bpow_neg, (bpow_IZR k) by lia. reflexivity.
Qed.

(** Conversions to [float] make [float] data. *)
Lemma round_is_float x : is_float (F32.round x).
Proof.
  destruct x as [s | s | | s m e]; try reflexivity.
  apply (binary_round_rounds F32.prec F32.emax ltac:(reflexivity) ltac:(reflexivity) s m e).
Qed.

Lemma ema_is_float v_raw filtered : is_float (ema v_raw filtered).
Proof. apply round_is_float. Qed.

(** The raw unit is a finite number between 0 and 17. *)
Lemma raw_weight v b :
  is_float v ->
  is_weight (voltageToRawUnit v b) /\ (F2R (voltageToRawUnit v b) <= 17)%R.
Proof.
  intros Hv; unfold voltageToRawUnit.
  destruct (fle v b); [ split; [ apply zero_weight | simpl; lra ] | ].
  cbv zeta. unfold max.
  destruct (flt F32.zero (transfer v)) eqn:Hpos.
  - apply transfer_positive; assumption.
  - split; [ apply zero_weight | simpl; lra ].
Qed.

(** The coefficients of the sketch are weights, at most 1 and at most 6. *)
Lemma coefficient_weight c :
  c = C_REL_LEFT \/ c = C_REL_RIGHT \/ c = C_REL_VTC ->
  is_weight c /\ (F2R c <= 1)%R.
Proof.
  intros [-> | [-> | ->]];
    [ unfold C_REL_LEFT | rewrite C_REL_RIGHT_value | rewrite C_REL_VTC_value ];
    (split; [ repeat split | ]).
  - rewrite (F2R_scaled _ 23) by lia. change (IZR (2 ^ 23)) with 8388608%R. lra.
  - rewrite (F2R_scaled _ 24) by lia. change (IZR (2 ^ 24)) with 16777216%R. lra.
  - rewrite (F2R_scaled _ 24) by lia. change (IZR (2 ^ 24)) with 16777216%R. lra.
Qed.

Lemma scale_weight : is_weight SYSTEM_FORCE_SCALE /\ (F2R SYSTEM_FORCE_SCALE <= 6)%R.
Proof.
  split; [ repeat split | ].
  unfold SYSTEM_FORCE_SCALE.
  rewrite (F2R_scaled _ 21) by lia. change (IZR (2 ^ 21)) with 2097152%R. lra.
Qed.

(** Every force of a channel is a finite number between 0 and 128. *)
Lemma force_weight v b c :
  is_float v ->
  c = C_REL_LEFT \/ c = C_REL_RIGHT \/ c = C_REL_VTC ->
  is_weight (forceFromVoltage v b c SYSTEM_FORCE_SCALE) /\
  (F2R (forceFromVoltage v b c SYSTEM_FORCE_SCALE) <= 128)%R.
Proof.
  intros Hv Hc. unfold forceFromVoltage.
  destruct (raw_weight v b Hv) as (Wr & Br).
  destruct (coefficient_weight c Hc) as (Wc & Bc).
  destruct scale_weight as (Ws & Bs).
  pose proof (F2R_nonneg _ (proj1 (proj2 Wr))) as Pr.
  pose proof (F2R_nonneg _ (proj1 (proj2 Wc))) as Pc.
  pose proof (F2R_nonneg _ (proj1 (proj2 Ws))) as Ps.
  destruct (mul_weight _ _ Wr Wc ltac:(nra)) as (W1 & C1).
  pose proof (F2R_nonneg _ (proj1 (proj2 W1))) as P1.
  assert (B1 : (F2R (F32.mul (voltageToRawUnit v b) c) <= 18)%R)
    by (unfold close in C1; nra).
  destruct (mul_weight _ _ W1 Ws ltac:(nra)) as (W2 & C2).
  split; [ exact W2 | ].
  pose proof (F2R_nonneg _ (proj1 (proj2 W2))) as P2.
  unfold close in C2; nra.
Qed.

(** ** The polynomial below its root *)

(** A rounding of a magnitude far below the overflow threshold is finite. *)
Lemma rounds_finite n s x r :
  (0 <= n)%R ->
  rounds F32.prec F32.emax n s x r -> (x < 2 ^ 127)%R ->
  is_finite r = true /\ has_sign s r /\ is_float r /\ close n (Rabs (F2R r)) x.
Proof.
  intros Hn Hr Hx.
  destruct (rounds_cases n s x r Hn Hr) as [E | (F & S & V & C & _)];
    [ exfalso | exact (conj F (conj S (conj V C))) ].
  destruct Hr as (_ & _ & _ & Hi). rewrite E in Hi. specialize (Hi eq_refl).
  rewrite eps32, bpow_emax32 in Hi. lra.
Qed.

Lemma negative_flt t : (F2R t < 0)%R -> flt t F32.zero = true.
Proof.
  destruct t as [s | s | | [ | ] m e]; simpl; intros H; try lra; try reflexivity.
  pose proof (bpow_pos e). assert (0 < IZR (Zpos m))%R by (apply IZR_lt; lia). nra.
Qed.

(** The sum of two finite numbers, far from overflow. *)
Lemma add_finite_value x y :
  is_float x -> is_finite x = true -> is_float y -> is_finite y = true ->
  (Rabs (F2R x + F2R y) < 2 ^ 127)%R ->
  is_float (F32.add x y) /\ is_finite (F32.add x y) = true /\
  ((0 <= F2R (F32.add x y))%R /\ close 1 (F2R (F32.add x y)) (F2R x + F2R y) \/
   (F2R (F32.add x y) <= 0)%R /\ close 1 (- F2R (F32.add x y)) (- (F2R x + F2R y))).
Proof.
  intros Vx Fx Vy Fy Hs.
  assert (Hsame : forall z, is_float z -> is_finite z = true ->
            is_float z /\ is_finite z = true /\
            ((0 <= F2R z)%R /\ close 1 (F2R z) (F2R z) \/
             (F2R z <= 0)%R /\ close 1 (- F2R z) (- F2R z))).
  { intros z Vz Fz. split; [ exact Vz | split; [ exact Fz | ] ].
    destruct (Rle_dec 0 (F2R z)); [ left | right ];
      (split; [ lra | apply close_refl; lra ]). }
  destruct (finite_cases x Vx Fx) as [(sx & ->) | (sx & mx & ex & -> & Bx)];
    destruct (finite_cases y Vy Fy) as [(sy & ->) | (sy & my & ey & -> & By)].
  - replace (F2R (S754_zero sx) + F2R (S754_zero sy))%R with 0%R by (simpl; lra).
    assert (E : exists s, F32.add (S754_zero sx) (S754_zero sy) = S754_zero s)
      by (destruct sx, sy; simpl; eauto).
    destruct E as (s & ->). simpl.
    split; [ reflexivity | split; [ reflexivity | left; split; [ lra | ] ] ].
    apply close_refl; lra.
  - replace (F2R (S754_zero sx) + F2R (S754_finite sy my ey))%R
      with (F2R (S754_finite sy my ey)) by (simpl; lra).
    apply (Hsame (S754_finite sy my ey)); assumption.
  - replace (F2R (S754_finite sx mx ex) + F2R (S754_zero sy))%R
      with (F2R (S754_finite sx mx ex)) by (simpl; lra).
    apply (Hsame (S754_finite sx mx ex)); assumption.
  - destruct (SFadd_rounds F32.prec F32.emax ltac:(reflexivity) ltac:(reflexivity)
                sx mx ex sy my ey) as (H0 & Hp & Hn).
    fold (F32.add (S754_finite sx mx ex) (S754_finite sy my ey)) in H0, Hp, Hn.
    set (S := (F2R (S754_finite sx mx ex) + F2R (S754_finite sy my ey))%R) in *.
    destruct (Rtotal_order S 0) as [Hlt | [Heq | Hgt]].
    + rewrite Rabs_left in Hs by exact Hlt.
      destruct (rounds_finite 1 _ _ _ ltac:(lra) (Hn Hlt) Hs) as (F & Sg & V & C).
      rewrite (negative_value _ Sg).
      pose proof (Rabs_pos (F2R (F32.add (S754_finite sx mx ex) (S754_finite sy my ey)))).
      split; [ exact V | split; [ exact F | right; split; [ lra | ] ] ].
      rewrite Ropp_involutive. exact C.
    + rewrite (H0 Heq), Heq. simpl.
      split; [ reflexivity | split; [ reflexivity | left; split; [ lra | ] ] ].
      apply close_refl; lra.
    + rewrite Rabs_right in Hs by lra.
      destruct (rounds_finite 1 _ _ _ ltac:(lra) (Hp Hgt) Hs) as (F & Sg & V & C).
      rewrite (F2R_abs_nonneg _ Sg) in C.
      split; [ exact V | split; [ exact F | left; split; [ apply F2R_nonneg, Sg | exact C ] ] ].
Qed.

(** A negative number plus [P3] is a negative number. *)
Lemma add_P3_negative X :
  has_sign true X -> flt (F32.add X P3) F32.zero = true.
Proof.
  intros HX.
  destruct X as [s | s | | s m e]; simpl in HX; subst; try contradiction;
    try reflexivity.
  destruct (SFadd_rounds F32.prec F32.emax ltac:(reflexivity) ltac:(reflexivity)
              true m e true 13427133 (-19)) as (_ & _ & Hn).
  change (S754_finite true 13427133 (-19)) with P3 in Hn.
  fold (F32.add (S754_finite true m e) P3) in Hn.
  assert (Hneg : (F2R (S754_finite true m e) + F2R P3 < - 25)%R).
  { rewrite F2R_P3. simpl. pose proof (bpow_pos e).
    assert (0 < IZR (Zpos m))%R by (apply IZR_lt; lia). nra. }
  destruct (rounds_cases 1 true _ _ ltac:(lra) (Hn ltac:(lra)))
    as [-> | (F & Sg & _ & C & _)]; [ reflexivity | ].
  apply negative_flt. rewrite (negative_value _ Sg).
  unfold close in C. lra.
Qed.

(** Below [1.66f], on the reals. *)
Lemma below_root_value v :
  is_float v -> flt v V_1_66 = true ->
  v = S754_infinity true \/ (exists s, v = S754_zero s) \/
  (exists m e, v = S754_finite true m e) \/
  exists m e, v = S754_finite false m e /\ (F2R v < 13925089 / 8388608)%R.
Proof.
  intros Hv H. unfold flt, V_1_66 in H.
  destruct v as [s | [ | ] | | [ | ] m e]; try discriminate;
    [ right; left; exists s; reflexivity
    | left; reflexivity
    | right; right; left; exists m, e; reflexivity
    | ].
  right; right; right. exists m, e; split; [ reflexivity | ].
  apply SFltb_finite in H.
  destruct (bounded_canonical _ _ _ _ Hv) as (Hc & _).
  rewrite F2R_finite_false.
  destruct H as [Hlt | (-> & Hm)].
  - assert (Hd : Zdigits2 (Zpos m) <= 24) by (unfold fexp, emin, F32.prec, F32.emax in Hc; lia).
    destruct (Zdigits2_bounds (Zpos m) ltac:(lia)) as (_ & Hhi).
    assert (Hm' : Zpos m <= 2 ^ 24) by (pose proof (Z.pow_le_mono_r 2 _ 24 ltac:(lia) Hd); lia).
    apply IZR_le in Hm'. change (IZR (2 ^ 24)) with 16777216%R in Hm'.
    assert (Hb : (bpow e <= bpow (Z.opp 24))%R) by (apply bpow_le; lia).
    rewrite bpow_neg, (bpow_IZR 24) in Hb by lia.
    change (IZR (2 ^ 24)) with 16777216%R in Hb.
    pose proof (bpow_pos e). assert (0 < IZR (Zpos m))%R by (apply IZR_lt; lia). nra.
  - assert (Hm' : Zpos m < 13925089) by exact Hm.
    clear Hm Hc Hv. apply IZR_lt in Hm'.
    change (-23) with (Z.opp 23). rewrite bpow_neg, (bpow_IZR 23) by lia.
    change (IZR (2 ^ 23)) with 8388608%R. lra.
Qed.

(** The rounded polynomial without its constant term, below the root. *)
Lemma quadratic_below (V T A B : R) :
  (0 <= V <= 13925089 / 8388608)%R -> (0 <= T)%R -> (0 <= A)%R -> (0 <= B)%R ->
  close 1 T (8974623 / 4194304 * V) ->
  close 1 A (T * V) ->
  close 1 B (9944993 / 524288 * V) ->
  (B - A <= 13427133 / 524288 - 18 / 1000)%R.
Proof.
  unfold close. intros (V0 & V1) HT HA HB (T1 & T2) (A1 & A2) (B1 & B2).
  assert (HTV : (8974623 / 4194304 * (V * V)
                 <= (A * (1 + 1 * / 8388608) + 1 * / 18446744073709551616)
                    * (1 + 1 * / 8388608) + 1 * / 18446744073709551616 * V)%R) by nra.
  assert (Hmono : (0 <= (13925089 / 8388608 - V) * (18 - 2 * (13925089 / 8388608 + V)))%R)
    by nra.
  nra.
Qed.

(** Below [1.66f] the polynomial is negative. *)
Lemma transfer_below_root v :
  is_float v -> flt v V_1_66 = true -> flt (transfer v) F32.zero = true.
Proof.
  intros Hv Hlt.
  destruct (below_root_value v Hv Hlt)
    as [-> | [(s & ->) | [(m & e & ->) | (m & e & Ev & HVlt)]]].
  - reflexivity.
  - destruct s; reflexivity.
  - unfold transfer. apply add_P3_negative.
    apply SFadd_sign.
    + apply (SFmul_finite_sign F32.prec F32.emax false _ true m e).
      apply (SFmul_finite_sign F32.prec F32.emax true P1 true m e). reflexivity.
    + apply (SFmul_finite_sign F32.prec F32.emax false P2 true m e). reflexivity.
  - subst v. unfold transfer.
    set (v := S754_finite false m e) in *.
    pose proof (F2R_finite_pos m e) as HV. fold v in HV.
    set (V := F2R v) in *.
    assert (EV : V = (IZR (Zpos m) * bpow e)%R) by apply F2R_finite_false.
    (* the two products by the voltage *)
    pose proof (SFmul_rounds F32.prec F32.emax ltac:(reflexivity) ltac:(reflexivity)
                  true 8974623 (-22) false m e P1_bounded Hv) as R1.
    pose proof (SFmul_rounds F32.prec F32.emax ltac:(reflexivity) ltac:(reflexivity)
                  false 9944993 (-19) false m e P2_bounded Hv) as R2.
    change (SFmul F32.prec F32.emax (S754_finite true 8974623 (-22)) (S754_finite false m e))
      with (F32.mul P1 v) in R1.
    change (SFmul F32.prec F32.emax (S754_finite false 9944993 (-19)) (S754_finite false m e))
      with (F32.mul P2 v) in R2.
    rewrite <- EV in R1, R2. simpl xorb in R1, R2.
    assert (E1 : (IZR (Zpos 8974623) * bpow (-22) = 8974623 / 4194304)%R).
    { change (-22) with (Z.opp 22). rewrite bpow_neg, (bpow_IZR 22) by lia.
      change (IZR (2 ^ 22)) with 4194304%R. lra. }
    assert (E2 : (IZR (Zpos 9944993) * bpow (-19) = 9944993 / 524288)%R).
    { change (-19) with (Z.opp 19). rewrite bpow_neg, (bpow_IZR 19) by lia.
      change (IZR (2 ^ 19)) with 524288%R. lra. }
    rewrite E1 in R1. rewrite E2 in R2.
    set (t1 := F32.mul P1 v) in *.
    set (B := F32.mul P2 v) in *.
    destruct (rounds_finite 1 _ _ t1 ltac:(lra) R1 ltac:(nra)) as (Ft1 & St1 & Vt1 & Ct1).
    destruct (rounds_close 1 _ B ltac:(lra) R2 ltac:(nra)) as (WB & CB).
    pose proof (Rabs_pos (F2R t1)) as PT.
    assert (BT : (Rabs (F2R t1) <= 4)%R) by (unfold close in Ct1; nra).
    assert (HA : is_finite (F32.mul t1 v) = true /\ is_float (F32.mul t1 v) /\
                 has_sign true (F32.mul t1 v) /\
                 close 1 (Rabs (F2R (F32.mul t1 v))) (Rabs (F2R t1) * V)).
    { destruct (finite_cases t1 Vt1 Ft1) as [(s1 & E) | (s1 & m1 & e1 & E & B1)];
        rewrite E in St1, BT |- *; simpl in St1; subst s1.
      - simpl. rewrite Rabs_R0, Rmult_0_l.
        refine (conj eq_refl (conj eq_refl (conj eq_refl _))). unfold close; lra.
      - pose proof (SFmul_rounds F32.prec F32.emax ltac:(reflexivity) ltac:(reflexivity)
                      true m1 e1 false m e B1 Hv) as RA.
        rewrite <- EV in RA. simpl xorb in RA.
        assert (EA : Rabs (F2R (S754_finite true m1 e1)) = (IZR (Zpos m1) * bpow e1)%R).
        { simpl. pose proof (bpow_pos e1).
          assert (0 < IZR (Zpos m1))%R by (apply IZR_lt; lia).
          rewrite Rabs_left; nra. }
        rewrite EA in BT |- *.
        destruct (rounds_finite 1 _ _ _ ltac:(lra) RA ltac:(nra)) as (FA & SA & VA & CA).
        exact (conj FA (conj VA (conj SA CA))). }
    destruct HA as (FA & VA & SA & CA).
    set (A := F32.mul t1 v) in *.
    pose proof (Rabs_pos (F2R A)) as PA.
    pose proof (F2R_nonneg B (proj1 (proj2 WB))) as PB.
    pose proof (quadratic_below V (Rabs (F2R t1)) (Rabs (F2R A)) (F2R B)
                  ltac:(lra) PT PA PB Ct1 CA CB) as HQ.
    assert (BA : (Rabs (F2R A) <= 8)%R) by (unfold close in CA; nra).
    assert (BB : (F2R B <= 32)%R) by (unfold close in CB; nra).
    (* the two sums *)
    destruct (add_finite_value A B VA FA (proj1 WB) (proj2 (proj2 WB))) as (VX & FX & CX).
    { rewrite (negative_value A SA). apply Rabs_def1; lra. }
    rewrite (negative_value A SA) in CX.
    assert (HX : (F2R (F32.add A B) <= 13427133 / 524288 - 17 / 1000)%R /\
                 (- 10 <= F2R (F32.add A B))%R).
    { unfold close in CX. destruct CX as [(P & C1 & C2) | (P & C1 & C2)]; split; lra. }
    destruct (add_finite_value (F32.add A B) P3 VX FX ltac:(reflexivity) ltac:(reflexivity))
      as (_ & _ & Ct).
    { rewrite F2R_P3. apply Rabs_def1; lra. }
    rewrite F2R_P3 in Ct.
    apply negative_flt.
    unfold close in Ct. destruct Ct as [(P & C1 & C2) | (P & C1 & C2)]; lra.
Qed.

Lemma flt_asym x y : flt x y = true -> flt y x = false.
Proof.
  unfold flt, SFltb.
  rewrite (SFcompare_antisym x y).
  destruct (SFcompare x y) as [[ | | ] | ]; simpl; congruence.
Qed.

Lemma raw_negative v b :
  flt (transfer v) F32.zero = true -> voltageToRawUnit v b = F32.zero.
Proof.
  intros H; unfold voltageToRawUnit.
  destruct (fle v b); [ reflexivity | ].
  cbv zeta; unfold max; rewrite (flt_asym _ _ H); reflexivity.
Qed.

Lemma force_of_zero_raw v b :
  voltageToRawUnit v b = F32.zero ->
  forceFromVoltage v b C_REL_LEFT SYSTEM_FORCE_SCALE = F32.zero /\
  forceFromVoltage v b C_REL_RIGHT SYSTEM_FORCE_SCALE = F32.zero /\
  forceFromVoltage v b C_REL_VTC SYSTEM_FORCE_SCALE = F32.zero.
Proof.
  intros H; unfold forceFromVoltage; rewrite H.
  repeat split; vm_compute; reflexivity.
Qed.

(** C9.  [P3] is negative and the polynomial, as [voltageToRawUnit]
    evaluates it, is negative at every single-precision voltage below
    [1.66f], where the raw unit and the force of each of the three channels
    are therefore [0.0f] whatever the baseline; and for every rest baseline
    below [1.66f] there is a filtered voltage strictly above the baseline
    whose raw unit and forces are [0.0f]. *)
Theorem zero_force_above_baseline (restBaseline : float) :
  flt restBaseline V_1_66 = true ->
  flt P3 F32.zero = true /\
  (forall v, is_float v -> flt v V_1_66 = true ->
     flt (transfer v) F32.zero = true /\
     voltageToRawUnit v restBaseline = F32.zero /\
     forceFromVoltage v restBaseline C_REL_LEFT SYSTEM_FORCE_SCALE = F32.zero /\
     forceFromVoltage v restBaseline C_REL_RIGHT SYSTEM_FORCE_SCALE = F32.zero /\
     forceFromVoltage v restBaseline C_REL_VTC SYSTEM_FORCE_SCALE = F32.zero) /\
  exists filteredVoltage,
    is_float filteredVoltage /\
    flt restBaseline filteredVoltage = true /\
    flt (transfer filteredVoltage) F32.zero = true /\
    voltageToRawUnit filteredVoltage restBaseline = F32.zero /\
    forceFromVoltage filteredVoltage restBaseline C_REL_LEFT SYSTEM_FORCE_SCALE = F32.zero /\
    forceFromVoltage filteredVoltage restBaseline C_REL_RIGHT SYSTEM_FORCE_SCALE = F32.zero /\
    forceFromVoltage filteredVoltage restBaseline C_REL_VTC SYSTEM_FORCE_SCALE = F32.zero.
Proof.
  intros H; split; [ reflexivity | split ].
  - intros v Hv Hlt.
    pose proof (transfer_below_root v Hv Hlt) as Hneg.
    pose proof (raw_negative v restBaseline Hneg) as Hraw.
    exact (conj Hneg (conj Hraw (force_of_zero_raw _ _ Hraw))).
  - assert (Hneg : flt (transfer V_1_66) F32.zero = true) by (vm_compute; reflexivity).
    pose proof (raw_negative V_1_66 restBaseline Hneg) as Hraw.
    exists V_1_66.
    exact (conj eq_refl (conj H (conj Hneg (conj Hraw (force_of_zero_raw _ _ Hraw))))).
Qed.

Lemma zero_force_above_baseline_witness :
  (flt (transfer (adcVoltage 1800)) F32.zero = true /\
   voltageToRawUnit (adcVoltage 1800) (adcVoltage 1500) = F32.zero) /\
  exists filteredVoltage,
    flt (adcVoltage 1500) filteredVoltage = true /\
    voltageToRawUnit filteredVoltage (adcVoltage 1500) = F32.zero.
Proof.
  destruct (zero_force_above_baseline (adcVoltage 1500) eq_refl)
    as (_ & Hall & v & _ & Hv & _ & Hraw & _).
  destruct (Hall (adcVoltage 1800) eq_refl eq_refl) as (Hneg & Hraw' & _).
  split; [ split; assumption | exists v; split; assumption ].
Defined.

(** ** Rest state, centre of pressure and dead zone *)

(** C4.  On every pass [isArmRested] is [F_tot > MIN_REST_THRESHOLD_N], and
    when it is false both coordinates of the centre of pressure are NaN, in
    the local variables and in the telemetry row if one is written. *)
Theorem unrested_cop_is_nan (r : Readings) (g : Sketch) :
  ensures (loop r g) (fun '(_, c, row) =>
    isArmRested c = fgt (F_tot c) MIN_REST_THRESHOLD_N /\
    (isArmRested c = false ->
     cop_x c = NAN /\ cop_y c = NAN /\
     forall w, row = Some w ->
       row_is_rested w = false /\ row_CoP_X w = NAN /\ row_CoP_Y w = NAN)).
Proof.
  apply (ensures_weaken _ _ _ (loop_pass r g)).
  intros [[g' c] row] H.
  split; [ apply (pass_isArmRested _ _ _ _ _ H) | intros Hrest ].
  pose proof (pass_cop _ _ _ _ _ H) as Hcop; rewrite Hrest in Hcop.
  destruct Hcop as (Hx & Hy & _).
  repeat split; auto; rewrite (pass_row _ _ _ _ _ H) in H0;
    destruct (logDue _ _); try discriminate; injection H0 as <-; simpl; auto.
Qed.

Lemma unrested_cop_is_nan_witness :
  ensures unrested_pass (fun '(_, c, row) =>
    isArmRested c = false /\ cop_x c = NAN /\ cop_y c = NAN).
Proof.
  pose proof (unrested_cop_is_nan (readingsAt 1500 1500 1500 0) (inZone restedAt1500)) as H.
  change (loop _ _) with unrested_pass in H.
  unfold unrested_pass, ensures in *.
  destruct H as (_ & H).
  destruct (H eq_refl) as (Hx & Hy & _).
  repeat split; assumption.
Defined.

(** C3.  On every pass where [isArmRested] is false, [was_in_deadzone] is
    false afterwards, whatever it was before, and [copStateChanged] is
    false. *)
Theorem unrested_leaves_deadzone (r : Readings) (g : Sketch) :
  ensures (loop r g) (fun '(g', c, row) =>
    isArmRested c = false ->
    was_in_deadzone g' = false /\ copStateChanged c = false /\
    forall w, row = Some w -> row_copStateChanged w = false).
Proof.
  apply (ensures_weaken _ _ _ (loop_pass r g)).
  intros [[g' c] row] H Hrest.
  pose proof (pass_cop _ _ _ _ _ H) as Hcop; rewrite Hrest in Hcop.
  destruct Hcop as (_ & _ & Hnow & Hch).
  rewrite (pass_was _ _ _ _ _ H).
  repeat split; auto.
  intros w Hw; rewrite (pass_row _ _ _ _ _ H) in Hw.
  destruct (logDue _ _); try discriminate; injection Hw as <-; simpl; auto.
Qed.

Lemma unrested_leaves_deadzone_witness :
  was_in_deadzone (inZone restedAt1500) = true /\
  ensures unrested_pass (fun '(g', c, _) =>
    isArmRested c = false /\ was_in_deadzone g' = false /\ copStateChanged c = false).
Proof.
  split; [ reflexivity | ].
  pose proof (unrested_leaves_deadzone (readingsAt 1500 1500 1500 0) (inZone restedAt1500))
    as H.
  change (loop _ _) with unrested_pass in H.
  unfold unrested_pass, ensures in *.
  destruct (H eq_refl) as (Hw & Hc & _).
  repeat split; assumption.
Defined.

(** C6.  [loop()] never divides by zero: the quotients of the centre of
    pressure are taken only when [F_tot > MIN_REST_THRESHOLD_N], the
    threshold is positive, and so the divisor [F_tot] is strictly positive
    where the division is reached; with [isArmRested] false no division is
    evaluated, whatever [F_tot] is. *)
Theorem cop_division_guarded (r : Readings) (g : Sketch) :
  ensures (loop r g) (fun '(_, c, _) =>
    if isArmRested c then
      flt MIN_REST_THRESHOLD_N (F_tot c) = true /\
      flt F32.zero (F_tot c) = true /\
      fdiv (moment_x (F_left c) (F_right c) (F_vtc c)) (F_tot c) = Done (cop_x c) /\
      fdiv (moment_y (F_left c) (F_right c) (F_vtc c)) (F_tot c) = Done (cop_y c)
    else
      forall Fl Fr Fv Ft was,
        copStage Fl Fr Fv Ft false was = Done (NAN, NAN, false, false, false)) /\
  flt F32.zero MIN_REST_THRESHOLD_N = true.
Proof.
  split; [ | reflexivity ].
  apply (ensures_weaken _ _ _ (loop_pass r g)).
  intros [[g' c] row] H.
  pose proof (pass_cop _ _ _ _ _ H) as Hcop.
  pose proof (pass_isArmRested _ _ _ _ _ H) as Hrest.
  destruct (isArmRested c); [ | intros; reflexivity ].
  symmetry in Hrest.
  pose proof (rested_positive _ Hrest) as Hpos.
  destruct Hcop as (Hx & Hy & _).
  unfold fdiv; rewrite (positive_not_zero _ Hpos), Hx, Hy; auto.
Qed.

(** ** Runs of [loop()] *)

Lemma run_cons r rs g (P : Sketch * list Cycle * list Row -> Prop) :
  ensures (loop r g) (fun '(g1, c, row) =>
    ensures (run rs g1) (fun '(g2, cs, rows) =>
      P (g2, c :: cs, match row with Some w => w :: rows | None => rows end))) ->
  ensures (run (r :: rs) g) P.
Proof.
  simpl run.
  destruct (loop r g) as [[[g1 c] row] | ]; simpl; auto.
  destruct (run rs g1) as [[[g2 cs] rows] | ]; simpl; auto.
Qed.

(** A run never faults and makes one pass per element of its input. *)
Lemma run_length rs : forall g,
  ensures (run rs g) (fun '(_, cs, _) => length cs = length rs).
Proof.
  induction rs as [ | r rs IH]; intros g; [ reflexivity | ].
  apply run_cons, (ensures_weaken _ _ _ (loop_pass r g)).
  intros [[g1 c] row] _.
  apply (ensures_weaken _ _ _ (IH g1)).
  intros [[g2 cs] rows] H; simpl; congruence.
Qed.

Lemma changes_steady b n : changes b (repeat b n) = repeat false n.
Proof.
  induction n as [ | n IH]; simpl; [ reflexivity | ].
  rewrite IH, Bool.eqb_reflx; reflexivity.
Qed.

Lemma changes_step a b :
  changes false (repeat false a ++ repeat true (S b))
  = repeat false a ++ true :: repeat false b.
Proof.
  induction a as [ | a IH]; simpl.
  - rewrite changes_steady; reflexivity.
  - simpl in IH; rewrite IH; reflexivity.
Qed.

Lemma rested_flags rs : forall g,
  ensures (run rs g) (fun '(_, cs, _) =>
    Forall (fun c => isArmRested c = true) cs ->
    map copStateChanged cs = changes (was_in_deadzone g) (map now_in_deadzone cs)).
Proof.
  induction rs as [ | r rs IH]; intros g; [ simpl; intros _; reflexivity | ].
  apply run_cons, (ensures_weaken _ _ _ (loop_pass r g)).
  intros [[g1 c] row] Hp.
  apply (ensures_weaken _ _ _ (IH g1)).
  intros [[g2 cs] rows] Hrec Hall.
  inversion Hall as [ | c' cs' Hc Hcs]; subst.
  pose proof (pass_cop _ _ _ _ _ Hp) as Hcop; rewrite Hc in Hcop.
  destruct Hcop as (_ & _ & _ & Hch).
  simpl; rewrite Hch, (Hrec Hcs), (pass_was _ _ _ _ _ Hp); reflexivity.
Qed.

(** C2.  In a run of passes that are all rested, [copStateChanged] is raised
    on a pass exactly when the dead-zone membership of the pass differs from
    the one persisted by the pass before it; so when the membership goes from
    false to true once, the flag is true on the pass of the transition and
    false on every pass before and after it. *)
Theorem state_change_on_transition (rs : list Readings) (g : Sketch) :
  ensures (run rs g) (fun '(_, cs, _) =>
    Forall (fun c => isArmRested c = true) cs ->
    map copStateChanged cs = changes (was_in_deadzone g) (map now_in_deadzone cs) /\
    forall a b,
      was_in_deadzone g = false ->
      map now_in_deadzone cs = repeat false a ++ repeat true (S b) ->
      map copStateChanged cs = repeat false a ++ true :: repeat false b).
Proof.
  apply (ensures_weaken _ _ _ (rested_flags rs g)).
  intros [[g' cs] rows] H Hall.
  split; [ exact (H Hall) | ].
  intros a b Hwas Hnow.
  rewrite (H Hall), Hwas, Hnow; apply changes_step.
Qed.

Lemma state_change_on_transition_witness :
  ensures stepIntoZone_run (fun '(_, cs, _) =>
    Forall (fun c => isArmRested c = true) cs /\
    map now_in_deadzone cs = repeat false 9 ++ repeat true 5 /\
    map copStateChanged cs = repeat false 9 ++ true :: repeat false 4).
Proof.
  pose proof (state_change_on_transition (repeat (readingsAt 3000 3000 3200 0) 14)
                loadedInFront) as H.
  change (run _ _) with stepIntoZone_run in H.
  unfold stepIntoZone_run, ensures in *.
  lapply H; [ clear H; intros (_ & H) | repeat constructor ].
  split; [ repeat constructor | ].
  split; [ reflexivity | apply (H 9%nat 4%nat); reflexivity ].
Defined.

(** ** The exponential filter *)

Lemma same_eq x y : same x y = true -> x = y.
Proof.
  destruct x as [s | s | | s m e], y as [s' | s' | | s' m' e']; simpl;
    try discriminate; try reflexivity; intros H.
  - apply Bool.eqb_prop in H; congruence.
  - apply Bool.eqb_prop in H; congruence.
  - apply andb_prop in H; destruct H as (H & He).
    apply andb_prop in H; destruct H as (Hs & Hm).
    apply Bool.eqb_prop in Hs; apply Pos.eqb_eq in Hm; apply Z.eqb_eq in He.
    congruence.
Qed.

Lemma allFrom_spec f bits : forall lo,
  allFrom bits lo f = true ->
  forall z, lo <= z < lo + 2 ^ Z.of_nat bits -> f z = true.
Proof.
  induction bits as [ | k IH]; intros lo H z Hz.
  - simpl in *. assert (z = lo) as -> by lia. exact H.
  - cbn [allFrom] in H. apply andb_prop in H; destruct H as (H1 & H2).
    rewrite Nat2Z.inj_succ, Z.pow_succ_r in Hz by lia.
    destruct (Z_lt_le_dec z (lo + 2 ^ Z.of_nat k)).
    + apply (IH lo H1); lia.
    + apply (IH _ H2); lia.
Qed.

Lemma emaHolds_all : allFrom ADC_BITS 0 emaHolds = true.
Proof. vm_compute. reflexivity. Qed.

(** Every voltage the converter can deliver is a fixed point of the filter. *)
Lemma ema_fixed count :
  0 <= count < ADC_COUNTS ->
  ema (adcVoltage count) (adcVoltage count) = adcVoltage count.
Proof.
  intros H.
  apply same_eq, (allFrom_spec emaHolds ADC_BITS 0 emaHolds_all count), H.
Qed.

Lemma run_holds rs : forall g nl nr nv,
  ensures (run rs g) (fun '(g', _, _) =>
    (0 <= nl < ADC_COUNTS -> filtered_v_left g = adcVoltage nl ->
     Forall (fun r => adc_left r = nl) rs -> filtered_v_left g' = filtered_v_left g) /\
    (0 <= nr < ADC_COUNTS -> filtered_v_right g = adcVoltage nr ->
     Forall (fun r => adc_right r = nr) rs -> filtered_v_right g' = filtered_v_right g) /\
    (0 <= nv < ADC_COUNTS -> filtered_v_vtc g = adcVoltage nv ->
     Forall (fun r => adc_vtc r = nv) rs -> filtered_v_vtc g' = filtered_v_vtc g)).
Proof.
  induction rs as [ | r rs IH]; intros g nl nr nv; [ simpl; auto | ].
  apply run_cons, (ensures_weaken _ _ _ (loop_pass r g)).
  intros [[g1 c] row] Hp.
  apply (ensures_weaken _ _ _ (IH g1 nl nr nv)).
  intros [[g2 cs] rows] (Hl & Hr & Hv).
  pose proof (pass_filtered_left _ _ _ _ _ Hp) as El.
  pose proof (pass_filtered_right _ _ _ _ _ Hp) as Er.
  pose proof (pass_filtered_vtc _ _ _ _ _ Hp) as Ev.
  repeat split; intros Hn Hg Hall; apply Forall_cons_iff in Hall;
    destruct Hall as (Hhd & Htl).
  - rewrite Hhd, Hg, ema_fixed in El by exact Hn.
    rewrite Hl; congruence.
  - rewrite Hhd, Hg, ema_fixed in Er by exact Hn.
    rewrite Hr; congruence.
  - rewrite Hhd, Hg, ema_fixed in Ev by exact Hn.
    rewrite Hv; congruence.
Qed.

(** C8.  The filter [alpha * sample + (1 - alpha) * filtered] has every
    voltage the converter delivers as a fixed point: while the samples of a
    channel are the voltage its filter holds, the filtered voltage of the
    channel keeps its initial value, after every number of passes. *)
Theorem filter_fixed_point (rs : list Readings) (g : Sketch) (count : Z) :
  0 <= count < ADC_COUNTS ->
  ema (adcVoltage count) (adcVoltage count) = adcVoltage count /\
  ensures (run rs g) (fun '(g', _, _) =>
    (filtered_v_left g = adcVoltage count ->
     Forall (fun r => adc_left r = count) rs ->
     filtered_v_left g' = filtered_v_left g) /\
    (filtered_v_right g = adcVoltage count ->
     Forall (fun r => adc_right r = count) rs ->
     filtered_v_right g' = filtered_v_right g) /\
    (filtered_v_vtc g = adcVoltage count ->
     Forall (fun r => adc_vtc r = count) rs ->
     filtered_v_vtc g' = filtered_v_vtc g)).
Proof.
  intros H; split; [ apply ema_fixed, H | ].
  apply (ensures_weaken _ _ _ (run_holds rs g count count count)).
  intros [[g' cs] rows] (Hl & Hr & Hv); auto.
Qed.

Lemma filter_fixed_point_witness :
  ema (adcVoltage 3000) (adcVoltage 3000) = adcVoltage 3000 /\
  ensures (run (repeat (readingsAt 3000 3000 3200 0) 14) loadedInFront)
    (fun '(g', _, _) => filtered_v_left g' = adcVoltage 3000).
Proof.
  assert (Hc : 0 <= 3000 < ADC_COUNTS) by (unfold ADC_COUNTS; simpl; lia).
  destruct (filter_fixed_point (repeat (readingsAt 3000 3000 3200 0) 14) loadedInFront
              3000 Hc) as (H1 & H2).
  split; [ exact H1 | ].
  apply (ensures_weaken _ _ _ H2).
  intros [[g' cs] rows] (Hl & _).
  apply Hl; [ reflexivity | repeat constructor ].
Defined.

(** ** The telemetry gate *)

Lemma ulong_sub t s : ulong (millis t - millis s) = (t - s) mod ULONG.
Proof. unfold millis, ulong; apply Zminus_mod_idemp_l || idtac.
  rewrite Zminus_mod_idemp_l, Zminus_mod_idemp_r; reflexivity. Qed.

Lemma logDue_elapsed t s : s <= t -> logDue t (millis s) = true -> LOG_INTERVAL_MS <= t - s.
Proof.
  unfold logDue; rewrite ulong_sub; intros Hst H.
  apply Z.leb_le in H.
  assert (0 < ULONG) by reflexivity.
  pose proof (Z.mod_le (t - s) ULONG ltac:(lia) ltac:(lia)).
  lia.
Qed.

Lemma logDue_short t s :
  0 <= t - s <= LOG_INTERVAL_MS -> logDue t (millis s) = (LOG_INTERVAL_MS <=? t - s).
Proof.
  unfold logDue; rewrite ulong_sub; intros H.
  rewrite Z.mod_small; [ reflexivity | ].
  unfold LOG_INTERVAL_MS, ULONG in *; lia.
Qed.

(** After a row stamped [s], rows are at least 50 ms apart. *)
Lemma rows_after_store rs : forall g s hi,
  lastLogTime g = millis s ->
  clocksOrdered s rs ->
  Forall (fun r => clock_gate r <= hi) rs ->
  ensures (run rs g) (fun '(_, _, rows) =>
    rows = [] \/ LOG_INTERVAL_MS * Z.of_nat (length rows) <= hi - s).
Proof.
  induction rs as [ | r rs IH]; intros g s hi Hlast Hord Hhi; [ simpl; auto | ].
  destruct Hord as (Hg & Hs & Hp & Hord).
  apply Forall_cons_iff in Hhi; destruct Hhi as (Hr & Hhi).
  apply run_cons, (ensures_weaken _ _ _ (loop_pass r g)).
  intros [[g1 c] row] Hpass.
  pose proof (pass_lastLogTime _ _ _ _ _ Hpass) as Hl.
  pose proof (pass_row _ _ _ _ _ Hpass) as Hrow.
  rewrite Hlast in Hl, Hrow.
  destruct (logDue (clock_gate r) (millis s)) eqn:Hdue.
  - pose proof (logDue_elapsed _ _ Hg Hdue) as Hel.
    assert (Hord' : clocksOrdered (clock_store r) rs).
    { destruct rs as [ | r' rs']; simpl in *; auto.
      destruct Hord as (? & ?); repeat split; try tauto; lia. }
    apply (ensures_weaken _ _ _ (IH g1 (clock_store r) hi Hl Hord' Hhi)).
    intros [[g2 cs] rows] Hrec; subst row; right.
    destruct Hrec as [-> | Hrec]; cbn [length]; unfold LOG_INTERVAL_MS in *; lia.
  - assert (Hord' : clocksOrdered s rs).
    { destruct rs as [ | r' rs']; simpl in *; auto.
      destruct Hord as (? & ?); repeat split; try tauto; lia. }
    apply (ensures_weaken _ _ _ (IH g1 s hi Hl Hord' Hhi)).
    intros [[g2 cs] rows] Hrec; subst row; exact Hrec.
Qed.

(** In a window of [T] ms there are at most [T / 50 + 1] rows. *)
Lemma rows_in_window rs : forall g a T,
  0 <= T -> inWindow a T rs ->
  ensures (run rs g) (fun '(_, _, rows) =>
    Z.of_nat (length rows) <= T / LOG_INTERVAL_MS + 1).
Proof.
  induction rs as [ | r rs IH]; intros g a T HT (Hord & Hwin).
  - simpl. assert (0 <= T / LOG_INTERVAL_MS) by (apply Z.div_pos; [ lia | reflexivity ]). lia.
  - pose proof Hord as (Hg & Hs & Hp & Hord').
    pose proof (proj1 (Forall_cons_iff _ _ _) Hwin) as (Hr & Hwin').
    apply run_cons, (ensures_weaken _ _ _ (loop_pass r g)).
    intros [[g1 c] row] Hpass.
    pose proof (pass_lastLogTime _ _ _ _ _ Hpass) as Hl.
    pose proof (pass_row _ _ _ _ _ Hpass) as Hrow.
    destruct (logDue (clock_gate r) (lastLogTime g)) eqn:Hdue.
    + assert (Hord2 : clocksOrdered (clock_store r) rs).
      { destruct rs as [ | r' rs']; simpl in *; auto.
        destruct Hord' as (? & ?); repeat split; try tauto; lia. }
      assert (Hhi : Forall (fun r => clock_gate r <= a + T - 1) rs).
      { eapply Forall_impl; [ | exact Hwin' ]. simpl; intros; lia. }
      apply (ensures_weaken _ _ _ (rows_after_store rs g1 (clock_store r) _ Hl Hord2 Hhi)).
      intros [[g2 cs] rows] Hrec; subst row; cbn [length].
      assert (Z.of_nat (length rows) <= T / LOG_INTERVAL_MS).
      { destruct Hrec as [-> | Hrec].
        - simpl; apply Z.div_pos; [ lia | reflexivity ].
        - apply Z.div_le_lower_bound; [ reflexivity | ]. lia. }
      lia.
    + assert (Hw : inWindow a T rs).
      { split; [ | exact Hwin' ].
        destruct rs as [ | r' rs']; simpl in *; auto.
        destruct Hord' as (? & ?); repeat split; try tauto; lia. }
      apply (ensures_weaken _ _ _ (IH g1 a T HT Hw)).
      intros [[g2 cs] rows] Hrec; subst row; exact Hrec.
Qed.

Lemma last_cons_default (l : list Z) : forall y t, last (y :: l) t = last l y.
Proof.
  induction l as [ | z l IH]; intros y t; [ reflexivity | ].
  change (last (y :: z :: l) t) with (last (z :: l) t).
  rewrite (IH z t), (IH z y); reflexivity.
Qed.

Lemma lastGate_cons t r rs : lastGate t (r :: rs) = lastGate (clock_gate r) rs.
Proof. unfold lastGate; cbn [map]; apply last_cons_default. Qed.

(** With a poll every millisecond, rows are exactly 50 ms apart. *)
Lemma rows_when_polled rs : forall g s t,
  lastLogTime g = millis s ->
  0 <= t - s < LOG_INTERVAL_MS ->
  polledEveryMs t rs ->
  ensures (run rs g) (fun '(_, _, rows) =>
    Z.of_nat (length rows) = (lastGate t rs - s) / LOG_INTERVAL_MS).
Proof.
  induction rs as [ | r rs IH]; intros g s t Hlast Hts Hpoll.
  - simpl. unfold lastGate; simpl. rewrite Z.div_small; [ reflexivity | lia ].
  - destruct Hpoll as (Hg & Hs & Hp & Hpoll).
    apply run_cons, (ensures_weaken _ _ _ (loop_pass r g)).
    intros [[g1 c] row] Hpass.
    pose proof (pass_lastLogTime _ _ _ _ _ Hpass) as Hl.
    pose proof (pass_row _ _ _ _ _ Hpass) as Hrow.
    rewrite Hlast, logDue_short in Hl, Hrow by (unfold LOG_INTERVAL_MS in *; lia).
    rewrite lastGate_cons.
    destruct (LOG_INTERVAL_MS <=? clock_gate r - s) eqn:Hdue.
    + apply Z.leb_le in Hdue. rewrite Hs in Hl.
      assert (Ht : 0 <= clock_gate r - clock_gate r < LOG_INTERVAL_MS)
        by (unfold LOG_INTERVAL_MS; lia).
      apply (ensures_weaken _ _ _ (IH g1 (clock_gate r) (clock_gate r) Hl Ht Hpoll)).
      intros [[g2 cs] rows] Hrec; subst row; cbn [length].
      rewrite Nat2Z.inj_succ, Hrec.
      assert (Hs50 : s = clock_gate r - 1 * LOG_INTERVAL_MS)
        by (unfold LOG_INTERVAL_MS in *; lia).
      rewrite Hs50.
      replace (lastGate (clock_gate r) rs - (clock_gate r - 1 * LOG_INTERVAL_MS))
        with (lastGate (clock_gate r) rs - clock_gate r + 1 * LOG_INTERVAL_MS) by lia.
      rewrite Z.div_add by (unfold LOG_INTERVAL_MS; lia). lia.
    + apply Z.leb_gt in Hdue.
      assert (Ht : 0 <= clock_gate r - s < LOG_INTERVAL_MS) by lia.
      apply (ensures_weaken _ _ _ (IH g1 s (clock_gate r) Hl Ht Hpoll)).
      intros [[g2 cs] rows] Hrec; subst row; exact Hrec.
Qed.

Lemma rows_polled_window rs g a T s :
  0 <= T -> inWindow a T rs ->
  lastLogTime g = millis s -> s < a -> a - s < ULONG ->
  polledEveryMs (a - 1) rs -> lastGate (a - 1) rs = a + T - 1 ->
  ensures (run rs g) (fun '(_, _, rows) =>
    Z.of_nat (length rows) = T / LOG_INTERVAL_MS \/
    Z.of_nat (length rows) = T / LOG_INTERVAL_MS + 1).
Proof.
  intros HT (Hord & Hwin) Hlast Hsa Hwrap Hpoll Hend.
  destruct (Z_lt_le_dec (a - s) LOG_INTERVAL_MS) as [Hnear | Hfar].
  - assert (Ht : 0 <= a - 1 - s < LOG_INTERVAL_MS) by lia.
    apply (ensures_weaken _ _ _ (rows_when_polled rs g s (a - 1) Hlast Ht Hpoll)).
    intros [[g' cs] rows] H; rewrite H, Hend.
    unfold LOG_INTERVAL_MS in *; Z.div_mod_to_equations; lia.
  - destruct rs as [ | r rs].
    + unfold lastGate in Hend; simpl in Hend.
      assert (T = 0) as -> by lia. simpl; auto.
    + destruct Hpoll as (Hg & Hs & Hp & Hpoll).
      destruct Hord as (Hag & _).
      assert (Hgate : clock_gate r = a) by lia.
      rewrite lastGate_cons in Hend.
      apply run_cons, (ensures_weaken _ _ _ (loop_pass r g)).
      intros [[g1 c] row] Hpass.
      pose proof (pass_lastLogTime _ _ _ _ _ Hpass) as Hl.
      pose proof (pass_row _ _ _ _ _ Hpass) as Hrow.
      assert (Hdue : logDue (clock_gate r) (lastLogTime g) = true).
      { rewrite Hlast, Hgate; unfold logDue; rewrite ulong_sub.
        rewrite Z.mod_small by lia. apply Z.leb_le; exact Hfar. }
      rewrite Hdue, Hs in Hl; rewrite Hdue in Hrow.
      assert (Ht : 0 <= clock_gate r - clock_gate r < LOG_INTERVAL_MS)
        by (unfold LOG_INTERVAL_MS; lia).
      apply (ensures_weaken _ _ _ (rows_when_polled rs g1 _ _ Hl Ht Hpoll)).
      intros [[g2 cs] rows] H; subst row; cbn [length].
      rewrite Nat2Z.inj_succ, H, Hend, Hgate.
      unfold LOG_INTERVAL_MS in *; Z.div_mod_to_equations; lia.
Qed.

(** With a poll every millisecond and a window that starts at the time of
    the last record, the first row is 50 ms into the window. *)
Lemma rows_polled_from_store rs g a T :
  0 <= T -> inWindow a T rs ->
  lastLogTime g = millis a ->
  polledEveryMs (a - 1) rs -> lastGate (a - 1) rs = a + T - 1 ->
  ensures (run rs g) (fun '(_, _, rows) =>
    Z.of_nat (length rows) = T / LOG_INTERVAL_MS - 1 \/
    Z.of_nat (length rows) = T / LOG_INTERVAL_MS).
Proof.
  intros HT (Hord & Hwin) Hlast Hpoll Hend.
  destruct rs as [ | r rs].
  - unfold lastGate in Hend; simpl in Hend.
    assert (T = 0) as -> by lia. simpl; auto.
  - destruct Hpoll as (Hg & Hs & Hp & Hpoll).
    destruct Hord as (Hag & _).
    apply Forall_cons_iff in Hwin; destruct Hwin as (Hr & _).
    assert (Hgate : clock_gate r = a) by lia.
    rewrite lastGate_cons in Hend.
    apply run_cons, (ensures_weaken _ _ _ (loop_pass r g)).
    intros [[g1 c] row] Hpass.
    pose proof (pass_lastLogTime _ _ _ _ _ Hpass) as Hl.
    pose proof (pass_row _ _ _ _ _ Hpass) as Hrow.
    rewrite Hlast, logDue_short in Hl, Hrow by (unfold LOG_INTERVAL_MS; lia).
    assert (Hdue : (LOG_INTERVAL_MS <=? clock_gate r - a) = false)
      by (apply Z.leb_gt; unfold LOG_INTERVAL_MS; lia).
    rewrite Hdue in Hl, Hrow.
    assert (Ht : 0 <= clock_gate r - a < LOG_INTERVAL_MS)
      by (unfold LOG_INTERVAL_MS; lia).
    apply (ensures_weaken _ _ _ (rows_when_polled rs g1 _ _ Hl Ht Hpoll)).
    intros [[g2 cs] rows] H; subst row. cbn [app].
    rewrite H, Hend.
    unfold LOG_INTERVAL_MS in *; Z.div_mod_to_equations; lia.
Qed.

(** The passes compute the same whatever the clock and the gate do. *)
Lemma loop_pipeline r r2 g g2 :
  signals r2 = signals r -> pipelineState g2 = pipelineState g ->
  ensures (loop r g) (fun '(g', c, _) =>
    ensures (loop r2 g2) (fun '(g2', c2, _) =>
      c2 = c /\ pipelineState g2' = pipelineState g')).
Proof.
  intros Hs Hp.
  pose proof (loop_pass r g) as H.
  destruct r as [al ar av t1 t2 t3], r2 as [al' ar' av' t1' t2' t3'],
    g as [ll fl fr fv bl br bv w], g2 as [ll' fl' fr' fv' bl' br' bv' w'];
    unfold signals, pipelineState in Hs, Hp; simpl in Hs, Hp.
  injection Hs as -> -> ->.
  injection Hp as -> -> -> -> -> -> ->.
  unfold loop in *; cbn [adc_left adc_right adc_vtc filtered_v_left filtered_v_right
    filtered_v_vtc v_rest_left v_rest_right v_rest_vtc was_in_deadzone] in *.
  destruct (copStage _ _ _ _ _ _) as [[[[[cx cy] ch] now] was] | ];
    [ | exact H ].
  simpl; auto.
Qed.

Lemma run_pipeline rs : forall rs2 g g2,
  map signals rs2 = map signals rs -> pipelineState g2 = pipelineState g ->
  ensures (run rs g) (fun '(g', cs, _) =>
    ensures (run rs2 g2) (fun '(g2', cs2, _) =>
      cs2 = cs /\ pipelineState g2' = pipelineState g')).
Proof.
  induction rs as [ | r rs IH]; intros [ | r2 rs2] g g2 Hs Hp; try discriminate.
  - simpl; auto.
  - cbn [map] in Hs.
    assert (Hr : signals r2 = signals r) by congruence.
    assert (Hs' : map signals rs2 = map signals rs) by congruence.
    clear Hs; rename Hs' into Hs.
    apply run_cons.
    pose proof (loop_pipeline r r2 g g2 Hr Hp) as H.
    destruct (loop r g) as [[[g1 c] row] | ]; [ | exfalso; exact H ].
    cbn [ensures] in H |- *.
    destruct (loop r2 g2) as [[[g1' c'] row'] | ] eqn:E2; [ | exfalso; exact H ].
    cbn [ensures] in H; destruct H as (-> & Hp1).
    pose proof (IH rs2 g1 g1' Hs Hp1) as Hrec.
    destruct (run rs g1) as [[[g2' cs] rows] | ]; [ | exfalso; exact Hrec ].
    cbn [ensures] in Hrec |- *.
    apply run_cons. rewrite E2; cbn [ensures].
    destruct (run rs2 g1') as [[[g3 cs2] rows2] | ]; [ | exfalso; exact Hrec ].
    cbn [ensures] in Hrec |- *.
    destruct Hrec as (-> & ->); auto.
Qed.

(** C7 (amended).  In a window of [T] ms from [a] a run writes at most
    [T / 50 + 1] rows, whatever its passes are.  When the loop polls the
    clock every millisecond of the window, the three calls of [millis()] of
    a pass agree, and [lastLogTime] holds a time [s] before the window, less
    than [2^32] ms before it, the run writes [T / 50] rows or one more; when
    [lastLogTime] holds the start [a] of the window itself, it writes
    [T / 50] rows or one fewer.  And every pass samples, filters and
    computes, with the same results whatever the clock and the gate do. *)
Theorem telemetry_rate (rs : list Readings) (g : Sketch) (a T : Z) :
  0 <= T -> inWindow a T rs ->
  ensures (run rs g) (fun '(g', cs, rows) =>
    Z.of_nat (length rows) <= T / LOG_INTERVAL_MS + 1 /\
    (forall s,
       lastLogTime g = millis s -> s < a -> a - s < ULONG ->
       polledEveryMs (a - 1) rs -> lastGate (a - 1) rs = a + T - 1 ->
       Z.of_nat (length rows) = T / LOG_INTERVAL_MS \/
       Z.of_nat (length rows) = T / LOG_INTERVAL_MS + 1) /\
    (lastLogTime g = millis a ->
     polledEveryMs (a - 1) rs -> lastGate (a - 1) rs = a + T - 1 ->
     Z.of_nat (length rows) = T / LOG_INTERVAL_MS - 1 \/
     Z.of_nat (length rows) = T / LOG_INTERVAL_MS) /\
    length cs = length rs /\
    forall rs2 g2,
      map signals rs2 = map signals rs -> pipelineState g2 = pipelineState g ->
      ensures (run rs2 g2) (fun '(g2', cs2, _) =>
        cs2 = cs /\ pipelineState g2' = pipelineState g')).
Proof.
  intros HT Hwin.
  pose proof (rows_in_window rs g a T HT Hwin) as H1.
  pose proof (run_length rs g) as H3.
  assert (H2 : forall s,
             lastLogTime g = millis s -> s < a -> a - s < ULONG ->
             polledEveryMs (a - 1) rs -> lastGate (a - 1) rs = a + T - 1 ->
             ensures (run rs g) (fun '(_, _, rows) =>
               Z.of_nat (length rows) = T / LOG_INTERVAL_MS \/
               Z.of_nat (length rows) = T / LOG_INTERVAL_MS + 1))
    by (intros s; apply rows_polled_window; assumption).
  assert (H5 : lastLogTime g = millis a ->
             polledEveryMs (a - 1) rs -> lastGate (a - 1) rs = a + T - 1 ->
             ensures (run rs g) (fun '(_, _, rows) =>
               Z.of_nat (length rows) = T / LOG_INTERVAL_MS - 1 \/
               Z.of_nat (length rows) = T / LOG_INTERVAL_MS))
    by (apply rows_polled_from_store; assumption).
  assert (H4 : forall rs2 g2,
             map signals rs2 = map signals rs -> pipelineState g2 = pipelineState g ->
             ensures (run rs g) (fun '(g', cs, _) =>
               ensures (run rs2 g2) (fun '(g2', cs2, _) =>
                 cs2 = cs /\ pipelineState g2' = pipelineState g')))
    by (intros rs2 g2; apply run_pipeline).
  destruct (run rs g) as [[[g' cs] rows] | ]; [ | exact H1 ].
  cbn [ensures] in *.
  repeat split; auto.
Qed.

Lemma fastRun_polled : inWindow 3000 60 fastRun /\ polledEveryMs 2999 fastRun.
Proof.
  split; [ split | ].
  - unfold fastRun; simpl; repeat split; lia.
  - unfold fastRun; simpl; repeat constructor.
  - unfold fastRun; simpl; repeat split; auto.
Qed.

Lemma fiftyPasses_polled : inWindow 3000 50 fiftyPasses /\ polledEveryMs 2999 fiftyPasses.
Proof.
  split; [ split | ].
  - unfold fiftyPasses, fastRun; simpl; repeat split; lia.
  - unfold fiftyPasses, fastRun; simpl; repeat constructor.
  - unfold fiftyPasses, fastRun; simpl; repeat split; auto.
Qed.

Lemma telemetry_rate_witness :
  ensures (run fastRun restedAt1500) (fun '(_, cs, rows) =>
    length cs = 60%nat /\
    (Z.of_nat (length rows) = 60 / LOG_INTERVAL_MS \/
     Z.of_nat (length rows) = 60 / LOG_INTERVAL_MS + 1)) /\
  ensures (run fiftyPasses loggedAt3000) (fun '(_, cs, rows) =>
    length cs = 50%nat /\
    (Z.of_nat (length rows) = 50 / LOG_INTERVAL_MS - 1 \/
     Z.of_nat (length rows) = 50 / LOG_INTERVAL_MS)).
Proof.
  assert (HT : 0 <= 60) by lia.
  assert (HT' : 0 <= 50) by lia.
  pose proof (telemetry_rate fastRun restedAt1500 3000 60 HT (proj1 fastRun_polled)) as H.
  pose proof (telemetry_rate fiftyPasses loggedAt3000 3000 50 HT'
                (proj1 fiftyPasses_polled)) as H'.
  split.
  - apply (ensures_weaken _ _ _ H).
    intros [[g' cs] rows] (_ & H2 & _ & H3 & _).
    split; [ exact H3 | ].
    apply (H2 0); try reflexivity.
    exact (proj2 fastRun_polled).
  - apply (ensures_weaken _ _ _ H').
    intros [[g' cs] rows] (_ & _ & H2 & H3 & _).
    split; [ exact H3 | ].
    apply H2; try reflexivity.
    exact (proj2 fiftyPasses_polled).
Defined.

(** C7, as stated, fails on twenty passes 30 ms apart: the window of 600 ms
    from 30 ms on holds ten rows, not twelve or thirteen. *)
Lemma telemetry_rate_counterexample : ~ rowCountAsStated.
Proof.
  intros H.
  assert (Hwin : inWindow 30 600 slowRun).
  { split; unfold slowRun; simpl; [ repeat split; lia | repeat constructor ]. }
  specialize (H slowRun restedAt1500 30 600 ltac:(lia) Hwin).
  assert (E : match run slowRun restedAt1500 with
              | Done (_, _, rows) => Some (map row_Timestamp rows)
              | DivisionByZero => None
              end = slowRun_rows) by (vm_compute; reflexivity).
  destruct (run slowRun restedAt1500) as [[[g' cs] rows] | ]; [ | exact H ].
  cbn [ensures] in H.
  unfold slowRun_rows in E; injection E as E.
  apply (f_equal (@length Z)) in E; rewrite length_map in E; simpl in E.
  rewrite E in H; vm_compute in H.
  destruct H as [H | H]; discriminate.
Qed.

(** ** The centre of pressure *)

Lemma F2R_7 : F2R (fst P_RIGHT_XY) = 7%R.
Proof.
  change (fst P_RIGHT_XY) with (S754_finite false 14680064 (- (21))).
  rewrite (F2R_scaled _ 21) by lia. change (IZR (2 ^ 21)) with 2097152%R. lra.
Qed.

Lemma F2R_3_5 : F2R (fst P_VTC_XY) = (7 / 2)%R.
Proof.
  change (fst P_VTC_XY) with (S754_finite false 14680064 (- (22))).
  rewrite (F2R_scaled _ 22) by lia. change (IZR (2 ^ 22)) with 4194304%R. lra.
Qed.

Lemma F2R_22 : F2R (snd P_VTC_XY) = 22%R.
Proof.
  change (snd P_VTC_XY) with (S754_finite false 11534336 (- (19))).
  rewrite (F2R_scaled _ 19) by lia. change (IZR (2 ^ 19)) with 524288%R. lra.
Qed.

(** A weighted sum of the three forces, as [loop()] computes it. *)
Lemma moment_weight px py pz Fl Fr Fv :
  is_weight px -> is_weight py -> is_weight pz ->
  (F2R px <= 32)%R -> (F2R py <= 32)%R -> (F2R pz <= 32)%R ->
  is_weight Fl -> is_weight Fr -> is_weight Fv ->
  (F2R Fl <= 128)%R -> (F2R Fr <= 128)%R -> (F2R Fv <= 128)%R ->
  let N := F32.add (F32.add (F32.mul px Fl) (F32.mul py Fr)) (F32.mul pz Fv) in
  is_weight N /\
  exists a b c ab,
    close 1 a (F2R px * F2R Fl) /\ close 1 b (F2R py * F2R Fr) /\
    close 1 c (F2R pz * F2R Fv) /\ close 1 ab (a + b) /\ close 1 (F2R N) (ab + c) /\
    (0 <= a)%R /\ (0 <= b)%R /\ (0 <= c)%R /\ (0 <= ab)%R.
Proof.
  intros Wx Wy Wz Bx By Bz Wl Wr Wv Bl Br Bv N; subst N.
  pose proof (F2R_nonneg _ (proj1 (proj2 Wx))). pose proof (F2R_nonneg _ (proj1 (proj2 Wy))).
  pose proof (F2R_nonneg _ (proj1 (proj2 Wz))). pose proof (F2R_nonneg _ (proj1 (proj2 Wl))).
  pose proof (F2R_nonneg _ (proj1 (proj2 Wr))). pose proof (F2R_nonneg _ (proj1 (proj2 Wv))).
  destruct (mul_weight px Fl Wx Wl ltac:(nra)) as (Wa & Ca).
  destruct (mul_weight py Fr Wy Wr ltac:(nra)) as (Wb & Cb).
  destruct (mul_weight pz Fv Wz Wv ltac:(nra)) as (Wc & Cc).
  pose proof (F2R_nonneg _ (proj1 (proj2 Wa))) as Pa.
  pose proof (F2R_nonneg _ (proj1 (proj2 Wb))) as Pb.
  pose proof (F2R_nonneg _ (proj1 (proj2 Wc))) as Pc.
  assert (Ba : (F2R (F32.mul px Fl) <= 5000)%R) by (unfold close in Ca; nra).
  assert (Bb : (F2R (F32.mul py Fr) <= 5000)%R) by (unfold close in Cb; nra).
  assert (Bc : (F2R (F32.mul pz Fv) <= 5000)%R) by (unfold close in Cc; nra).
  destruct (add_weight _ _ Wa Wb ltac:(lra)) as (Wab & Cab).
  pose proof (F2R_nonneg _ (proj1 (proj2 Wab))) as Pab.
  assert (Bab : (F2R (F32.add (F32.mul px Fl) (F32.mul py Fr)) <= 11000)%R)
    by (unfold close in Cab; nra).
  destruct (add_weight _ _ Wab Wc ltac:(lra)) as (WN & CN).
  split; [ exact WN | ].
  exists (F2R (F32.mul px Fl)), (F2R (F32.mul py Fr)), (F2R (F32.mul pz Fv)),
    (F2R (F32.add (F32.mul px Fl) (F32.mul py Fr))).
  repeat split; try apply Ca; try apply Cb; try apply Cc; try apply Cab; try apply CN;
    assumption.
Qed.

Lemma div_weight_pos x y :
  is_weight x -> is_weight y -> (0 < F2R y)%R -> (F2R x / F2R y < 2 ^ 127)%R ->
  is_weight (F32.div x y) /\ close 2 (F2R (F32.div x y)) (F2R x / F2R y).
Proof.
  intros Wx Wy Py H.
  destruct (weight_cases y Wy) as [-> | (my & ey & -> & _)].
  - simpl in Py; lra.
  - apply div_weight; assumption.
Qed.

(** The centre of pressure of a rested pass lies, within the rounding of
    [float], in the triangle of the three sensors. *)
Lemma centroid_bounds Fl Fr Fv :
  is_weight Fl -> is_weight Fr -> is_weight Fv ->
  (F2R Fl <= 128)%R -> (F2R Fr <= 128)%R -> (F2R Fv <= 128)%R ->
  let Ft := F32.add (F32.add Fl Fr) Fv in
  fgt Ft MIN_REST_THRESHOLD_N = true ->
  let cx := F32.div (moment_x Fl Fr Fv) Ft in
  let cy := F32.div (moment_y Fl Fr Fv) Ft in
  is_weight Ft /\ (7 / 2 < F2R Ft)%R /\
  is_weight cx /\ is_weight cy /\
  (F2R cx <= 7 + / 65536)%R /\ (F2R cy <= 22 + / 32768)%R /\
  (- / 4096 <= 22 * F2R cx - 7 / 2 * F2R cy)%R /\
  (- / 4096 <= 22 * (7 - F2R cx) - 7 / 2 * F2R cy)%R.
Proof.
  intros Wl Wr Wv Bl Br Bv Ft Hrest cx cy.
  pose proof (F2R_nonneg _ (proj1 (proj2 Wl))) as Pl.
  pose proof (F2R_nonneg _ (proj1 (proj2 Wr))) as Pr.
  pose proof (F2R_nonneg _ (proj1 (proj2 Wv))) as Pv.
  (* the total force *)
  destruct (add_weight Fl Fr Wl Wr ltac:(lra)) as (Wlr & Clr).
  pose proof (F2R_nonneg _ (proj1 (proj2 Wlr))) as Plr.
  assert (Blr : (F2R (F32.add Fl Fr) <= 300)%R) by (unfold close in Clr; nra).
  destruct (add_weight _ Fv Wlr Wv ltac:(lra)) as (Wt & Ct).
  fold Ft in Wt, Ct.
  pose proof (F2R_nonneg _ (proj1 (proj2 Wt))) as Pt.
  assert (Bt : (F2R Ft <= 500)%R) by (unfold close in Ct; nra).
  destruct (rested_value Ft (proj1 Wt) Hrest) as [E | (mt & et & Et & Ht)].
  { exfalso. destruct Wt as (_ & _ & F). rewrite E in F; discriminate. }
  (* the two weighted sums *)
  assert (W0 : is_weight F32.zero) by apply zero_weight.
  assert (W7 : is_weight (fst P_RIGHT_XY)) by (repeat split).
  assert (W35 : is_weight (fst P_VTC_XY)) by (repeat split).
  assert (W22 : is_weight (snd P_VTC_XY)) by (repeat split).
  assert (Z0 : F2R F32.zero = 0%R) by reflexivity.
  destruct (moment_weight (fst P_LEFT_XY) (fst P_RIGHT_XY) (fst P_VTC_XY) Fl Fr Fv
              W0 W7 W35 ltac:(simpl; lra) ltac:(rewrite F2R_7; lra)
              ltac:(rewrite F2R_3_5; lra) Wl Wr Wv Bl Br Bv)
    as (WNx & ax & bx & cx' & abx & Cax & Cbx & Ccx & Cabx & CNx & Pax & Pbx & Pcx & Pabx).
  destruct (moment_weight (snd P_LEFT_XY) (snd P_RIGHT_XY) (snd P_VTC_XY) Fl Fr Fv
              W0 W0 W22 ltac:(simpl; lra) ltac:(simpl; lra)
              ltac:(rewrite F2R_22; lra) Wl Wr Wv Bl Br Bv)
    as (WNy & ay & by' & cy' & aby & Cay & Cby & Ccy & Caby & CNy & Pay & Pby & Pcy & Paby).
  fold (moment_x Fl Fr Fv) in WNx, CNx. fold (moment_y Fl Fr Fv) in WNy, CNy.
  change (F2R (fst P_LEFT_XY)) with 0%R in Cax.
  change (F2R (snd P_LEFT_XY)) with 0%R in Cay.
  change (F2R (snd P_RIGHT_XY)) with 0%R in Cby.
  rewrite F2R_7 in Cbx. rewrite F2R_3_5 in Ccx. rewrite F2R_22 in Ccy.
  set (Nx := F2R (moment_x Fl Fr Fv)) in *. set (Ny := F2R (moment_y Fl Fr Fv)) in *.
  pose proof (F2R_nonneg _ (proj1 (proj2 WNx))) as PNx. fold Nx in PNx.
  pose proof (F2R_nonneg _ (proj1 (proj2 WNy))) as PNy. fold Ny in PNy.
  set (T := F2R Ft) in *.
  unfold close in Clr, Ct, Cax, Cbx, Ccx, Cabx, CNx, Cay, Cby, Ccy, Caby, CNy.
  (* the quotients *)
  assert (HNx : (Nx <= (7 + / 200000) * T)%R) by lra.
  assert (HNy : (Ny <= (22 + / 80000) * T)%R) by lra.
  assert (HQx : (Nx / T <= 7 + / 200000)%R).
  { apply Rmult_le_reg_r with T; [ lra | ].
    unfold Rdiv; rewrite Rmult_assoc, Rinv_l by lra. lra. }
  assert (HQy : (Ny / T <= 22 + / 80000)%R).
  { apply Rmult_le_reg_r with T; [ lra | ].
    unfold Rdiv; rewrite Rmult_assoc, Rinv_l by lra. lra. }
  assert (HQx0 : (0 <= Nx / T)%R) by (apply Rmult_le_pos; [ lra | apply Rlt_le, Rinv_0_lt_compat; lra ]).
  assert (HQy0 : (0 <= Ny / T)%R) by (apply Rmult_le_pos; [ lra | apply Rlt_le, Rinv_0_lt_compat; lra ]).
  assert (HTx : (Nx / T * T = Nx)%R) by (field; lra).
  assert (HTy : (Ny / T * T = Ny)%R) by (field; lra).
  destruct (div_weight_pos (moment_x Fl Fr Fv) Ft WNx Wt ltac:(fold T; lra)
              ltac:(fold Nx; fold T; lra)) as (Wcx & Ccx2).
  destruct (div_weight_pos (moment_y Fl Fr Fv) Ft WNy Wt ltac:(fold T; lra)
              ltac:(fold Ny; fold T; lra)) as (Wcy & Ccy2).
  fold Nx in Ccx2. fold Ny in Ccy2. fold T in Ccx2, Ccy2.
  fold cx in Wcx, Ccx2. fold cy in Wcy, Ccy2.
  pose proof (F2R_nonneg _ (proj1 (proj2 Wcx))) as Pcx2.
  pose proof (F2R_nonneg _ (proj1 (proj2 Wcy))) as Pcy2.
  unfold close in Ccx2, Ccy2.
  split; [ exact Wt | split; [ lra | split; [ exact Wcx | split; [ exact Wcy | ] ] ] ].
  assert (Bcx : (F2R cx <= 7 + / 65536)%R) by lra.
  assert (Bcy : (F2R cy <= 22 + / 32768)%R) by lra.
  split; [ exact Bcx | split; [ exact Bcy | ] ].
  (* the two slanted edges *)
  assert (HL : (- / 16384 * T <= 22 * Nx - 7 / 2 * Ny)%R) by lra.
  assert (HR : (- / 8192 * T <= 22 * (7 * T - Nx) - 7 / 2 * Ny)%R) by lra.
  assert (HLq : (- / 16384 <= 22 * (Nx / T) - 7 / 2 * (Ny / T))%R).
  { apply Rmult_le_reg_r with T; [ lra | ]. nra. }
  assert (HRq : (- / 8192 <= 22 * (7 - Nx / T) - 7 / 2 * (Ny / T))%R).
  { apply Rmult_le_reg_r with T; [ lra | ]. nra. }
  split; lra.
Qed.

(** C10 (amended).  On every rested pass the three forces are finite and
    [>= 0], their sum is finite and above 3.5, and the centre of pressure is
    finite, [>= 0] in both coordinates and within rounding error of the
    triangle of the sensors: [cop_x <= 7 + 2^-16], [cop_y <= 22 + 2^-15],
    and it is at most [2^-12] beyond the lines through (0,0), (3.5,22) and
    through (7,0), (3.5,22). *)
Theorem cop_near_triangle (r : Readings) (g : Sketch) :
  ensures (loop r g) (fun '(_, c, _) =>
    isArmRested c = true ->
    (is_weight (F_left c) /\ is_weight (F_right c) /\ is_weight (F_vtc c)) /\
    (is_weight (F_tot c) /\ (7 / 2 < F2R (F_tot c))%R) /\
    (is_weight (cop_x c) /\ is_weight (cop_y c)) /\
    (fle F32.zero (cop_x c) = true /\ fle F32.zero (cop_y c) = true) /\
    (0 <= F2R (cop_x c) <= 7 + / 65536)%R /\
    (0 <= F2R (cop_y c) <= 22 + / 32768)%R /\
    (- / 4096 <= 22 * F2R (cop_x c) - 7 / 2 * F2R (cop_y c))%R /\
    (- / 4096 <= 22 * (7 - F2R (cop_x c)) - 7 / 2 * F2R (cop_y c))%R).
Proof.
  apply (ensures_weaken _ _ _ (loop_pass r g)).
  intros [[g' c] row] H Hrest.
  pose proof (pass_cop _ _ _ _ _ H) as Hcop; rewrite Hrest in Hcop.
  destruct Hcop as (Hx & Hy & _).
  pose proof (pass_isArmRested _ _ _ _ _ H) as Hgt; rewrite Hrest in Hgt; symmetry in Hgt.
  assert (Wl : is_weight (F_left c) /\ (F2R (F_left c) <= 128)%R).
  { rewrite (pass_F_left _ _ _ _ _ H), (pass_filtered_left _ _ _ _ _ H).
    apply force_weight; [ apply ema_is_float | auto ]. }
  assert (Wr : is_weight (F_right c) /\ (F2R (F_right c) <= 128)%R).
  { rewrite (pass_F_right _ _ _ _ _ H), (pass_filtered_right _ _ _ _ _ H).
    apply force_weight; [ apply ema_is_float | auto ]. }
  assert (Wv : is_weight (F_vtc c) /\ (F2R (F_vtc c) <= 128)%R).
  { rewrite (pass_F_vtc _ _ _ _ _ H), (pass_filtered_vtc _ _ _ _ _ H).
    apply force_weight; [ apply ema_is_float | auto ]. }
  destruct Wl as (Wl & Bl), Wr as (Wr & Br), Wv as (Wv & Bv).
  rewrite (pass_F_tot _ _ _ _ _ H) in Hgt, Hx, Hy.
  pose proof (centroid_bounds _ _ _ Wl Wr Wv Bl Br Bv Hgt) as HB.
  cbv zeta in HB. rewrite <- Hx, <- Hy, <- (pass_F_tot _ _ _ _ _ H) in HB.
  destruct HB as (Wt & Bt & Wx & Wy & Bx & By & EL & ER).
  pose proof (F2R_nonneg _ (proj1 (proj2 Wx))) as Px.
  pose proof (F2R_nonneg _ (proj1 (proj2 Wy))) as Py.
  refine (conj (conj Wl (conj Wr Wv)) (conj (conj Wt Bt) (conj (conj Wx Wy)
            (conj (conj _ _) (conj (conj Px Bx) (conj (conj Py By) (conj EL ER))))))).
  - apply fle_zero_iff; right; exact (proj1 (proj2 Wx)).
  - apply fle_zero_iff; right; exact (proj1 (proj2 Wy)).
Qed.

Lemma cop_near_triangle_witness :
  ensures calibrated_pass (fun '(_, c, _) =>
    isArmRested c = true /\
    (0 <= F2R (cop_x c) <= 7 + / 65536)%R /\
    (0 <= F2R (cop_y c) <= 22 + / 32768)%R).
Proof.
  pose proof (cop_near_triangle (readingsAt 3000 3000 3000 0) loadedInFront) as H.
  change (loop _ _) with calibrated_pass in H.
  unfold calibrated_pass, ensures in *.
  destruct (H eq_refl) as (_ & _ & _ & _ & Hx & Hy & _).
  exact (conj eq_refl (conj Hx Hy)).
Defined.

(** C10, as stated, fails from power-on: after the auto-zeroing at 1500
    counts, the fourth pass with the right sensor at 3000 counts is rested
    and its [cop_x] is above 7, the abscissa of the right sensor. *)
Lemma cop_in_triangle_counterexample :
  run pressRight (setup (fun _ => (1500, 1500, 1500))) = pressRight_run /\
  ensures pressRight_run (fun '(_, cs, _) =>
    exists c, nth_error cs 3 = Some c /\
      isArmRested c = true /\
      cop_x c = S754_finite false 14680065 (-21) /\
      fst P_RIGHT_XY = S754_finite false 14680064 (-21) /\
      flt (fst P_RIGHT_XY) (cop_x c) = true /\
      fle (cop_x c) (fst P_RIGHT_XY) = false).
Proof.
  split; [ vm_compute; reflexivity | ].
  unfold pressRight_run, ensures.
  eexists; split; [ reflexivity | ].
  repeat split.
Qed.

(** ** The arithmetic of [double], on the reals *)

Lemma eps64 : eps F64.prec = (/ 4503599627370496)%R.
Proof.
  unfold eps, F64.prec. change (1 - 53) with (Z.opp 52).
  rewrite bpow_neg, (bpow_IZR 52) by lia. reflexivity.
Qed.

Lemma eta64 : (0 < eta F64.prec F64.emax <= / 18446744073709551616)%R.
Proof.
  unfold eta, emin, F64.prec, F64.emax. change (3 - 1024 - 53) with (Z.opp 1074).
  split; [ apply bpow_pos | ].
  apply Rle_trans with (bpow (Z.opp 64)); [ apply bpow_le; lia | ].
  rewrite bpow_neg, (bpow_IZR 64) by lia. apply Rle_refl.
Qed.

Lemma bpow_emax64 : (340282366920938463463374607431768211456 <= bpow F64.emax)%R.
Proof.
  rewrite <- bpow_emax32. apply bpow_le. unfold F32.emax, F64.emax; lia.
Qed.

Lemma rounds_weight64 n x r :
  (0 <= n)%R ->
  rounds F64.prec F64.emax n false x r ->
  (x < 2 ^ 127)%R ->
  is_weight64 r /\ close64 n (F2R r) x.
Proof.
  intros Hn (Hs & Hv & Hf & Hi) Hx.
  pose proof eta64 as (Eta0 & Eta). pose proof eps64 as Eps.
  destruct (is_finite r) eqn:Fr.
  - destruct (Hf eq_refl) as ((Hlo & Hhi) & _).
    rewrite (F2R_abs_nonneg r Hs), Eps in Hlo, Hhi.
    pose proof (F2R_nonneg r Hs).
    split; [ repeat split; assumption | ].
    unfold close64; split; nra.
  - specialize (Hi eq_refl). rewrite Eps in Hi. pose proof bpow_emax64. exfalso. lra.
Qed.

Lemma close64_refl n v : (0 <= n)%R -> (0 <= v)%R -> close64 n v v.
Proof. intros Hn Hv; unfold close64; split; nra. Qed.

Lemma weight64_cases x :
  is_weight64 x ->
  x = S754_zero false \/
  exists m e, x = S754_finite false m e /\ bounded F64.prec F64.emax m e = true.
Proof.
  intros (Hv & Hs & Hf).
  destruct x as [s | s | | s m e]; simpl in *; subst; try discriminate; eauto.
Qed.

Lemma zero_weight64 : is_weight64 (S754_zero false).
Proof. repeat split. Qed.

Lemma mul_weight64 x y :
  is_weight64 x -> is_weight64 y -> (F2R x * F2R y < 2 ^ 127)%R ->
  is_weight64 (F64.mul x y) /\ close64 1 (F2R (F64.mul x y)) (F2R x * F2R y).
Proof.
  intros Hx Hy Hxy.
  destruct (weight64_cases x Hx) as [-> | (mx & ex & -> & Bx)];
    destruct (weight64_cases y Hy) as [-> | (my & ey & -> & By)];
    try (simpl F64.mul; simpl F2R; rewrite ?Rmult_0_l, ?Rmult_0_r;
         split; [ apply zero_weight64 | apply close64_refl; lra ]).
  apply rounds_weight64; [ lra | | exact Hxy ].
  rewrite !F2R_finite_false.
  apply (SFmul_rounds F64.prec F64.emax ltac:(reflexivity) ltac:(reflexivity)
           false mx ex false my ey Bx By).
Qed.

Lemma add_weight64 x y :
  is_weight64 x -> is_weight64 y -> (F2R x + F2R y < 2 ^ 127)%R ->
  is_weight64 (F64.add x y) /\ close64 1 (F2R (F64.add x y)) (F2R x + F2R y).
Proof.
  intros Hx Hy Hxy.
  pose proof (F2R_nonneg x (proj1 (proj2 Hx))) as Px.
  pose proof (F2R_nonneg y (proj1 (proj2 Hy))) as Py.
  destruct (weight64_cases x Hx) as [-> | (mx & ex & -> & Bx)];
    destruct (weight64_cases y Hy) as [-> | (my & ey & -> & By)].
  - simpl. split; [ apply zero_weight64 | rewrite Rplus_0_l; apply close64_refl; lra ].
  - simpl F64.add. replace (F2R (S754_zero false)) with 0%R by reflexivity.
    rewrite Rplus_0_l. split; [ exact Hy | apply close64_refl; lra ].
  - simpl F64.add. replace (F2R (S754_zero false)) with 0%R by reflexivity.
    rewrite Rplus_0_r. split; [ exact Hx | apply close64_refl; lra ].
  - apply rounds_weight64; [ lra | | exact Hxy ].
    apply (SFadd_rounds F64.prec F64.emax ltac:(reflexivity) ltac:(reflexivity)
             false mx ex false my ey).
    pose proof (F2R_finite_pos mx ex). pose proof (F2R_finite_pos my ey). lra.
Qed.

(** The promotion of a [float] to [double]. *)
Lemma promote_weight x :
  is_weight x -> (F2R x < 2 ^ 127)%R ->
  is_weight64 (F64.round x) /\ close64 1 (F2R (F64.round x)) (F2R x).
Proof.
  intros Hx Hb.
  destruct (weight_cases x Hx) as [-> | (m & e & -> & B)].
  - split; [ apply zero_weight64 | apply close64_refl; simpl; lra ].
  - simpl F64.round. apply rounds_weight64; [ lra | | exact Hb ].
    rewrite F2R_finite_false.
    apply (binary_round_rounds F64.prec F64.emax ltac:(reflexivity) ltac:(reflexivity)).
Qed.

(** The conversion of a [double] to [float]. *)
Lemma narrow_weight x :
  is_weight64 x -> (F2R x < 2 ^ 127)%R ->
  is_weight (F32.round x) /\ close 1 (F2R (F32.round x)) (F2R x).
Proof.
  intros Hx Hb.
  destruct (weight64_cases x Hx) as [-> | (m & e & -> & B)].
  - split; [ apply zero_weight | apply close_refl; simpl; lra ].
  - simpl F32.round. apply rounds_close; [ lra | | exact Hb ].
    rewrite F2R_finite_false.
    apply (binary_round_rounds F32.prec F32.emax ltac:(reflexivity) ltac:(reflexivity)).
Qed.

(** The conversion of a count to [double]. *)
Lemma of_int_weight64 n :
  0 <= n < 2 ^ 64 ->
  is_weight64 (F64.of_int n) /\ close64 1 (F2R (F64.of_int n)) (IZR n).
Proof.
  intros Hn. unfold F64.of_int, binary_normalize.
  destruct n as [ | p | p]; [ | | lia ].
  - split; [ apply zero_weight64 | apply close64_refl; simpl; lra ].
  - apply rounds_weight64; [ lra | | ].
    + replace (IZR (Zpos p)) with (IZR (Zpos p) * bpow 0)%R by (simpl; lra).
      apply (binary_round_rounds F64.prec F64.emax ltac:(reflexivity) ltac:(reflexivity)).
    + apply Rlt_trans with (IZR (2 ^ 64)); [ apply IZR_lt; lia | ].
      change (IZR (2 ^ 64)) with 18446744073709551616%R. lra.
Qed.

(** ** The conversion and the filter, on the reals *)

Lemma Rabs_bounds (x b : R) : (Rabs x <= b)%R -> (- b <= x <= b)%R.
Proof. unfold Rabs; destruct (Rcase_abs x); lra. Qed.

Lemma ADC_VOLTS_PER_COUNT_value :
  ADC_VOLTS_PER_COUNT = S754_finite false 7432754022373812 (-63).
Proof. vm_compute; reflexivity. Qed.

Lemma EMA_BETA_value : EMA_BETA = S754_finite false 7656119312842752 (-53).
Proof. vm_compute; reflexivity. Qed.

Lemma F2R_EMA_ALPHA : F2R EMA_ALPHA = (10066330 / 67108864)%R.
Proof.
  unfold EMA_ALPHA. change (-26) with (Z.opp 26).
  rewrite (F2R_scaled _ 26) by lia. change (IZR (2 ^ 26)) with 67108864%R. reflexivity.
Qed.

Lemma F2R_EMA_BETA : F2R EMA_BETA = (1 - F2R EMA_ALPHA)%R.
Proof.
  rewrite F2R_EMA_ALPHA, EMA_BETA_value. change (-53) with (Z.opp 53).
  rewrite (F2R_scaled _ 53) by lia. change (IZR (2 ^ 53)) with 9007199254740992%R. lra.
Qed.

Lemma F2R_ADC_VOLTS_PER_COUNT :
  F2R ADC_VOLTS_PER_COUNT = (7432754022373812 / 9223372036854775808)%R.
Proof.
  rewrite ADC_VOLTS_PER_COUNT_value. change (-63) with (Z.opp 63).
  rewrite (F2R_scaled _ 63) by lia. reflexivity.
Qed.

(** The voltage of a count: [count * 3.3 / 4095] within two roundings. *)
Lemma adc_value count :
  0 <= count <= 65535 ->
  is_weight (adcVoltage count) /\
  close 2 (F2R (adcVoltage count)) (IZR count * (33 / 40950)).
Proof.
  intros Hc.
  destruct (Z.eq_dec count 0) as [-> | Hnz];
    [ split; [ apply zero_weight | simpl F2R; rewrite Rmult_0_l; apply close_refl; lra ] | ].
  unfold adcVoltage.
  destruct (of_int_weight64 count ltac:(lia)) as (Wn & Cn).
  assert (Wk : is_weight64 ADC_VOLTS_PER_COUNT)
    by (rewrite ADC_VOLTS_PER_COUNT_value; repeat split).
  assert (Hlo : (1 <= IZR count)%R) by (apply IZR_le; lia).
  assert (Hhi : (IZR count <= 65535)%R) by (apply IZR_le; lia).
  pose proof (F2R_nonneg _ (proj1 (proj2 Wn))) as Pn.
  unfold close64 in Cn.
  assert (Bn : (F2R (F64.of_int count) <= 65536)%R) by lra.
  pose proof F2R_ADC_VOLTS_PER_COUNT as Ek.
  destruct (mul_weight64 _ _ Wn Wk ltac:(rewrite Ek; lra)) as (Wp & Cp).
  rewrite Ek in Cp. unfold close64 in Cp.
  pose proof (F2R_nonneg _ (proj1 (proj2 Wp))) as Pp.
  destruct (narrow_weight _ Wp ltac:(lra)) as (Wv & Cv).
  pose proof (F2R_nonneg _ (proj1 (proj2 Wv))) as Pv.
  split; [ exact Wv | ].
  unfold close in *. lra.
Qed.

(** One step of the filter: [alpha * sample + (1 - alpha) * filtered] within
    relative error [2^-21]. *)
Lemma ema_step v_raw filtered :
  is_weight v_raw -> is_weight filtered ->
  (F2R v_raw <= 64)%R -> (F2R filtered <= 64)%R ->
  is_weight (ema v_raw filtered) /\
  (Rabs (F2R (ema v_raw filtered)
         - (F2R EMA_ALPHA * F2R v_raw + (1 - F2R EMA_ALPHA) * F2R filtered))
   <= (F2R EMA_ALPHA * F2R v_raw + (1 - F2R EMA_ALPHA) * F2R filtered) / 2097152
      + / 1152921504606846976)%R.
Proof.
  intros Wx Wy Bx By. unfold ema.
  pose proof (F2R_nonneg _ (proj1 (proj2 Wx))) as Px.
  pose proof (F2R_nonneg _ (proj1 (proj2 Wy))) as Py.
  assert (Wa : is_weight EMA_ALPHA) by (repeat split).
  assert (Wb : is_weight64 EMA_BETA) by (rewrite EMA_BETA_value; repeat split).
  pose proof F2R_EMA_BETA as Eb. pose proof F2R_EMA_ALPHA as Ea.
  destruct (mul_weight _ _ Wa Wx ltac:(rewrite Ea; lra)) as (Wp & Cp).
  pose proof (F2R_nonneg _ (proj1 (proj2 Wp))) as Pp.
  rewrite Ea in Cp. unfold close in Cp.
  destruct (promote_weight _ Wp ltac:(lra)) as (Wp' & Cp').
  pose proof (F2R_nonneg _ (proj1 (proj2 Wp'))) as Pp'. unfold close64 in Cp'.
  destruct (promote_weight _ Wy ltac:(lra)) as (Wy' & Cy').
  pose proof (F2R_nonneg _ (proj1 (proj2 Wy'))) as Py'. unfold close64 in Cy'.
  destruct (mul_weight64 _ _ Wb Wy' ltac:(rewrite Eb, Ea; lra)) as (Wq & Cq).
  pose proof (F2R_nonneg _ (proj1 (proj2 Wq))) as Pq.
  rewrite Eb, Ea in Cq. unfold close64 in Cq.
  destruct (add_weight64 _ _ Wp' Wq ltac:(lra)) as (Ws & Cs).
  pose proof (F2R_nonneg _ (proj1 (proj2 Ws))) as Ps. unfold close64 in Cs.
  destruct (narrow_weight _ Ws ltac:(lra)) as (Wr & Cr).
  pose proof (F2R_nonneg _ (proj1 (proj2 Wr))) as Pr. unfold close in Cr.
  split; [ exact Wr | ].
  rewrite Ea. apply Rabs_le. lra.
Qed.

(** The filters of a run: each one is the filter of its own channel over the
    counts of that channel. *)
Lemma run_filtered rs : forall g,
  ensures (run rs g) (fun '(g', _, _) =>
    filtered_v_left g' = filterOver (map adc_left rs) (filtered_v_left g) /\
    filtered_v_right g' = filterOver (map adc_right rs) (filtered_v_right g) /\
    filtered_v_vtc g' = filterOver (map adc_vtc rs) (filtered_v_vtc g)).
Proof.
  induction rs as [ | r rs IH]; intros g; [ simpl; auto | ].
  apply run_cons, (ensures_weaken _ _ _ (loop_pass r g)).
  intros [[g1 c] row] H.
  apply (ensures_weaken _ _ _ (IH g1)).
  intros [[g2 cs] rows] (Hl & Hr & Hv).
  rewrite Hl, Hr, Hv.
  rewrite (pass_filtered_left _ _ _ _ _ H), (pass_filtered_right _ _ _ _ _ H),
          (pass_filtered_vtc _ _ _ _ _ H).
  repeat split; reflexivity.
Qed.

Lemma adc_range count :
  in12bits count ->
  is_weight (adcVoltage count) /\ (F2R (adcVoltage count) <= 330001 / 100000)%R.
Proof.
  intros Hc. unfold in12bits in Hc.
  destruct (adc_value count ltac:(lia)) as (W & C).
  split; [ exact W | ].
  assert (Hhi : (IZR count <= 4095)%R) by (apply IZR_le; lia).
  assert (Hlo : (0 <= IZR count)%R) by (apply IZR_le; lia).
  pose proof (F2R_nonneg _ (proj1 (proj2 W))).
  unfold close in C. lra.
Qed.

Lemma ema_range count filtered :
  in12bits count -> inRange filtered -> inRange (ema (adcVoltage count) filtered).
Proof.
  intros Hc (Wy & By).
  destruct (adc_range count Hc) as (Wx & Bx).
  pose proof (F2R_nonneg _ (proj1 (proj2 Wx))) as Px.
  pose proof (F2R_nonneg _ (proj1 (proj2 Wy))) as Py.
  destruct (ema_step _ _ Wx Wy ltac:(lra) ltac:(lra)) as (Wr & Cr).
  split; [ exact Wr | ].
  rewrite F2R_EMA_ALPHA in Cr.
  apply Rabs_bounds in Cr. lra.
Qed.

Lemma filterOver_range counts : forall filtered,
  Forall in12bits counts -> inRange filtered -> inRange (filterOver counts filtered).
Proof.
  induction counts as [ | n counts IH]; intros y Hc Hy; [ exact Hy | ].
  apply Forall_cons_iff in Hc. destruct Hc as (Hn & Hc).
  simpl. apply IH; [ exact Hc | apply ema_range; assumption ].
Qed.

Lemma filterOver_snoc counts n filtered :
  filterOver (counts ++ [n]) filtered = ema (adcVoltage n) (filterOver counts filtered).
Proof. unfold filterOver; rewrite fold_left_app; reflexivity. Qed.

(** One step towards a constant sample. *)
Lemma ema_towards count filtered (T : R) :
  in12bits count -> inRange filtered ->
  (Rabs (F2R filtered - F2R (adcVoltage count)) <= T)%R ->
  (Rabs (F2R (ema (adcVoltage count) filtered) - F2R (adcVoltage count))
   <= 17 / 20 * T + / 500000)%R.
Proof.
  intros Hc (Wy & By) HT.
  destruct (adc_range count Hc) as (Wx & Bx).
  pose proof (F2R_nonneg _ (proj1 (proj2 Wx))) as Px.
  pose proof (F2R_nonneg _ (proj1 (proj2 Wy))) as Py.
  destruct (ema_step _ _ Wx Wy ltac:(lra) ltac:(lra)) as (Wr & Cr).
  rewrite F2R_EMA_ALPHA in Cr.
  apply Rabs_bounds in Cr. apply Rabs_bounds in HT.
  apply Rabs_le. lra.
Qed.

Lemma filterOver_converges count k : forall filtered,
  in12bits count -> inRange filtered ->
  (Rabs (F2R (filterOver (repeat count k) filtered) - F2R (adcVoltage count))
   <= (17 / 20) ^ k * Rabs (F2R filtered - F2R (adcVoltage count)) + / 65536)%R.
Proof.
  intros y Hc Hy.
  induction k as [ | k IH].
  - simpl. lra.
  - replace (repeat count (S k)) with (repeat count k ++ [count])
      by (symmetry; apply (repeat_cons k count)).
    rewrite filterOver_snoc.
    assert (Hr : inRange (filterOver (repeat count k) y)).
    { apply filterOver_range; [ | exact Hy ].
      apply Forall_forall; intros n Hn; apply repeat_spec in Hn; subst; exact Hc. }
    pose proof (ema_towards _ _ _ Hc Hr IH) as Hstep.
    simpl pow.
    assert (0 <= (17 / 20) ^ k)%R by (apply pow_le; lra).
    pose proof (Rabs_pos (F2R y - F2R (adcVoltage count))).
    nra.
Qed.

Lemma constant_counts {A : Type} (f : A -> Z) count (l : list A) :
  Forall (fun a => f a = count) l -> map f l = repeat count (length l).
Proof.
  induction l as [ | a l IH]; intros H; [ reflexivity | ].
  apply Forall_cons_iff in H. destruct H as (Ha & Hl).
  simpl. rewrite Ha, IH by exact Hl. reflexivity.
Qed.

(** X1.  While the counts of the three channels are those of a 12-bit
    converter, filtered voltages that are finite and between 0 and 3.31
    stay so over any run. *)
Theorem filter_stays_in_range (rs : list Readings) (g : Sketch) :
  Forall (fun r => in12bits (adc_left r) /\ in12bits (adc_right r) /\ in12bits (adc_vtc r)) rs ->
  inRange (filtered_v_left g) -> inRange (filtered_v_right g) -> inRange (filtered_v_vtc g) ->
  ensures (run rs g) (fun '(g', _, _) =>
    inRange (filtered_v_left g') /\ inRange (filtered_v_right g') /\
    inRange (filtered_v_vtc g')).
Proof.
  intros Hrs Hl Hr Hv.
  apply (ensures_weaken _ _ _ (run_filtered rs g)).
  intros [[g' cs] rows] (El & Er & Ev).
  rewrite El, Er, Ev.
  repeat split; apply filterOver_range; try assumption;
    apply Forall_map; refine (Forall_impl _ _ Hrs); intros r (H1 & H2 & H3); assumption.
Qed.

Lemma filter_stays_in_range_witness :
  ensures (run (repeat (readingsAt 3000 3000 3200 0) 14) restedAt1500)
    (fun '(g', _, _) => inRange (filtered_v_left g')).
Proof.
  assert (H0 : inRange (adcVoltage 1500)).
  { destruct (adc_range 1500 ltac:(unfold in12bits; lia)) as (W & B). split; [ exact W | lra ]. }
  pose proof (filter_stays_in_range (repeat (readingsAt 3000 3000 3200 0) 14) restedAt1500) as H.
  refine (ensures_weaken _ _ _ (H _ H0 H0 H0) _).
  - apply Forall_forall; intros r Hr; apply repeat_spec in Hr; subst r.
    unfold in12bits; simpl; lia.
  - intros [[g' cs] rows] (Hl & _); exact Hl.
Defined.

(** X2.  The step response of the filter: while a channel reads the constant
    count [count] of a 12-bit converter, the distance of its filtered
    voltage to the voltage of [count] shrinks at least by the factor 0.85 on
    every pass, down to [2^-16]. *)
Theorem filter_step_response (rs : list Readings) (g : Sketch) (count : Z) :
  in12bits count ->
  ensures (run rs g) (fun '(g', _, _) =>
    (inRange (filtered_v_left g) -> Forall (fun r => adc_left r = count) rs ->
     (Rabs (F2R (filtered_v_left g') - F2R (adcVoltage count))
      <= (17 / 20) ^ length rs * Rabs (F2R (filtered_v_left g) - F2R (adcVoltage count))
         + / 65536)%R) /\
    (inRange (filtered_v_right g) -> Forall (fun r => adc_right r = count) rs ->
     (Rabs (F2R (filtered_v_right g') - F2R (adcVoltage count))
      <= (17 / 20) ^ length rs * Rabs (F2R (filtered_v_right g) - F2R (adcVoltage count))
         + / 65536)%R) /\
    (inRange (filtered_v_vtc g) -> Forall (fun r => adc_vtc r = count) rs ->
     (Rabs (F2R (filtered_v_vtc g') - F2R (adcVoltage count))
      <= (17 / 20) ^ length rs * Rabs (F2R (filtered_v_vtc g) - F2R (adcVoltage count))
         + / 65536)%R)).
Proof.
  intros Hc.
  apply (ensures_weaken _ _ _ (run_filtered rs g)).
  intros [[g' cs] rows] (El & Er & Ev).
  rewrite El, Er, Ev.
  repeat split; intros Hy Hrs; rewrite (constant_counts _ _ _ Hrs);
    apply filterOver_converges; assumption.
Qed.

Lemma filter_step_response_witness :
  ensures (run (repeat (readingsAt 3000 3000 3200 0) 14) restedAt1500)
    (fun '(g', _, _) =>
       (Rabs (F2R (filtered_v_left g') - F2R (adcVoltage 3000))
        <= (17 / 20) ^ 14 * Rabs (F2R (adcVoltage 1500) - F2R (adcVoltage 3000))
           + / 65536)%R).
Proof.
  assert (H0 : inRange (adcVoltage 1500)).
  { destruct (adc_range 1500 ltac:(unfold in12bits; lia)) as (W & B). split; [ exact W | lra ]. }
  pose proof (filter_step_response (repeat (readingsAt 3000 3000 3200 0) 14) restedAt1500
                3000 ltac:(unfold in12bits; lia)) as H.
  refine (ensures_weaken _ _ _ H _).
  intros [[g' cs] rows] (Hl & _).
  apply (Hl H0).
  apply Forall_forall; intros r Hr; apply repeat_spec in Hr; subst r. reflexivity.
Defined.

Lemma ema_update count old :
  in16bits count -> filterable old -> filterUpdate count old (ema (adcVoltage count) old).
Proof.
  intros Hc (Wy & By). unfold in16bits in Hc.
  destruct (adc_value count Hc) as (Wx & Cx).
  assert (Hhi : (IZR count <= 65535)%R) by (apply IZR_le; lia).
  assert (Hlo : (0 <= IZR count)%R) by (apply IZR_le; lia).
  pose proof (F2R_nonneg _ (proj1 (proj2 Wx))) as Px.
  unfold close in Cx.
  apply ema_step; try assumption. lra.
Qed.

(** X3.  On every pass each filtered voltage differs from
    [u = alpha * sample + (1 - alpha) * filtered] by at most
    [u * 2^-21 + 2^-60], where [alpha] is [0.15f], within [10^-8] of 0.15;
    this for every count of [analogRead] and every finite filtered voltage
    between 0 and 64.  The term [2^-60] is absolute: next to the smallest
    floats the error is not small against [u]. *)
Theorem filter_update (r : Readings) (g : Sketch) :
  (Rabs (F2R EMA_ALPHA - 15 / 100) <= / 100000000)%R /\
  ensures (loop r g) (fun '(g', _, _) =>
    (in16bits (adc_left r) -> filterable (filtered_v_left g) ->
     filterUpdate (adc_left r) (filtered_v_left g) (filtered_v_left g')) /\
    (in16bits (adc_right r) -> filterable (filtered_v_right g) ->
     filterUpdate (adc_right r) (filtered_v_right g) (filtered_v_right g')) /\
    (in16bits (adc_vtc r) -> filterable (filtered_v_vtc g) ->
     filterUpdate (adc_vtc r) (filtered_v_vtc g) (filtered_v_vtc g'))).
Proof.
  split; [ rewrite F2R_EMA_ALPHA; apply Rabs_le; lra | ].
  apply (ensures_weaken _ _ _ (loop_pass r g)).
  intros [[g' c] row] H.
  rewrite (pass_filtered_left _ _ _ _ _ H), (pass_filtered_right _ _ _ _ _ H),
          (pass_filtered_vtc _ _ _ _ _ H).
  refine (conj _ (conj _ _)); intros Hc Hy; apply ema_update; assumption.
Qed.

Lemma filter_update_witness :
  ensures (loop (readingsAt 3000 3000 3000 0) loadedInFront) (fun '(g', _, _) =>
    filterUpdate 3000 (adcVoltage 1500) (filtered_v_vtc g')).
Proof.
  destruct (filter_update (readingsAt 3000 3000 3000 0) loadedInFront) as (_ & H).
  refine (ensures_weaken _ _ _ H _).
  intros [[g' c] row] (_ & _ & Hv).
  apply Hv.
  - unfold in16bits; simpl; lia.
  - destruct (adc_range 1500 ltac:(unfold in12bits; lia)) as (W & B).
    split; [ exact W | simpl filtered_v_vtc; lra ].
Defined.

(** X4.  The conversion [analogRead(pin) * (3.3 / 4095.0)] stored in a
    [float]: for every count of [analogRead] the voltage is a finite
    non-negative number within the relative error [2^-21] of
    [count * 3.3 / 4095]; it is [0.0f] for the count 0. *)
Theorem conversion_value (count : Z) :
  in16bits count ->
  is_weight (adcVoltage count) /\
  (Rabs (F2R (adcVoltage count) - IZR count * (33 / 10) / 4095)
   <= IZR count * (33 / 10) / 4095 / 2097152)%R /\
  adcVoltage 0 = F32.zero.
Proof.
  intros Hc. unfold in16bits in Hc.
  destruct (adc_value count Hc) as (W & C).
  refine (conj W (conj _ eq_refl)).
  pose proof (F2R_nonneg _ (proj1 (proj2 W))) as P.
  destruct (Z.eq_dec count 0) as [-> | Hnz].
  - simpl F2R. rewrite !Rmult_0_l. unfold Rdiv. rewrite !Rmult_0_l, Rminus_0_r, Rabs_R0. lra.
  - assert (Hlo : (1 <= IZR count)%R) by (apply IZR_le; lia).
    assert (Hhi : (IZR count <= 65535)%R) by (apply IZR_le; lia).
    unfold close in C. apply Rabs_le. lra.
Qed.

Lemma conversion_value_witness :
  is_weight (adcVoltage 4095) /\
  (Rabs (F2R (adcVoltage 4095) - 33 / 10) <= 33 / 10 / 2097152)%R.
Proof.
  destruct (conversion_value 4095 ltac:(unfold in16bits; lia)) as (W & B & _).
  split; [ exact W | ].
  replace (33 / 10)%R with (IZR 4095 * (33 / 10) / 4095)%R by (simpl; lra).
  exact B.
Defined.

(** ** The auto-zeroing *)

Lemma setup_sums sample k :
  fold_left
    (fun (s : float * float * float) (i : nat) =>
       let '(sum_v_left, sum_v_right, sum_v_vtc) := s in
       let '(l, r, v) := sample i in
       (accumulate sum_v_left l, accumulate sum_v_right r, accumulate sum_v_vtc v))
    (seq 0 k) (F32.zero, F32.zero, F32.zero)
  = (accumulated (leftOf sample) k, accumulated (rightOf sample) k,
     accumulated (vtcOf sample) k).
Proof.
  induction k as [ | k IH]; [ reflexivity | ].
  rewrite seq_S, fold_left_app, IH. simpl.
  unfold leftOf, rightOf, vtcOf.
  destruct (sample k) as [[l r] v]; reflexivity.
Qed.

Lemma setup_unfolded sample :
  let n := F32.of_int (Z.of_nat ZEROING_SAMPLES) in
  let l := F32.div (accumulated (leftOf sample) ZEROING_SAMPLES) n in
  let r := F32.div (accumulated (rightOf sample) ZEROING_SAMPLES) n in
  let v := F32.div (accumulated (vtcOf sample) ZEROING_SAMPLES) n in
  setup sample = mkSketch 0 l r v l r v false.
Proof.
  unfold setup. rewrite setup_sums. reflexivity.
Qed.

Lemma total_bounds counts k :
  (forall i, (i < k)%nat -> in12bits (counts i)) ->
  0 <= total counts k <= 4095 * Z.of_nat k.
Proof.
  induction k as [ | k IH]; intros H; [ simpl; lia | ].
  specialize (IH (fun i Hi => H i (Nat.lt_lt_succ_r _ _ Hi))).
  pose proof (H k (Nat.lt_succ_diag_r k)) as Hk. unfold in12bits in Hk.
  change (total counts (S k)) with (total counts k + counts k). lia.
Qed.

(** One step of the accumulation. *)
Lemma accumulate_step sum count :
  is_weight sum -> (F2R sum <= 662)%R -> in12bits count ->
  is_weight (accumulate sum count) /\
  (Rabs (F2R (accumulate sum count) - (F2R sum + IZR count * (33 / 40950)))
   <= 8 / 100000)%R.
Proof.
  intros Ws Bs Hc. unfold in12bits in Hc. unfold accumulate.
  pose proof (F2R_nonneg _ (proj1 (proj2 Ws))) as Ps.
  assert (Hlo : (0 <= IZR count)%R) by (apply IZR_le; lia).
  assert (Hhi : (IZR count <= 4095)%R) by (apply IZR_le; lia).
  destruct (promote_weight _ Ws ltac:(lra)) as (Ws' & Cs').
  pose proof (F2R_nonneg _ (proj1 (proj2 Ws'))) as Ps'. unfold close64 in Cs'.
  destruct (of_int_weight64 count ltac:(lia)) as (Wn & Cn).
  pose proof (F2R_nonneg _ (proj1 (proj2 Wn))) as Pn. unfold close64 in Cn.
  assert (Wk : is_weight64 ADC_VOLTS_PER_COUNT)
    by (rewrite ADC_VOLTS_PER_COUNT_value; repeat split).
  pose proof F2R_ADC_VOLTS_PER_COUNT as Ek.
  destruct (mul_weight64 _ _ Wn Wk ltac:(rewrite Ek; lra)) as (Wp & Cp).
  rewrite Ek in Cp. unfold close64 in Cp.
  pose proof (F2R_nonneg _ (proj1 (proj2 Wp))) as Pp.
  destruct (add_weight64 _ _ Ws' Wp ltac:(lra)) as (Wa & Ca).
  pose proof (F2R_nonneg _ (proj1 (proj2 Wa))) as Pa. unfold close64 in Ca.
  destruct (narrow_weight _ Wa ltac:(lra)) as (Wr & Cr).
  pose proof (F2R_nonneg _ (proj1 (proj2 Wr))) as Pr. unfold close in Cr.
  split; [ exact Wr | ].
  apply Rabs_le. lra.
Qed.

(** The accumulated sum, after [k <= 200] samples. *)
Lemma accumulated_value counts k :
  (k <= 200)%nat ->
  (forall i, (i < k)%nat -> in12bits (counts i)) ->
  is_weight (accumulated counts k) /\
  (Rabs (F2R (accumulated counts k) - IZR (total counts k) * (33 / 40950))
   <= INR k * (8 / 100000))%R.
Proof.
  induction k as [ | k IH]; intros Hk H.
  - simpl. split; [ apply zero_weight | ].
    rewrite Rmult_0_l, Rminus_0_r, Rabs_R0. lra.
  - destruct (IH ltac:(lia) (fun i Hi => H i (Nat.lt_lt_succ_r _ _ Hi))) as (W & B).
    pose proof (total_bounds counts k (fun i Hi => H i (Nat.lt_lt_succ_r _ _ Hi))) as Ht.
    pose proof (H k (Nat.lt_succ_diag_r k)) as Hc.
    assert (Hk' : (INR k <= 199)%R).
    { replace 199%R with (INR 199) by (simpl; lra). apply le_INR; lia. }
    assert (Htot : (0 <= IZR (total counts k) <= 4095 * INR k)%R).
    { rewrite INR_IZR_INZ, <- mult_IZR. split; apply IZR_le; lia. }
    pose proof (pos_INR k) as Pk.
    apply Rabs_bounds in B.
    assert (Bs : (F2R (accumulated counts k) <= 662)%R) by lra.
    change (accumulated counts (S k)) with (accumulate (accumulated counts k) (counts k)).
    destruct (accumulate_step _ _ W Bs Hc) as (W' & B').
    apply Rabs_bounds in B'.
    split; [ exact W' | ].
    change (total counts (S k)) with (total counts k + counts k).
    rewrite plus_IZR, S_INR. apply Rabs_le. lra.
Qed.

Lemma F2R_200 : F2R (F32.of_int (Z.of_nat ZEROING_SAMPLES)) = 200%R.
Proof.
  change (F32.of_int (Z.of_nat ZEROING_SAMPLES)) with (S754_finite false 13107200 (- (16))).
  rewrite (F2R_scaled _ 16) by lia. change (IZR (2 ^ 16)) with 65536%R. lra.
Qed.

Lemma baseline_value counts :
  (forall i, (i < ZEROING_SAMPLES)%nat -> in12bits (counts i)) ->
  baselineOf counts
    (F32.div (accumulated counts ZEROING_SAMPLES) (F32.of_int (Z.of_nat ZEROING_SAMPLES))) /\
  inRange
    (F32.div (accumulated counts ZEROING_SAMPLES) (F32.of_int (Z.of_nat ZEROING_SAMPLES))).
Proof.
  intros H.
  destruct (accumulated_value counts ZEROING_SAMPLES (Nat.le_refl _) H) as (W & B).
  pose proof (total_bounds counts ZEROING_SAMPLES H) as Ht.
  assert (Htot : (0 <= IZR (total counts ZEROING_SAMPLES) <= 819000)%R)
    by (split; apply IZR_le; unfold ZEROING_SAMPLES in *; lia).
  replace (INR ZEROING_SAMPLES) with 200%R in B by (unfold ZEROING_SAMPLES; simpl; lra).
  apply Rabs_bounds in B.
  pose proof (F2R_nonneg _ (proj1 (proj2 W))) as P.
  pose proof F2R_200 as E200.
  change (F32.of_int (Z.of_nat ZEROING_SAMPLES)) with (S754_finite false 13107200 (- (16)))
    in E200 |- *.
  destruct (div_weight _ 13107200 (- (16)) W ltac:(rewrite E200; lra)) as (Wd & Cd).
  rewrite E200 in Cd. unfold close in Cd.
  pose proof (F2R_nonneg _ (proj1 (proj2 Wd))) as Pd.
  unfold baselineOf, inRange, meanVoltage.
  refine (conj (conj Wd _) (conj Wd _)); [ apply Rabs_le | ]; lra.
Qed.

(** X5.  The auto-zeroing: when the 200 samples of the three channels are
    counts of a 12-bit converter, each rest baseline is a finite number
    within 0.1 mV of the mean of the 200 voltages [count * 3.3 / 4095] of
    its channel; each filter starts at its baseline, in the range of the
    converter; and [lastLogTime] is 0 and [was_in_deadzone] false. *)
Theorem setup_baselines (sample : nat -> Z * Z * Z) :
  (forall i, (i < ZEROING_SAMPLES)%nat ->
     in12bits (leftOf sample i) /\ in12bits (rightOf sample i) /\ in12bits (vtcOf sample i)) ->
  let g := setup sample in
  (baselineOf (leftOf sample) (v_rest_left g) /\
   baselineOf (rightOf sample) (v_rest_right g) /\
   baselineOf (vtcOf sample) (v_rest_vtc g)) /\
  (filtered_v_left g = v_rest_left g /\ filtered_v_right g = v_rest_right g /\
   filtered_v_vtc g = v_rest_vtc g) /\
  (inRange (filtered_v_left g) /\ inRange (filtered_v_right g) /\
   inRange (filtered_v_vtc g)) /\
  lastLogTime g = 0 /\ was_in_deadzone g = false.
Proof.
  intros H g; subst g.
  rewrite setup_unfolded; cbv zeta.
  cbn [v_rest_left v_rest_right v_rest_vtc filtered_v_left filtered_v_right
       filtered_v_vtc lastLogTime was_in_deadzone].
  destruct (baseline_value (leftOf sample) (fun i Hi => proj1 (H i Hi))) as (Bl & Rl).
  destruct (baseline_value (rightOf sample) (fun i Hi => proj1 (proj2 (H i Hi)))) as (Br & Rr).
  destruct (baseline_value (vtcOf sample) (fun i Hi => proj2 (proj2 (H i Hi)))) as (Bv & Rv).
  exact (conj (conj Bl (conj Br Bv))
          (conj (conj eq_refl (conj eq_refl eq_refl))
             (conj (conj Rl (conj Rr Rv)) (conj eq_refl eq_refl)))).
Qed.

Lemma setup_baselines_witness :
  baselineOf (leftOf (fun _ => (1500, 1500, 1500)))
             (v_rest_left (setup (fun _ => (1500, 1500, 1500)))).
Proof.
  pose proof (setup_baselines (fun _ => (1500, 1500, 1500))) as H.
  cbv zeta in H.
  refine (proj1 (proj1 (H _))).
  intros i _. unfold in12bits, leftOf, rightOf, vtcOf; cbn [fst snd]. lia.
Defined.

(** ** The square root, on the reals *)

Section FormatSqrt.
Variables prec emax : Z.
Hypothesis prec_pos : 0 < prec.
Hypothesis prec_lt_emax : prec < emax.

(** The square root of a finite positive number: [SFsqrt] rounds a number
    [t] that is at most one unit of its last place below the root. *)
Lemma SFsqrt_rounds m e :
  let r := SFsqrt prec emax (S754_finite false m e) in
  exists t u : R,
    (0 <= t)%R /\ (0 < u)%R /\
    (t * t <= IZR (Zpos m) * bpow e < (t + u) * (t + u))%R /\
    rounds prec emax 1 false t r /\
    (is_finite r = true -> (u <= Rabs (F2R r) * eps prec + eta prec emax)%R).
Proof.
  simpl SFsqrt. unfold SFsqrt_core_binary.
  set (d := Zdigits2 (Zpos m)).
  set (e' := Z.min (fexp prec emax (Z.div2 (d + e + 1))) (Z.div2 e)).
  set (s := e - 2 * e').
  assert (Hs : 0 <= s).
  { subst s e'. rewrite (Z.div2_div e). pose proof (Z.div_mod e 2 ltac:(lia)).
    pose proof (Z.mod_pos_bound e 2 ltac:(lia)). lia. }
  set (m' := match s with
             | 0 => Zpos m
             | Zpos _ => Z.shiftl (Zpos m) s
             | Zneg _ => 0
             end).
  assert (Hm' : m' = Zpos m * 2 ^ s).
  { subst m'. destruct s as [ | p | p] eqn:Es; try lia.
    apply Z.shiftl_mul_pow2; lia. }
  assert (Hp2 : 0 < 2 ^ s) by (apply Z.pow_pos_nonneg; lia).
  assert (Hm'pos : 0 < m') by nia.
  pose proof (Z.sqrtrem_spec m' ltac:(lia)) as Hspec.
  destruct (Z.sqrtrem m') as [q r].
  destruct Hspec as (Hqr & Hr).
  assert (Hq0 : 0 < q) by nia.
  assert (Hk : 0 <= fexp prec emax (Zdigits2 q + e') - e').
  { destruct (Zdigits2_bounds q Hq0) as (_ & Hqhi).
    destruct (Zdigits2_bounds (Zpos m) ltac:(lia)) as (Hmlo & _). fold d in Hmlo.
    pose proof (Zdigits2_nonneg q) as Hk0.
    assert (Hd0 : 0 < d) by (subst d; simpl; lia).
    assert (Hlt : 2 ^ (d - 1 + s) < 2 ^ (2 * Zdigits2 q)).
    { rewrite Z.pow_add_r by lia.
      replace (2 * Zdigits2 q) with (Zdigits2 q + Zdigits2 q) by lia.
      rewrite Z.pow_add_r by lia.
      assert (0 < 2 ^ (d - 1)) by (apply Z.pow_pos_nonneg; lia).
      nia. }
    apply Z.pow_lt_mono_r_iff in Hlt; [ | lia | lia ].
    assert (Hdiv : Z.div2 (d + e + 1) <= Zdigits2 q + e').
    { rewrite Z.div2_div. subst s.
      pose proof (Z.div_mod (d + e + 1) 2 ltac:(lia)).
      pose proof (Z.mod_pos_bound (d + e + 1) 2 ltac:(lia)). lia. }
    pose proof (fexp_mono prec emax _ _ Hdiv).
    subst e'. lia. }
  set (l := if r =? 0 then loc_Exact else loc_Inexact (if r <=? q then Lt else Gt)).
  destruct (binary_round_aux_rounds prec emax prec_pos prec_lt_emax false q e' l
              ltac:(lia) Hk) as (Hround & Hulp).
  exists (IZR q * bpow e')%R, (bpow e').
  pose proof (bpow_pos e') as Pe'.
  assert (Pq : (0 < IZR q)%R) by (apply IZR_lt; lia).
  split; [ nra | ]. split; [ exact Pe' | ].
  split; [ | split; [ exact Hround | exact Hulp ] ].
  assert (HX : (IZR (Zpos m) * bpow e = IZR m' * (bpow e' * bpow e'))%R).
  { rewrite Hm', mult_IZR, <- bpow_IZR, <- bpow_add by lia.
    rewrite Rmult_assoc, <- bpow_add. do 2 f_equal. subst s; lia. }
  rewrite HX.
  assert (Hlo : (IZR q * IZR q <= IZR m')%R) by (rewrite <- mult_IZR; apply IZR_le; nia).
  assert (Hhi : (IZR m' < (IZR q + 1) * (IZR q + 1))%R).
  { rewrite <- (plus_IZR q 1), <- mult_IZR. apply IZR_lt; nia. }
  assert (Pe2 : (0 < bpow e' * bpow e')%R) by nra.
  split.
  - replace (IZR q * bpow e' * (IZR q * bpow e'))%R
      with (IZR q * IZR q * (bpow e' * bpow e'))%R by ring.
    apply Rmult_le_compat_r; lra.
  - replace ((IZR q * bpow e' + bpow e') * (IZR q * bpow e' + bpow e'))%R
      with ((IZR q + 1) * (IZR q + 1) * (bpow e' * bpow e'))%R by ring.
    apply Rmult_lt_compat_r; lra.
Qed.

End FormatSqrt.

(** ** Comparison, difference and square root of [float], on the reals *)

(** Of two canonical positive numbers, the one with the smaller exponent is
    the smaller. *)
Lemma canonical_order m1 e1 m2 e2 :
  bounded F32.prec F32.emax m1 e1 = true -> bounded F32.prec F32.emax m2 e2 = true ->
  e1 < e2 ->
  (IZR (Zpos m1) * bpow e1 < IZR (Zpos m2) * bpow e2)%R.
Proof.
  intros B1 B2 Hlt.
  destruct (bounded_canonical _ _ _ _ B1) as (C1 & _).
  destruct (bounded_canonical _ _ _ _ B2) as (C2 & _).
  destruct (canonical_cases F32.prec F32.emax ltac:(reflexivity)
              (Zpos m1) e1 ltac:(lia) C1) as (H1 & _).
  pose proof (fexp_ge_emin F32.prec F32.emax (Zdigits2 (Zpos m1) + e1)) as Hmin.
  rewrite C1 in Hmin.
  assert (Hd2 : Zdigits2 (Zpos m2) = F32.prec) by (unfold fexp in C2; lia).
  destruct (Zdigits2_bounds (Zpos m2) ltac:(lia)) as (H2 & _).
  rewrite Hd2 in H2. apply IZR_le in H2.
  rewrite <- bpow_IZR in H2 by (unfold F32.prec; lia).
  pose proof (bpow_pos e1) as P1. pose proof (bpow_pos e2) as P2.
  assert (Hb : (bpow F32.prec * bpow e1 <= bpow (F32.prec - 1) * bpow e2)%R).
  { rewrite <- !bpow_add. apply bpow_le. lia. }
  apply Rlt_le_trans with (bpow F32.prec * bpow e1)%R; [ apply Rmult_lt_compat_r; lra | ].
  apply Rle_trans with (bpow (F32.prec - 1) * bpow e2)%R; [ exact Hb | ].
  apply Rmult_le_compat_r; lra.
Qed.

(** [<=] of C++ on finite non-negative numbers is [<=] on the reals. *)
Lemma fle_weight x y :
  is_weight x -> is_weight y ->
  (fle x y = true -> (F2R x <= F2R y)%R) /\ (fle x y = false -> (F2R y < F2R x)%R).
Proof.
  intros Hx Hy.
  destruct (weight_cases x Hx) as [-> | (mx & ex & -> & Bx)];
    destruct (weight_cases y Hy) as [-> | (my & ey & -> & By)].
  - split; [ intros _; simpl; lra | discriminate ].
  - pose proof (F2R_finite_pos my ey).
    split; [ intros _; simpl F2R at 1; lra | discriminate ].
  - pose proof (F2R_finite_pos mx ex).
    split; [ discriminate | intros _; simpl F2R at 1; lra ].
  - rewrite !F2R_finite_false.
    unfold fle, SFleb, SFcompare.
    destruct (Z.compare_spec ex ey) as [Heq | Hlt | Hgt].
    + subst ey. rewrite Pos.compare_cont_spec; simpl Pos.switch_Eq.
      pose proof (bpow_pos ex) as Pe.
      destruct (Pos.compare_spec mx my) as [Hm | Hm | Hm].
      * subst my. split; [ intros _; lra | discriminate ].
      * assert (Hm' : Zpos mx < Zpos my) by exact Hm. apply IZR_lt in Hm'.
        split; [ intros _; nra | discriminate ].
      * assert (Hm' : Zpos my < Zpos mx) by exact Hm. apply IZR_lt in Hm'.
        split; [ discriminate | intros _; nra ].
    + pose proof (canonical_order _ _ _ _ Bx By Hlt).
      split; [ intros _; lra | discriminate ].
    + pose proof (canonical_order _ _ _ _ By Bx Hgt).
      split; [ discriminate | intros _; lra ].
Qed.

(** A subtraction is the addition of the opposite. *)
Lemma sub_as_add x sy my ey :
  is_finite x = true ->
  F32.sub x (S754_finite sy my ey) = F32.add x (S754_finite (negb sy) my ey).
Proof.
  destruct x as [sx | sx | | sx mx ex]; try discriminate; intros _; [ reflexivity | ].
  unfold F32.sub, F32.add; cbn [SFsub SFadd].
  f_equal.
  generalize (Zpos (fst (shl_align mx ex (Z.min ex ey)))).
  generalize (Zpos (fst (shl_align my ey (Z.min ex ey)))).
  intros a b. destruct sx, sy; simpl; lia.
Qed.

(** The square of a finite number. *)
Lemma square_weight d :
  is_float d -> is_finite d = true -> (F2R d * F2R d < 2 ^ 127)%R ->
  is_weight (F32.mul d d) /\ close 1 (F2R (F32.mul d d)) (F2R d * F2R d).
Proof.
  intros Vd Fd Hb.
  destruct (finite_cases d Vd Fd) as [(s & ->) | (s & m & e & -> & B)].
  - replace (F32.mul (S754_zero s) (S754_zero s)) with (S754_zero false)
      by (destruct s; reflexivity).
    simpl F2R. rewrite Rmult_0_l. split; [ apply zero_weight | apply close_refl; lra ].
  - assert (E : (F2R (S754_finite s m e) * F2R (S754_finite s m e)
                 = (IZR (Zpos m) * bpow e) * (IZR (Zpos m) * bpow e))%R)
      by (destruct s; simpl; ring).
    rewrite E in Hb |- *.
    apply rounds_close; [ lra | | exact Hb ].
    replace false with (xorb s s) by (destruct s; reflexivity).
    apply (SFmul_rounds F32.prec F32.emax ltac:(reflexivity) ltac:(reflexivity)
             s m e s m e B B).
Qed.

(** The square root of a finite non-negative number [x]: a finite
    non-negative number, within one rounding of a number [t] that is less
    than the distance [u] of two neighbours below the root. *)
Lemma sqrt_weight x :
  is_weight x -> (F2R x < 2 ^ 100)%R ->
  is_weight (F32.sqrt x) /\
  exists t u : R,
    (0 <= t)%R /\ (0 < u)%R /\
    (t * t <= F2R x < (t + u) * (t + u))%R /\
    close 1 (F2R (F32.sqrt x)) t /\
    (u <= F2R (F32.sqrt x) * / 8388608 + / 18446744073709551616)%R.
Proof.
  intros Hx Hb.
  destruct (weight_cases x Hx) as [-> | (m & e & -> & B)].
  - split; [ apply zero_weight | ].
    exists 0%R, (/ 18446744073709551616)%R. simpl F2R.
    repeat split; lra.
  - destruct (SFsqrt_rounds F32.prec F32.emax ltac:(reflexivity) ltac:(reflexivity) m e)
      as (t & u & Ht & Hu & HX & Hr & Hulp).
    rewrite <- F2R_finite_false in HX.
    fold (F32.sqrt (S754_finite false m e)) in Hr, Hulp.
    assert (Hsmall : (t < 2 ^ 64)%R).
    { destruct (Rlt_dec t (2 ^ 64)) as [Hlt | Hge]; [ exact Hlt | exfalso ].
      apply Rnot_lt_le in Hge.
      assert (2 ^ 64 * 2 ^ 64 <= t * t)%R by (apply Rmult_le_compat; lra).
      lra. }
    destruct (rounds_close 1 t _ ltac:(lra) Hr ltac:(lra)) as (Wr & Cr).
    split; [ exact Wr | ].
    exists t, u.
    refine (conj Ht (conj Hu (conj HX (conj Cr _)))).
    specialize (Hulp (proj2 (proj2 Wr))).
    rewrite (F2R_abs_nonneg _ (proj1 (proj2 Wr))), eps32 in Hulp.
    pose proof eta32 as (_ & Eta). lra.
Qed.

(** ** The dead zone, on the reals *)

(** The square of a number within one rounding of [u]. *)
Lemma square_close_pos (D U : R) :
  (0 <= D <= 32)%R -> close 1 D U ->
  (D * D * (1 - 3 / 8388608) - / 1125899906842624 <= U * U
   <= D * D * (1 + 3 / 8388608) + / 1125899906842624)%R.
Proof.
  intros HD (Hlo & Hhi).
  set (eta := (/ 18446744073709551616)%R) in *.
  set (eps := (/ 8388608)%R) in *.
  assert (Heta : (eta = / 18446744073709551616)%R) by reflexivity.
  assert (Heps : (eps = / 8388608)%R) by reflexivity.
  clearbody eta eps.
  set (B := (D * (1 + 1 * eps) + 1 * eta)%R) in *.
  set (A := (D * (1 - 1 * eps) - 1 * eta)%R) in *.
  assert (HB : (0 <= (B - U) * (B + U))%R) by (apply Rmult_le_pos; subst A B; lra).
  assert (HBB : (B * B <= D * D * (1 + 3 / 8388608) + / 1125899906842624)%R).
  { subst B. rewrite Heta, Heps. nra. }
  split; [ | nra ].
  destruct (Rle_dec 0 A) as [HA | HA].
  - assert (HAU : (0 <= (U - A) * (U + A))%R) by (apply Rmult_le_pos; lra).
    assert (HAA : (D * D * (1 - 3 / 8388608) - / 1125899906842624 <= A * A)%R).
    { subst A. rewrite Heta, Heps. nra. }
    nra.
  - assert (HDs : (D <= / 1000000000000)%R) by (subst A; rewrite Heta, Heps in *; lra).
    assert (0 <= U * U)%R by nra.
    assert (D * D <= / 1000000000000 * / 1000000000000)%R by (apply Rmult_le_compat; lra).
    lra.
Qed.

Lemma square_close (d u : R) :
  (Rabs d <= 32)%R ->
  ((0 <= d)%R /\ close 1 d u \/ (d <= 0)%R /\ close 1 (- d) (- u)) ->
  (d * d * (1 - 3 / 8388608) - / 1125899906842624 <= u * u
   <= d * d * (1 + 3 / 8388608) + / 1125899906842624)%R.
Proof.
  intros Hd [(Hpos & C) | (Hneg & C)].
  - apply square_close_pos; [ | exact C ].
    apply Rabs_bounds in Hd; lra.
  - replace (d * d)%R with (- d * - d)%R by ring.
    replace (u * u)%R with (- u * - u)%R by ring.
    apply square_close_pos; [ | exact C ].
    apply Rabs_bounds in Hd; lra.
Qed.

Lemma GEOMETRIC_CENTER_XY_value :
  GEOMETRIC_CENTER_XY = (S754_finite false 14680064 (-22), S754_finite false 15379115 (-21)).
Proof. vm_compute; reflexivity. Qed.

(** The distance to the centre, for one coordinate. *)
Lemma offset_value c m e (g : R) :
  is_weight c -> (F2R c <= 24)%R ->
  bounded F32.prec F32.emax m e = true ->
  F2R (S754_finite false m e) = g -> (0 <= g <= 8)%R ->
  let d := F32.sub c (S754_finite false m e) in
  is_float d /\ is_finite d = true /\ (Rabs (F2R d) <= 32)%R /\
  (F2R d * F2R d * (1 - 3 / 8388608) - / 1125899906842624
   <= (F2R c - g) * (F2R c - g)
   <= F2R d * F2R d * (1 + 3 / 8388608) + / 1125899906842624)%R.
Proof.
  intros Wc Bc B Eg Hg d; subst d.
  pose proof (F2R_nonneg _ (proj1 (proj2 Wc))) as Pc.
  rewrite (sub_as_add _ _ _ _ (proj2 (proj2 Wc))). cbn [negb].
  assert (Eg' : F2R (S754_finite true m e) = (- g)%R)
    by (rewrite <- Eg; simpl; ring).
  destruct (add_finite_value c (S754_finite true m e) (proj1 Wc) (proj2 (proj2 Wc)) B eq_refl)
    as (Vd & Fd & Cd).
  { rewrite Eg'. apply Rabs_def1; lra. }
  rewrite Eg' in Cd.
  assert (Hd : (Rabs (F2R (F32.add c (S754_finite true m e))) <= 32)%R).
  { unfold close in Cd. apply Rabs_le.
    destruct Cd as [(P & C1 & C2) | (P & C1 & C2)]; lra. }
  refine (conj Vd (conj Fd (conj Hd _))).
  apply square_close; [ exact Hd | ].
  replace (F2R c - g)%R with (F2R c + - g)%R by ring.
  exact Cd.
Qed.

Lemma F2R_centre_x : F2R (S754_finite false 14680064 (-22)) = (7 / 2)%R.
Proof.
  change (-22) with (Z.opp 22).
  rewrite (F2R_scaled _ 22) by lia. change (IZR (2 ^ 22)) with 4194304%R. lra.
Qed.

Lemma F2R_centre_y : F2R (S754_finite false 15379115 (-21)) = (15379115 / 2097152)%R.
Proof.
  change (-21) with (Z.opp 21).
  rewrite (F2R_scaled _ 21) by lia. change (IZR (2 ^ 21)) with 2097152%R. lra.
Qed.

Lemma F2R_radius : F2R DEAD_ZONE_RADIUS_CM = 2%R.
Proof.
  unfold DEAD_ZONE_RADIUS_CM. change (-22) with (Z.opp 22).
  rewrite (F2R_scaled _ 22) by lia. change (IZR (2 ^ 22)) with 4194304%R. lra.
Qed.

(** The test of the dead zone: the disc of radius 2 around (3.5, 22/3), up
    to the roundings. *)
Lemma inDeadZone_value cx cy :
  is_weight cx -> is_weight cy -> (F2R cx <= 8)%R -> (F2R cy <= 23)%R ->
  (inDeadZone cx cy = true ->
   ((F2R cx - 7 / 2) * (F2R cx - 7 / 2) + (F2R cy - 22 / 3) * (F2R cy - 22 / 3)
    <= 4 + / 65536)%R) /\
  (inDeadZone cx cy = false ->
   (4 - / 65536
    <= (F2R cx - 7 / 2) * (F2R cx - 7 / 2) + (F2R cy - 22 / 3) * (F2R cy - 22 / 3))%R).
Proof.
  intros Wx Wy Bx By.
  pose proof (F2R_nonneg _ (proj1 (proj2 Wx))) as Px.
  pose proof (F2R_nonneg _ (proj1 (proj2 Wy))) as Py.
  unfold inDeadZone. rewrite GEOMETRIC_CENTER_XY_value; cbn [fst snd].
  destruct (offset_value cx 14680064 (-22) (7 / 2) Wx ltac:(lra) eq_refl
              F2R_centre_x ltac:(lra)) as (Vdx & Fdx & Hdx & Cdx).
  destruct (offset_value cy 15379115 (-21) (15379115 / 2097152) Wy ltac:(lra) eq_refl
              F2R_centre_y ltac:(lra)) as (Vdy & Fdy & Hdy & Cdy).
  set (dx := F32.sub cx (S754_finite false 14680064 (-22))) in *.
  set (dy := F32.sub cy (S754_finite false 15379115 (-21))) in *.
  assert (Sdx : (0 <= F2R dx * F2R dx <= 1024)%R)
    by (apply Rabs_bounds in Hdx; nra).
  assert (Sdy : (0 <= F2R dy * F2R dy <= 1024)%R)
    by (apply Rabs_bounds in Hdy; nra).
  destruct (square_weight dx Vdx Fdx ltac:(lra)) as (Wp & Cp).
  destruct (square_weight dy Vdy Fdy ltac:(lra)) as (Wq & Cq).
  pose proof (F2R_nonneg _ (proj1 (proj2 Wp))) as Pp.
  pose proof (F2R_nonneg _ (proj1 (proj2 Wq))) as Pq.
  unfold close in Cp, Cq.
  destruct (add_weight _ _ Wp Wq ltac:(lra)) as (Ws & Cs).
  pose proof (F2R_nonneg _ (proj1 (proj2 Ws))) as Ps.
  unfold close in Cs.
  destruct (sqrt_weight _ Ws ltac:(lra)) as (Wr & t & u & Ht & Hu & HX & Cr & Hulp).
  pose proof (F2R_nonneg _ (proj1 (proj2 Wr))) as Pr.
  unfold close in Cr.
  assert (Wd : is_weight DEAD_ZONE_RADIUS_CM) by (repeat split).
  destruct (fle_weight _ _ Wr Wd) as (Hin & Hout).
  rewrite F2R_radius in Hin, Hout.
  set (r := F32.sqrt (F32.add (F32.mul dx dx) (F32.mul dy dy))) in *.
  set (X := F2R (F32.add (F32.mul dx dx) (F32.mul dy dy))) in *.
  set (P := F2R (F32.mul dx dx)) in *. set (Q := F2R (F32.mul dy dy)) in *.
  set (DX := (F2R dx * F2R dx)%R) in *. set (DY := (F2R dy * F2R dy)%R) in *.
  set (U := ((F2R cx - 7 / 2) * (F2R cx - 7 / 2))%R) in *.
  set (V0 := ((F2R cy - 15379115 / 2097152) * (F2R cy - 15379115 / 2097152))%R) in *.
  assert (EV : ((F2R cy - 22 / 3) * (F2R cy - 22 / 3)
                = V0 + 2 * (15379115 / 2097152 - 22 / 3) * (F2R cy - 15379115 / 2097152)
                  + (15379115 / 2097152 - 22 / 3) * (15379115 / 2097152 - 22 / 3))%R)
    by (subst V0; ring).
  rewrite EV.
  split; intros H.
  - specialize (Hin H).
    assert (Hc : (0 <= t + u <= 2 + / 1000000)%R) by lra.
    assert (HX' : (X <= (2 + / 1000000) * (2 + / 1000000))%R).
    { apply Rle_trans with ((t + u) * (t + u))%R; [ lra | ].
      apply Rmult_le_compat; lra. }
    lra.
  - specialize (Hout H).
    assert (Hc : (2 - / 1000000 <= t)%R) by lra.
    assert (HX' : ((2 - / 1000000) * (2 - / 1000000) <= X)%R).
    { apply Rle_trans with (t * t)%R; [ | lra ].
      apply Rmult_le_compat; lra. }
    lra.
Qed.

(** X6.  The dead zone is the disc of radius 2 cm around the centre
    (3.5, 22/3) of the triangle, up to the roundings: on a rested pass,
    a centre of pressure in the dead zone is within [4 + 2^-16] of the centre
    in squared distance, and one outside it is at least [4 - 2^-16] away. *)
Theorem dead_zone_is_disc (r : Readings) (g : Sketch) :
  ensures (loop r g) (fun '(_, c, _) =>
    isArmRested c = true ->
    (now_in_deadzone c = true -> (distance2 (cop_x c) (cop_y c) <= 4 + / 65536)%R) /\
    (now_in_deadzone c = false -> (4 - / 65536 <= distance2 (cop_x c) (cop_y c))%R)).
Proof.
  apply (ensures_weaken _ _ _ (loop_pass r g)).
  intros [[g' c] row] H Hrest.
  pose proof (pass_cop _ _ _ _ _ H) as Hcop; rewrite Hrest in Hcop.
  destruct Hcop as (Hx & Hy & Hnow & _).
  pose proof (pass_isArmRested _ _ _ _ _ H) as Hgt; rewrite Hrest in Hgt; symmetry in Hgt.
  assert (Wl : is_weight (F_left c) /\ (F2R (F_left c) <= 128)%R).
  { rewrite (pass_F_left _ _ _ _ _ H), (pass_filtered_left _ _ _ _ _ H).
    apply force_weight; [ apply ema_is_float | auto ]. }
  assert (Wr : is_weight (F_right c) /\ (F2R (F_right c) <= 128)%R).
  { rewrite (pass_F_right _ _ _ _ _ H), (pass_filtered_right _ _ _ _ _ H).
    apply force_weight; [ apply ema_is_float | auto ]. }
  assert (Wv : is_weight (F_vtc c) /\ (F2R (F_vtc c) <= 128)%R).
  { rewrite (pass_F_vtc _ _ _ _ _ H), (pass_filtered_vtc _ _ _ _ _ H).
    apply force_weight; [ apply ema_is_float | auto ]. }
  destruct Wl as (Wl & Bl), Wr as (Wr & Br), Wv as (Wv & Bv).
  rewrite (pass_F_tot _ _ _ _ _ H) in Hgt, Hx, Hy.
  pose proof (centroid_bounds _ _ _ Wl Wr Wv Bl Br Bv Hgt) as HB.
  cbv zeta in HB. rewrite <- Hx, <- Hy in HB.
  destruct HB as (_ & _ & Wx & Wy & Bx & By & _).
  rewrite Hnow. unfold distance2.
  apply inDeadZone_value; try assumption; lra.
Qed.

Lemma dead_zone_is_disc_witness :
  ensures calibrated_pass (fun '(_, c, _) =>
    isArmRested c = true /\ now_in_deadzone c = false /\
    (4 - / 65536 <= distance2 (cop_x c) (cop_y c))%R).
Proof.
  pose proof (dead_zone_is_disc (readingsAt 3000 3000 3000 0) loadedInFront) as H.
  change (loop _ _) with calibrated_pass in H.
  unfold calibrated_pass, ensures in *.
  destruct (H eq_refl) as (_ & Hout).
  exact (conj eq_refl (conj eq_refl (Hout eq_refl))).
Defined.

(** [<] of C++ on finite non-negative numbers is [<] on the reals. *)
Lemma flt_weight x y :
  is_weight x -> is_weight y ->
  (flt x y = true -> (F2R x < F2R y)%R) /\ (flt x y = false -> (F2R y <= F2R x)%R).
Proof.
  intros Hx Hy.
  destruct (fle_weight y x Hy Hx) as (Hle & Hgt).
  assert (E : flt x y = negb (fle y x)).
  { unfold flt, fle, SFltb, SFleb. rewrite (SFcompare_antisym x y).
    destruct (weight_cases x Hx) as [-> | (mx & ex & -> & Bx)];
      destruct (weight_cases y Hy) as [-> | (my & ey & -> & By)];
      try reflexivity.
    destruct (SFcompare (S754_finite false mx ex) (S754_finite false my ey)) as [[ | | ] | ] eqn:Ec;
      try reflexivity.
    exfalso. unfold SFcompare in Ec.
    destruct (ex ?= ey); try discriminate. }
  rewrite E. split; intros H.
  - apply Hgt. destruct (fle y x); [ discriminate | reflexivity ].
  - apply Hle. destruct (fle y x); [ reflexivity | discriminate ].
Qed.

Lemma F2R_threshold : F2R MIN_REST_THRESHOLD_N = (7 / 2)%R.
Proof. apply F2R_centre_x. Qed.

(** X7.  The sum of the forces is a finite number on every pass, so the test
    of the rest state is the comparison of real numbers: [isArmRested] is
    true exactly when [F_tot] is above 3.5. *)
Theorem rested_iff_above_threshold (r : Readings) (g : Sketch) :
  ensures (loop r g) (fun '(_, c, _) =>
    is_weight (F_tot c) /\
    (isArmRested c = true <-> (7 / 2 < F2R (F_tot c))%R)).
Proof.
  apply (ensures_weaken _ _ _ (loop_pass r g)).
  intros [[g' c] row] H.
  assert (Wl : is_weight (F_left c) /\ (F2R (F_left c) <= 128)%R).
  { rewrite (pass_F_left _ _ _ _ _ H), (pass_filtered_left _ _ _ _ _ H).
    apply force_weight; [ apply ema_is_float | auto ]. }
  assert (Wr : is_weight (F_right c) /\ (F2R (F_right c) <= 128)%R).
  { rewrite (pass_F_right _ _ _ _ _ H), (pass_filtered_right _ _ _ _ _ H).
    apply force_weight; [ apply ema_is_float | auto ]. }
  assert (Wv : is_weight (F_vtc c) /\ (F2R (F_vtc c) <= 128)%R).
  { rewrite (pass_F_vtc _ _ _ _ _ H), (pass_filtered_vtc _ _ _ _ _ H).
    apply force_weight; [ apply ema_is_float | auto ]. }
  destruct Wl as (Wl & Bl), Wr as (Wr & Br), Wv as (Wv & Bv).
  pose proof (F2R_nonneg _ (proj1 (proj2 Wl))) as Pl.
  pose proof (F2R_nonneg _ (proj1 (proj2 Wr))) as Pr.
  pose proof (F2R_nonneg _ (proj1 (proj2 Wv))) as Pv.
  destruct (add_weight _ _ Wl Wr ltac:(lra)) as (Wlr & Clr).
  pose proof (F2R_nonneg _ (proj1 (proj2 Wlr))) as Plr.
  unfold close in Clr.
  destruct (add_weight _ _ Wlr Wv ltac:(lra)) as (Wt & _).
  rewrite <- (pass_F_tot _ _ _ _ _ H) in Wt.
  split; [ exact Wt | ].
  rewrite (pass_isArmRested _ _ _ _ _ H). unfold fgt.
  assert (Wm : is_weight MIN_REST_THRESHOLD_N) by (repeat split).
  destruct (flt_weight _ _ Wm Wt) as (Hlt & Hge).
  fold (flt MIN_REST_THRESHOLD_N (F_tot c)).
  rewrite F2R_threshold in Hlt, Hge.
  split; [ exact Hlt | ].
  intros Habove. destruct (flt MIN_REST_THRESHOLD_N (F_tot c)); [ reflexivity | ].
  specialize (Hge eq_refl). lra.
Qed.

(** ** The centre of pressure, on the reals *)

(** A quotient of two approximated numbers. *)
Lemma quotient_close (N T M S k d : R) :
  (0 <= M <= k * S)%R -> (3 < S)%R -> (3 < T)%R -> (0 <= k <= 32)%R ->
  (M * (1 - / 2000000) - / 1000000000 <= N <= M * (1 + / 2000000) + / 1000000000)%R ->
  (S * (1 - / 2000000) - / 1000000000 <= T <= S * (1 + / 2000000) + / 1000000000)%R ->
  (k * 3 / 2000000 + / 1000000000 <= d)%R ->
  (Rabs (N / T - M / S) <= d)%R.
Proof.
  intros HM HS HT Hk HN HTS Hd.
  set (Q := (M / S)%R).
  assert (EQ : (Q * S = M)%R) by (subst Q; field; lra).
  assert (HQ : (0 <= Q <= k)%R).
  { split.
    - apply Rmult_le_reg_r with S; [ lra | ]. rewrite EQ; lra.
    - apply Rmult_le_reg_r with S; [ lra | ]. rewrite EQ; lra. }
  assert (EN : (N / T * T = N)%R) by (field; lra).
  assert (Hd1 : (0 <= (d - (k * 3 / 2000000 + / 1000000000)) * T)%R)
    by (apply Rmult_le_pos; lra).
  assert (Hk1 : (0 <= k * (T - (S * (1 - / 2000000) - / 1000000000)))%R)
    by (apply Rmult_le_pos; lra).
  assert (Hk2 : (0 <= k * (S - 3))%R) by (apply Rmult_le_pos; lra).
  apply Rabs_le; split.
  - apply Rmult_le_reg_r with T; [ lra | ].
    replace ((N / T - Q) * T)%R with (N - Q * T)%R by (rewrite Rmult_minus_distr_r, EN; ring).
    assert (H1 : (0 <= Q * (S * (1 + / 2000000) + / 1000000000 - T))%R)
      by (apply Rmult_le_pos; lra).
    lra.
  - apply Rmult_le_reg_r with T; [ lra | ].
    replace ((N / T - Q) * T)%R with (N - Q * T)%R by (rewrite Rmult_minus_distr_r, EN; ring).
    assert (H1 : (0 <= Q * (T - (S * (1 - / 2000000) - / 1000000000)))%R)
      by (apply Rmult_le_pos; lra).
    lra.
Qed.

(** The centre of pressure of a rested pass is the weighted mean of the
    positions of the sensors, within the roundings. *)
Lemma centroid_value Fl Fr Fv :
  is_weight Fl -> is_weight Fr -> is_weight Fv ->
  (F2R Fl <= 128)%R -> (F2R Fr <= 128)%R -> (F2R Fv <= 128)%R ->
  let Ft := F32.add (F32.add Fl Fr) Fv in
  fgt Ft MIN_REST_THRESHOLD_N = true ->
  (3 < F2R Fl + F2R Fr + F2R Fv)%R /\
  (Rabs (F2R (F32.div (moment_x Fl Fr Fv) Ft) - meanX Fl Fr Fv) <= / 65536)%R /\
  (Rabs (F2R (F32.div (moment_y Fl Fr Fv) Ft) - meanY Fl Fr Fv) <= / 16384)%R.
Proof.
  intros Wl Wr Wv Bl Br Bv Ft Hrest.
  pose proof (F2R_nonneg _ (proj1 (proj2 Wl))) as Pl.
  pose proof (F2R_nonneg _ (proj1 (proj2 Wr))) as Pr.
  pose proof (F2R_nonneg _ (proj1 (proj2 Wv))) as Pv.
  destruct (add_weight Fl Fr Wl Wr ltac:(lra)) as (Wlr & Clr).
  pose proof (F2R_nonneg _ (proj1 (proj2 Wlr))) as Plr.
  assert (Blr : (F2R (F32.add Fl Fr) <= 300)%R) by (unfold close in Clr; nra).
  destruct (add_weight _ Fv Wlr Wv ltac:(lra)) as (Wt & Ct).
  fold Ft in Wt, Ct.
  pose proof (F2R_nonneg _ (proj1 (proj2 Wt))) as Pt.
  destruct (rested_value Ft (proj1 Wt) Hrest) as [E | (mt & et & Et & Ht)].
  { exfalso. destruct Wt as (_ & _ & F). rewrite E in F; discriminate. }
  assert (W0 : is_weight F32.zero) by apply zero_weight.
  assert (W7 : is_weight (fst P_RIGHT_XY)) by (repeat split).
  assert (W35 : is_weight (fst P_VTC_XY)) by (repeat split).
  assert (W22 : is_weight (snd P_VTC_XY)) by (repeat split).
  destruct (moment_weight (fst P_LEFT_XY) (fst P_RIGHT_XY) (fst P_VTC_XY) Fl Fr Fv
              W0 W7 W35 ltac:(simpl; lra) ltac:(rewrite F2R_7; lra)
              ltac:(rewrite F2R_3_5; lra) Wl Wr Wv Bl Br Bv)
    as (WNx & ax & bx & cx' & abx & Cax & Cbx & Ccx & Cabx & CNx & Pax & Pbx & Pcx & Pabx).
  destruct (moment_weight (snd P_LEFT_XY) (snd P_RIGHT_XY) (snd P_VTC_XY) Fl Fr Fv
              W0 W0 W22 ltac:(simpl; lra) ltac:(simpl; lra)
              ltac:(rewrite F2R_22; lra) Wl Wr Wv Bl Br Bv)
    as (WNy & ay & by' & cy' & aby & Cay & Cby & Ccy & Caby & CNy & Pay & Pby & Pcy & Paby).
  fold (moment_x Fl Fr Fv) in WNx, CNx. fold (moment_y Fl Fr Fv) in WNy, CNy.
  change (F2R (fst P_LEFT_XY)) with 0%R in Cax.
  change (F2R (snd P_LEFT_XY)) with 0%R in Cay.
  change (F2R (snd P_RIGHT_XY)) with 0%R in Cby.
  rewrite F2R_7 in Cbx. rewrite F2R_3_5 in Ccx. rewrite F2R_22 in Ccy.
  set (Nx := F2R (moment_x Fl Fr Fv)) in *. set (Ny := F2R (moment_y Fl Fr Fv)) in *.
  pose proof (F2R_nonneg _ (proj1 (proj2 WNx))) as PNx. fold Nx in PNx.
  pose proof (F2R_nonneg _ (proj1 (proj2 WNy))) as PNy. fold Ny in PNy.
  set (T := F2R Ft) in *.
  unfold close in Clr, Ct, Cax, Cbx, Ccx, Cabx, CNx, Cay, Cby, Ccy, Caby, CNy.
  set (S := (F2R Fl + F2R Fr + F2R Fv)%R).
  assert (HS : (3 < S)%R) by (subst S; lra).
  assert (HQx : (Rabs (Nx / T - meanX Fl Fr Fv) <= 7 * 3 / 2000000 + / 1000000000)%R).
  { unfold meanX; fold S. apply (quotient_close Nx T _ S 7); subst S; lra. }
  assert (HQy : (Rabs (Ny / T - meanY Fl Fr Fv) <= 22 * 3 / 2000000 + / 1000000000)%R).
  { unfold meanY; fold S. apply (quotient_close Ny T _ S 22); subst S; lra. }
  apply Rabs_bounds in HQx. apply Rabs_bounds in HQy.
  assert (Mx : (0 <= meanX Fl Fr Fv <= 7)%R).
  { unfold meanX; fold S. split.
    - apply Rmult_le_pos; [ lra | apply Rlt_le, Rinv_0_lt_compat; lra ].
    - apply Rmult_le_reg_r with S; [ lra | ].
      unfold Rdiv; rewrite Rmult_assoc, Rinv_l by lra. subst S; lra. }
  assert (My : (0 <= meanY Fl Fr Fv <= 22)%R).
  { unfold meanY; fold S. split.
    - apply Rmult_le_pos; [ lra | apply Rlt_le, Rinv_0_lt_compat; lra ].
    - apply Rmult_le_reg_r with S; [ lra | ].
      unfold Rdiv; rewrite Rmult_assoc, Rinv_l by lra. subst S; lra. }
  destruct (div_weight_pos (moment_x Fl Fr Fv) Ft WNx Wt ltac:(fold T; lra)
              ltac:(fold Nx; fold T; lra)) as (Wcx & Ccx2).
  destruct (div_weight_pos (moment_y Fl Fr Fv) Ft WNy Wt ltac:(fold T; lra)
              ltac:(fold Ny; fold T; lra)) as (Wcy & Ccy2).
  fold Nx in Ccx2. fold Ny in Ccy2. fold T in Ccx2, Ccy2.
  pose proof (F2R_nonneg _ (proj1 (proj2 Wcx))) as Pcx2.
  pose proof (F2R_nonneg _ (proj1 (proj2 Wcy))) as Pcy2.
  unfold close in Ccx2, Ccy2.
  refine (conj HS (conj _ _)); apply Rabs_le; lra.
Qed.

(** X8.  On every rested pass the centre of pressure is the mean of the
    positions of the three sensors weighted by the forces, within [2^-16]
    for [cop_x] and within [2^-14] for [cop_y]. *)
Theorem cop_is_weighted_mean (r : Readings) (g : Sketch) :
  ensures (loop r g) (fun '(_, c, _) =>
    isArmRested c = true ->
    (3 < F2R (F_left c) + F2R (F_right c) + F2R (F_vtc c))%R /\
    (Rabs (F2R (cop_x c) - meanX (F_left c) (F_right c) (F_vtc c)) <= / 65536)%R /\
    (Rabs (F2R (cop_y c) - meanY (F_left c) (F_right c) (F_vtc c)) <= / 16384)%R).
Proof.
  apply (ensures_weaken _ _ _ (loop_pass r g)).
  intros [[g' c] row] H Hrest.
  pose proof (pass_cop _ _ _ _ _ H) as Hcop; rewrite Hrest in Hcop.
  destruct Hcop as (Hx & Hy & _).
  pose proof (pass_isArmRested _ _ _ _ _ H) as Hgt; rewrite Hrest in Hgt; symmetry in Hgt.
  assert (Wl : is_weight (F_left c) /\ (F2R (F_left c) <= 128)%R).
  { rewrite (pass_F_left _ _ _ _ _ H), (pass_filtered_left _ _ _ _ _ H).
    apply force_weight; [ apply ema_is_float | auto ]. }
  assert (Wr : is_weight (F_right c) /\ (F2R (F_right c) <= 128)%R).
  { rewrite (pass_F_right _ _ _ _ _ H), (pass_filtered_right _ _ _ _ _ H).
    apply force_weight; [ apply ema_is_float | auto ]. }
  assert (Wv : is_weight (F_vtc c) /\ (F2R (F_vtc c) <= 128)%R).
  { rewrite (pass_F_vtc _ _ _ _ _ H), (pass_filtered_vtc _ _ _ _ _ H).
    apply force_weight; [ apply ema_is_float | auto ]. }
  destruct Wl as (Wl & Bl), Wr as (Wr & Br), Wv as (Wv & Bv).
  rewrite (pass_F_tot _ _ _ _ _ H) in Hgt, Hx, Hy.
  rewrite Hx, Hy.
  exact (centroid_value _ _ _ Wl Wr Wv Bl Br Bv Hgt).
Qed.

Lemma cop_is_weighted_mean_witness :
  ensures calibrated_pass (fun '(_, c, _) =>
    isArmRested c = true /\
    (Rabs (F2R (cop_x c) - meanX (F_left c) (F_right c) (F_vtc c)) <= / 65536)%R).
Proof.
  pose proof (cop_is_weighted_mean (readingsAt 3000 3000 3000 0) loadedInFront) as H.
  change (loop _ _) with calibrated_pass in H.
  unfold calibrated_pass, ensures in *.
  destruct (H eq_refl) as (_ & Hx & _).
  exact (conj eq_refl Hx).
Defined.

(** ** The calibration chain, on the reals *)

Lemma product_bounds (a b A B : R) :
  (- A <= a <= A)%R -> (0 <= b <= B)%R -> (- (A * B) <= a * b <= A * B)%R.
Proof. intros Ha Hb. nra. Qed.

Lemma product_range (a b A B : R) :
  (0 <= a <= A)%R -> (0 <= b <= B)%R -> (0 <= a * b <= A * B)%R.
Proof. intros Ha Hb. nra. Qed.

Lemma F2R_signed s r :
  has_sign s r -> F2R r = ((if s then -1 else 1) * Rabs (F2R r))%R.
Proof.
  destruct r as [s' | s' | | s' m e]; simpl; intros H; subst;
    rewrite ?Rabs_R0; try lra.
  pose proof (bpow_pos e). assert (0 < IZR (Zpos m))%R by (apply IZR_lt; lia).
  destruct s.
  - rewrite Rabs_left by nra. lra.
  - rewrite Rabs_right by nra. lra.
Qed.

(** The product of two finite numbers, of any signs. *)
Lemma mul_finite_value x y :
  is_float x -> is_finite x = true -> is_float y -> is_finite y = true ->
  (Rabs (F2R x * F2R y) < 2 ^ 127)%R ->
  is_float (F32.mul x y) /\ is_finite (F32.mul x y) = true /\
  (Rabs (F2R (F32.mul x y) - F2R x * F2R y)
   <= Rabs (F2R (F32.mul x y)) / 8388608 + / 18446744073709551616)%R.
Proof.
  intros Vx Fx Vy Fy Hb.
  assert (Hzero : forall s, is_float (S754_zero s) /\ is_finite (S754_zero s) = true /\
            (Rabs (F2R (S754_zero s) - 0) <= Rabs (F2R (S754_zero s)) / 8388608
                                             + / 18446744073709551616)%R).
  { intros s. repeat split. simpl F2R. rewrite Rminus_0_r, Rabs_R0. lra. }
  destruct (finite_cases x Vx Fx) as [(sx & ->) | (sx & mx & ex & -> & Bx)];
    destruct (finite_cases y Vy Fy) as [(sy & ->) | (sy & my & ey & -> & By)].
  - replace (F2R (S754_zero sx) * F2R (S754_zero sy))%R with 0%R by (simpl; lra).
    apply (Hzero (xorb sx sy)).
  - replace (F2R (S754_zero sx) * F2R (S754_finite sy my ey))%R with 0%R by (simpl; lra).
    apply (Hzero (xorb sx sy)).
  - replace (F2R (S754_finite sx mx ex) * F2R (S754_zero sy))%R with 0%R by (simpl; lra).
    apply (Hzero (xorb sx sy)).
  - set (P := ((IZR (Zpos mx) * bpow ex) * (IZR (Zpos my) * bpow ey))%R).
    assert (HP : (0 <= P)%R).
    { pose proof (bpow_pos ex). pose proof (bpow_pos ey).
      assert (0 < IZR (Zpos mx))%R by (apply IZR_lt; lia).
      assert (0 < IZR (Zpos my))%R by (apply IZR_lt; lia).
      subst P. apply Rmult_le_pos; nra. }
    assert (E : (F2R (S754_finite sx mx ex) * F2R (S754_finite sy my ey)
                 = (if xorb sx sy then -1 else 1) * P)%R)
      by (subst P; destruct sx, sy; simpl; ring).
    rewrite E in Hb |- *.
    assert (HbP : (P < 2 ^ 127)%R).
    { destruct (xorb sx sy).
      - rewrite Rabs_left1 in Hb by lra. lra.
      - rewrite Rabs_right in Hb by lra. lra. }
    pose proof (SFmul_rounds F32.prec F32.emax ltac:(reflexivity) ltac:(reflexivity)
                  sx mx ex sy my ey Bx By) as Hr.
    fold P in Hr.
    destruct (rounds_finite 1 _ _ _ ltac:(lra) Hr HbP) as (Fr & Sr & Vr & Cr).
    fold (F32.mul (S754_finite sx mx ex) (S754_finite sy my ey)) in Fr, Sr, Vr, Cr |- *.
    refine (conj Vr (conj Fr _)).
    rewrite (F2R_signed _ _ Sr) at 1.
    pose proof (Rabs_pos (F2R (F32.mul (S754_finite sx mx ex) (S754_finite sy my ey)))) as Pa.
    unfold close in Cr.
    destruct (xorb sx sy); apply Rabs_le; lra.
Qed.

(** The sum of two finite numbers, of any signs. *)
Lemma add_finite_near x y :
  is_float x -> is_finite x = true -> is_float y -> is_finite y = true ->
  (Rabs (F2R x + F2R y) < 2 ^ 127)%R ->
  is_float (F32.add x y) /\ is_finite (F32.add x y) = true /\
  (Rabs (F2R (F32.add x y) - (F2R x + F2R y))
   <= Rabs (F2R (F32.add x y)) / 8388608 + / 18446744073709551616)%R.
Proof.
  intros Vx Fx Vy Fy Hb.
  destruct (add_finite_value x y Vx Fx Vy Fy Hb) as (V & F & C).
  refine (conj V (conj F _)).
  unfold close in C.
  destruct C as [(P & C1 & C2) | (P & C1 & C2)].
  - rewrite (Rabs_right (F2R (F32.add x y))) by lra. apply Rabs_le; lra.
  - rewrite (Rabs_left1 (F2R (F32.add x y))) by lra. apply Rabs_le; lra.
Qed.

(** A number near one that is at most [B] in magnitude. *)
Lemma near_bounds (r x B : R) :
  (Rabs (r - x) <= Rabs r / 8388608 + / 18446744073709551616)%R ->
  (Rabs x <= B)%R ->
  (Rabs r <= B + (B + 1) / 8000000)%R /\ (Rabs (r - x) <= (B + 1) / 8000000)%R.
Proof.
  intros Hn Hx.
  pose proof (Rabs_triang (r - x) x) as Ht.
  replace (r - x + x)%R with r in Ht by ring.
  pose proof (Rabs_pos x). pose proof (Rabs_pos r). pose proof (Rabs_pos (r - x)).
  split; lra.
Qed.

(** The polynomial as [voltageToRawUnit] evaluates it, for a voltage between
    0 and 4. *)
Lemma transfer_value v :
  is_weight v -> (F2R v <= 4)%R ->
  is_float (transfer v) /\ is_finite (transfer v) = true /\
  (Rabs (F2R (transfer v) - polynomial (F2R v)) <= / 16384)%R.
Proof.
  intros Wv Bv.
  pose proof (F2R_nonneg _ (proj1 (proj2 Wv))) as Pv.
  destruct Wv as (Vv & _ & Fv).
  set (V := F2R v) in *.
  pose proof F2R_P1 as E1. pose proof F2R_P2 as E2. pose proof F2R_P3 as E3.
  assert (E1' : F2R P1 = (- (8974623 / 4194304))%R).
  { rewrite (negative_value P1 eq_refl), E1. reflexivity. }
  unfold transfer, polynomial. fold V.
  (* P1 * voltage *)
  destruct (mul_finite_value P1 v eq_refl eq_refl Vv Fv) as (V1 & F1 & N1).
  { fold V. rewrite E1'. apply Rabs_def1; nra. }
  fold V in N1.
  destruct (near_bounds _ _ 9 N1) as (B1 & D1).
  { rewrite E1'. apply Rabs_le; nra. }
  apply Rabs_bounds in B1. apply Rabs_bounds in D1.
  set (m1 := F2R (F32.mul P1 v)) in *.
  (* (P1 * voltage) * voltage *)
  destruct (mul_finite_value (F32.mul P1 v) v V1 F1 Vv Fv) as (V2 & F2 & N2).
  { fold V m1. apply Rabs_def1; nra. }
  fold V m1 in N2.
  destruct (near_bounds _ _ 37 N2) as (B2 & D2).
  { apply Rabs_le; nra. }
  apply Rabs_bounds in B2. apply Rabs_bounds in D2.
  set (m2 := F2R (F32.mul (F32.mul P1 v) v)) in *.
  (* P2 * voltage *)
  destruct (mul_finite_value P2 v eq_refl eq_refl Vv Fv) as (V3 & F3 & N3).
  { fold V. rewrite E2. apply Rabs_def1; nra. }
  fold V in N3.
  destruct (near_bounds _ _ 76 N3) as (B3 & D3).
  { rewrite E2. apply Rabs_le; nra. }
  apply Rabs_bounds in B3. apply Rabs_bounds in D3.
  set (m3 := F2R (F32.mul P2 v)) in *.
  (* the two sums *)
  destruct (add_finite_near _ _ V2 F2 V3 F3) as (V4 & F4 & N4).
  { fold m2 m3. apply Rabs_def1; lra. }
  fold m2 m3 in N4.
  destruct (near_bounds _ _ 114 N4) as (B4 & D4).
  { apply Rabs_le; lra. }
  apply Rabs_bounds in B4. apply Rabs_bounds in D4.
  set (s1 := F2R (F32.add (F32.mul (F32.mul P1 v) v) (F32.mul P2 v))) in *.
  destruct (add_finite_near _ P3 V4 F4 eq_refl eq_refl) as (V5 & F5 & N5).
  { fold s1. rewrite E3. apply Rabs_def1; lra. }
  fold s1 in N5.
  destruct (near_bounds _ _ 140 N5) as (B5 & D5).
  { rewrite E3. apply Rabs_le; lra. }
  apply Rabs_bounds in D5.
  refine (conj V5 (conj F5 _)).
  assert (HV : (- (10 / 8000000 * 4) <= m1 * V - F2R P1 * (V * V) <= 10 / 8000000 * 4)%R).
  { replace (m1 * V - F2R P1 * (V * V))%R with ((m1 - F2R P1 * V) * V)%R by ring.
    apply product_bounds; lra. }
  assert (HVV : (0 <= V * V <= 4 * 4)%R) by (apply product_range; lra).
  rewrite E1' in *. rewrite E2 in *. rewrite E3 in *.
  apply Rabs_le. lra.
Qed.

Lemma max_zero_value t :
  is_float t -> is_finite t = true -> F2R (max F32.zero t) = Rmax 0 (F2R t).
Proof.
  intros Vt Ft.
  destruct (finite_cases t Vt Ft) as [(s & ->) | (s & m & e & -> & B)].
  - replace (max F32.zero (S754_zero s)) with F32.zero by (destruct s; reflexivity).
    simpl F2R. rewrite Rmax_left; lra.
  - destruct s.
    + replace (max F32.zero (S754_finite true m e)) with F32.zero by reflexivity.
      pose proof (F2R_finite_pos m e) as P.
      replace (F2R (S754_finite true m e)) with (- F2R (S754_finite false m e))%R
        by (simpl; ring).
      simpl (F2R F32.zero). rewrite Rmax_left; lra.
    + replace (max F32.zero (S754_finite false m e)) with (S754_finite false m e)
        by reflexivity.
      pose proof (F2R_finite_pos m e) as P. rewrite Rmax_right; lra.
Qed.

Lemma Rmax_near (a b e : R) :
  (Rabs (a - b) <= e)%R -> (Rabs (Rmax 0 a - Rmax 0 b) <= e)%R.
Proof.
  intros H. apply Rabs_bounds in H. apply Rabs_le.
  unfold Rmax. destruct (Rle_dec 0 a), (Rle_dec 0 b); lra.
Qed.

(** The raw unit, for a voltage between 0 and 4. *)
Lemma raw_value v b :
  is_weight v -> (F2R v <= 4)%R ->
  (Rabs (F2R (voltageToRawUnit v b)
         - (if fle v b then 0 else Rmax 0 (polynomial (F2R v)))) <= / 16384)%R.
Proof.
  intros Wv Bv. unfold voltageToRawUnit.
  destruct (fle v b).
  - simpl F2R. rewrite Rminus_0_r, Rabs_R0. lra.
  - cbv zeta.
    destruct (transfer_value v Wv Bv) as (Vt & Ft & Nt).
    rewrite (max_zero_value _ Vt Ft). apply Rmax_near, Nt.
Qed.

Lemma force_value v b c k :
  is_weight v -> (F2R v <= 4)%R ->
  c = C_REL_LEFT /\ k = 1%R \/ c = C_REL_RIGHT /\ k = (23 / 26)%R \/
  c = C_REL_VTC /\ k = (23 / (324 / 10))%R ->
  (Rabs (F2R (forceFromVoltage v b c SYSTEM_FORCE_SCALE) - forceOfVoltage v b k)
   <= / 2048)%R.
Proof.
  intros Wv Bv Hc.
  pose proof (raw_value v b Wv Bv) as Hraw.
  destruct (raw_weight v b (proj1 Wv)) as (Wr & Br).
  assert (Hc' : c = C_REL_LEFT \/ c = C_REL_RIGHT \/ c = C_REL_VTC)
    by (destruct Hc as [(-> & _) | [(-> & _) | (-> & _)]]; auto).
  destruct (coefficient_weight c Hc') as (Wc & Bc).
  destruct scale_weight as (Ws & Bs).
  assert (Hk : (- / 10000000 <= F2R c - k <= / 10000000)%R).
  { destruct Hc as [(-> & ->) | [(-> & ->) | (-> & ->)]];
      [ unfold C_REL_LEFT; rewrite (F2R_scaled _ 23) by lia;
        change (IZR (2 ^ 23)) with 8388608%R
      | rewrite C_REL_RIGHT_value, (F2R_scaled _ 24) by lia;
        change (IZR (2 ^ 24)) with 16777216%R
      | rewrite C_REL_VTC_value, (F2R_scaled _ 24) by lia;
        change (IZR (2 ^ 24)) with 16777216%R ]; lra. }
  assert (Hs : (- (2 / 10000000) <= F2R SYSTEM_FORCE_SCALE - 591 / 100 <= 2 / 10000000)%R).
  { unfold SYSTEM_FORCE_SCALE. rewrite (F2R_scaled _ 21) by lia.
    change (IZR (2 ^ 21)) with 2097152%R. lra. }
  pose proof (F2R_nonneg _ (proj1 (proj2 Wr))) as Pr.
  pose proof (F2R_nonneg _ (proj1 (proj2 Wc))) as Pc.
  pose proof (F2R_nonneg _ (proj1 (proj2 Ws))) as Ps.
  unfold forceFromVoltage, forceOfVoltage. cbv zeta.
  set (raw := voltageToRawUnit v b) in *.
  set (R0 := (if fle v b then 0 else Rmax 0 (polynomial (F2R v)))%R) in *.
  apply Rabs_bounds in Hraw.
  pose proof (product_range _ _ 17 1 (conj Pr Br) (conj Pc Bc)) as Prc.
  destruct (mul_weight raw c Wr Wc ltac:(lra)) as (W1 & C1).
  pose proof (F2R_nonneg _ (proj1 (proj2 W1))) as P1.
  assert (B1 : (F2R (F32.mul raw c) <= 18)%R) by (unfold close in C1; lra).
  pose proof (product_range _ _ 18 6 (conj P1 B1) (conj Ps Bs)) as P1s.
  destruct (mul_weight _ SYSTEM_FORCE_SCALE W1 Ws ltac:(lra)) as (W2 & C2).
  pose proof (F2R_nonneg _ (proj1 (proj2 W2))) as P2.
  unfold close in C1, C2.
  set (F := F2R (F32.mul (F32.mul raw c) SYSTEM_FORCE_SCALE)) in *.
  set (K := F2R (F32.mul raw c)) in *.
  set (cs := (F2R c * F2R SYSTEM_FORCE_SCALE)%R).
  assert (Hcs : (0 <= cs <= 1 * 6)%R) by (subst cs; apply product_range; lra).
  assert (Hcs' : (- (2 / 1000000) <= cs - k * (591 / 100) <= 2 / 1000000)%R).
  { pose proof (product_bounds (F2R c - k) (F2R SYSTEM_FORCE_SCALE) _ 6 Hk ltac:(lra)).
    pose proof (product_bounds (F2R SYSTEM_FORCE_SCALE - 591 / 100) k _ 2 Hs ltac:(lra)).
    subst cs. lra. }
  assert (HR0 : (0 <= R0 <= 18)%R).
  { split; [ | lra ]. subst R0. destruct (fle v b); [ lra | apply Rmax_l ]. }
  assert (Hrc : (0 <= F2R raw * F2R c <= 17 * 1)%R) by (apply product_range; lra).
  assert (HK : (- (19 / 8000000) <= K - F2R raw * F2R c <= 19 / 8000000)%R) by lra.
  assert (HKS : (0 <= K * F2R SYSTEM_FORCE_SCALE <= 18 * 6)%R)
    by (apply product_range; lra).
  assert (HF : (- (110 / 8000000) <= F - K * F2R SYSTEM_FORCE_SCALE <= 110 / 8000000)%R)
    by lra.
  assert (HKs : (- (19 / 8000000 * 6)
                 <= (K - F2R raw * F2R c) * F2R SYSTEM_FORCE_SCALE
                 <= 19 / 8000000 * 6)%R) by (apply product_bounds; lra).
  assert (HR : (- (/ 16384 * 6) <= (F2R raw - R0) * cs <= / 16384 * 6)%R)
    by (apply product_bounds; lra).
  assert (HRk : (- (2 / 1000000 * 18) <= (cs - k * (591 / 100)) * R0
                 <= 2 / 1000000 * 18)%R) by (apply product_bounds; lra).
  apply Rabs_le.
  replace (R0 * k * (591 / 100))%R
    with (F2R raw * F2R c * F2R SYSTEM_FORCE_SCALE - (F2R raw - R0) * cs
          - (cs - k * (591 / 100)) * R0)%R
    by (subst cs; ring).
  replace (F2R raw * F2R c * F2R SYSTEM_FORCE_SCALE)%R
    with (K * F2R SYSTEM_FORCE_SCALE - (K - F2R raw * F2R c) * F2R SYSTEM_FORCE_SCALE)%R
    by ring.
  lra.
Qed.

(** X9.  The calibration chain on the reals: on every pass whose filtered
    voltages are finite and between 0 and 4, each force is within [2^-11] of
    [max(0, P1 v^2 + P2 v + P3) * C_REL * SYSTEM_FORCE_SCALE] computed
    exactly, with the constants as the source writes them, on the filtered
    voltage [v] when [v] is above its baseline, and within [2^-11] of 0 when
    it is not. *)
Theorem force_is_polynomial (r : Readings) (g : Sketch) :
  ensures (loop r g) (fun '(g', c, _) =>
    (is_weight (filtered_v_left g') -> (F2R (filtered_v_left g') <= 4)%R ->
     (Rabs (F2R (F_left c)
            - forceOfVoltage (filtered_v_left g') (v_rest_left g) 1) <= / 2048)%R) /\
    (is_weight (filtered_v_right g') -> (F2R (filtered_v_right g') <= 4)%R ->
     (Rabs (F2R (F_right c)
            - forceOfVoltage (filtered_v_right g') (v_rest_right g) (23 / 26)) <= / 2048)%R) /\
    (is_weight (filtered_v_vtc g') -> (F2R (filtered_v_vtc g') <= 4)%R ->
     (Rabs (F2R (F_vtc c)
            - forceOfVoltage (filtered_v_vtc g') (v_rest_vtc g) (23 / (324 / 10)))
      <= / 2048)%R)).
Proof.
  apply (ensures_weaken _ _ _ (loop_pass r g)).
  intros [[g' c] row] H.
  rewrite (pass_F_left _ _ _ _ _ H), (pass_F_right _ _ _ _ _ H), (pass_F_vtc _ _ _ _ _ H).
  refine (conj _ (conj _ _)); intros W B; apply force_value; auto.
Qed.

Lemma force_is_polynomial_witness :
  ensures calibrated_pass (fun '(g', c, _) =>
    (Rabs (F2R (F_left c)
           - forceOfVoltage (filtered_v_left g') (adcVoltage 1500) 1) <= / 2048)%R).
Proof.
  pose proof (force_is_polynomial (readingsAt 3000 3000 3000 0) loadedInFront) as H.
  change (loop _ _) with calibrated_pass in H.
  unfold calibrated_pass, ensures in *.
  destruct H as (Hl & _).
  apply Hl; [ repeat split | ].
  cbn [filtered_v_left]. change (-22) with (Z.opp 22).
  rewrite (F2R_scaled _ 22) by lia. change (IZR (2 ^ 22)) with 4194304%R. lra.
Defined.

(** ** More on passes and runs *)

(** X10.  Whatever the state and the readings, the three forces of a pass are
    finite numbers between 0 and 128, and their sum is a finite number
    between 0 and 385. *)
Theorem forces_bounded (r : Readings) (g : Sketch) :
  ensures (loop r g) (fun '(_, c, _) =>
    (is_weight (F_left c) /\ (F2R (F_left c) <= 128)%R) /\
    (is_weight (F_right c) /\ (F2R (F_right c) <= 128)%R) /\
    (is_weight (F_vtc c) /\ (F2R (F_vtc c) <= 128)%R) /\
    (is_weight (F_tot c) /\ (F2R (F_tot c) <= 385)%R)).
Proof.
  apply (ensures_weaken _ _ _ (loop_pass r g)).
  intros [[g' c] row] H.
  assert (Wl : is_weight (F_left c) /\ (F2R (F_left c) <= 128)%R).
  { rewrite (pass_F_left _ _ _ _ _ H), (pass_filtered_left _ _ _ _ _ H).
    apply force_weight; [ apply ema_is_float | auto ]. }
  assert (Wr : is_weight (F_right c) /\ (F2R (F_right c) <= 128)%R).
  { rewrite (pass_F_right _ _ _ _ _ H), (pass_filtered_right _ _ _ _ _ H).
    apply force_weight; [ apply ema_is_float | auto ]. }
  assert (Wv : is_weight (F_vtc c) /\ (F2R (F_vtc c) <= 128)%R).
  { rewrite (pass_F_vtc _ _ _ _ _ H), (pass_filtered_vtc _ _ _ _ _ H).
    apply force_weight; [ apply ema_is_float | auto ]. }
  refine (conj Wl (conj Wr (conj Wv _))).
  destruct Wl as (Wl & Bl), Wr as (Wr & Br), Wv as (Wv & Bv).
  pose proof (F2R_nonneg _ (proj1 (proj2 Wl))) as Pl.
  pose proof (F2R_nonneg _ (proj1 (proj2 Wr))) as Pr.
  pose proof (F2R_nonneg _ (proj1 (proj2 Wv))) as Pv.
  rewrite (pass_F_tot _ _ _ _ _ H).
  destruct (add_weight _ _ Wl Wr ltac:(lra)) as (Wlr & Clr).
  pose proof (F2R_nonneg _ (proj1 (proj2 Wlr))) as Plr.
  unfold close in Clr.
  destruct (add_weight _ _ Wlr Wv ltac:(lra)) as (Wt & Ct).
  pose proof (F2R_nonneg _ (proj1 (proj2 Wt))) as Pt.
  unfold close in Ct.
  split; [ exact Wt | lra ].
Qed.

Lemma force_zero_cases v b c :
  is_float v ->
  c = C_REL_LEFT \/ c = C_REL_RIGHT \/ c = C_REL_VTC ->
  flt v V_1_66 = true \/ fle v b = true ->
  forceFromVoltage v b c SYSTEM_FORCE_SCALE = F32.zero.
Proof.
  intros Hv Hc Hcase.
  assert (Hraw : voltageToRawUnit v b = F32.zero).
  { destruct Hcase as [Hlt | Hle].
    - apply raw_negative, transfer_below_root; assumption.
    - apply raw_below_baseline; assumption. }
  destruct (force_of_zero_raw v b Hraw) as (Hl & Hr & Hvt).
  destruct Hc as [-> | [-> | ->]]; assumption.
Qed.

(** X11.  A pass on which every filtered voltage is below [1.66f] or not above
    its rest baseline computes three forces [0.0f] and the sum [0.0f], is
    not rested, has NaN coordinates and leaves [was_in_deadzone] false. *)
Theorem unloaded_pass (r : Readings) (g : Sketch) :
  ensures (loop r g) (fun '(g', c, _) =>
    (flt (filtered_v_left g') V_1_66 = true \/
     fle (filtered_v_left g') (v_rest_left g) = true) ->
    (flt (filtered_v_right g') V_1_66 = true \/
     fle (filtered_v_right g') (v_rest_right g) = true) ->
    (flt (filtered_v_vtc g') V_1_66 = true \/
     fle (filtered_v_vtc g') (v_rest_vtc g) = true) ->
    F_left c = F32.zero /\ F_right c = F32.zero /\ F_vtc c = F32.zero /\
    F_tot c = F32.zero /\ isArmRested c = false /\
    cop_x c = NAN /\ cop_y c = NAN /\ copStateChanged c = false /\
    was_in_deadzone g' = false).
Proof.
  apply (ensures_weaken _ _ _ (loop_pass r g)).
  intros [[g' c] row] H Hl Hr Hv.
  assert (Fl : F_left c = F32.zero).
  { rewrite (pass_F_left _ _ _ _ _ H). apply force_zero_cases; auto.
    rewrite (pass_filtered_left _ _ _ _ _ H); apply ema_is_float. }
  assert (Fr : F_right c = F32.zero).
  { rewrite (pass_F_right _ _ _ _ _ H). apply force_zero_cases; auto.
    rewrite (pass_filtered_right _ _ _ _ _ H); apply ema_is_float. }
  assert (Fv : F_vtc c = F32.zero).
  { rewrite (pass_F_vtc _ _ _ _ _ H). apply force_zero_cases; auto.
    rewrite (pass_filtered_vtc _ _ _ _ _ H); apply ema_is_float. }
  assert (Ft : F_tot c = F32.zero)
    by (rewrite (pass_F_tot _ _ _ _ _ H), Fl, Fr, Fv; reflexivity).
  assert (Hrest : isArmRested c = false)
    by (rewrite (pass_isArmRested _ _ _ _ _ H), Ft; reflexivity).
  pose proof (pass_cop _ _ _ _ _ H) as Hcop; rewrite Hrest in Hcop.
  destruct Hcop as (Hx & Hy & Hnow & Hch).
  pose proof (pass_was _ _ _ _ _ H) as Hwas; rewrite Hnow in Hwas.
  repeat split; assumption.
Qed.

Lemma unloaded_pass_witness :
  ensures unrested_pass (fun '(g', c, _) =>
    F_tot c = F32.zero /\ isArmRested c = false /\ was_in_deadzone g' = false).
Proof.
  pose proof (unloaded_pass (readingsAt 1500 1500 1500 0) (inZone restedAt1500)) as H.
  change (loop _ _) with unrested_pass in H.
  unfold unrested_pass, ensures in *.
  destruct (H (or_introl eq_refl) (or_introl eq_refl) (or_introl eq_refl))
    as (_ & _ & _ & Ht & Hr & _ & _ & _ & Hw).
  exact (conj Ht (conj Hr Hw)).
Defined.

(** X12.  For every [float] voltage and every baseline, NaN and infinities
    included, [voltageToRawUnit] returns a finite number between 0 and 17;
    it returns [0.0f] for a voltage that is a NaN or an infinity. *)
Theorem raw_unit_range (voltage v_rest : float) :
  is_float voltage ->
  is_weight (voltageToRawUnit voltage v_rest) /\
  (0 <= F2R (voltageToRawUnit voltage v_rest) <= 17)%R /\
  (is_finite voltage = false -> voltageToRawUnit voltage v_rest = F32.zero).
Proof.
  intros Hv.
  destruct (raw_weight voltage v_rest Hv) as (W & B).
  refine (conj W (conj (conj (F2R_nonneg _ (proj1 (proj2 W))) B) _)).
  intros Hinf; unfold voltageToRawUnit.
  destruct (fle voltage v_rest); [ reflexivity | ].
  destruct voltage as [s | [ | ] | | s m e]; try discriminate; reflexivity.
Qed.

Lemma raw_unit_range_witness :
  voltageToRawUnit NAN (adcVoltage 1500) = F32.zero /\
  (F2R (voltageToRawUnit (adcVoltage 4095) (adcVoltage 1500)) <= 17)%R.
Proof.
  split.
  - apply (raw_unit_range NAN (adcVoltage 1500) eq_refl); reflexivity.
  - apply (raw_unit_range (adcVoltage 4095) (adcVoltage 1500) eq_refl).
Defined.

(** X13.  The telemetry gate measures the time since the last row modulo
    [2^32]: when that time is below [2^32] ms, a row is written exactly
    when it is at least 50 ms, also when [millis()] has wrapped around in
    between, and [lastLogTime] is then the clock read after the test. *)
Theorem gate_across_wrap (r : Readings) (g : Sketch) (s : Z) :
  lastLogTime g = millis s ->
  0 <= clock_gate r - s < ULONG ->
  ensures (loop r g) (fun '(g', _, row) =>
    (row <> None <-> LOG_INTERVAL_MS <= clock_gate r - s) /\
    lastLogTime g' =
      if LOG_INTERVAL_MS <=? clock_gate r - s then millis (clock_store r)
      else lastLogTime g).
Proof.
  intros Hs Ht.
  apply (ensures_weaken _ _ _ (loop_pass r g)).
  intros [[g' c] row] H.
  pose proof (pass_row _ _ _ _ _ H) as Hrow.
  pose proof (pass_lastLogTime _ _ _ _ _ H) as Hlast.
  assert (Hdue : logDue (clock_gate r) (lastLogTime g)
                 = (LOG_INTERVAL_MS <=? clock_gate r - s)).
  { rewrite Hs; unfold logDue. rewrite ulong_sub, Z.mod_small by exact Ht. reflexivity. }
  rewrite Hdue in Hrow, Hlast.
  split; [ | exact Hlast ].
  destruct (LOG_INTERVAL_MS <=? clock_gate r - s) eqn:E; rewrite Hrow.
  - apply Z.leb_le in E; split; [ intros _; exact E | intros _; discriminate ].
  - apply Z.leb_gt in E; split; [ intros Hn; exfalso; apply Hn; reflexivity | lia ].
Qed.

Lemma gate_across_wrap_witness :
  ensures (loop (readingsAt 1500 1500 1500 (ULONG + 45))
                (mkSketch (ULONG - 10) F32.zero F32.zero F32.zero
                          F32.zero F32.zero F32.zero false))
    (fun '(g', _, row) => row <> None /\ lastLogTime g' = 45).
Proof.
  pose proof (gate_across_wrap (readingsAt 1500 1500 1500 (ULONG + 45))
                (mkSketch (ULONG - 10) F32.zero F32.zero F32.zero
                          F32.zero F32.zero F32.zero false)
                (ULONG - 10) eq_refl ltac:(vm_compute; split; [ discriminate | reflexivity ])) as H.
  destruct (loop _ _) as [[[g' c] row] | ]; [ | exact H ].
  destruct H as (Hrow & Hlast).
  split; [ apply Hrow; vm_compute; discriminate | exact Hlast ].
Defined.

(** X14.  A run of any readings from any state never faults; it computes one
    set of local variables per pass, writes at most one row per pass, and
    leaves the three rest baselines as they were. *)
Theorem run_keeps_baselines (rs : list Readings) : forall (g : Sketch),
  ensures (run rs g) (fun '(g', cs, rows) =>
    length cs = length rs /\ (length rows <= length rs)%nat /\
    v_rest_left g' = v_rest_left g /\
    v_rest_right g' = v_rest_right g /\
    v_rest_vtc g' = v_rest_vtc g).
Proof.
  induction rs as [ | r rs IH]; intros g; [ simpl; auto | ].
  apply run_cons, (ensures_weaken _ _ _ (loop_pass r g)).
  intros [[g1 c] row] H.
  apply (ensures_weaken _ _ _ (IH g1)).
  intros [[g2 cs] rows] (Hc & Hr & Hl & Hri & Hv).
  rewrite Hl, Hri, Hv.
  rewrite (pass_rest_left _ _ _ _ _ H), (pass_rest_right _ _ _ _ _ H),
          (pass_rest_vtc _ _ _ _ _ H).
  destruct row; simpl; repeat split; try reflexivity; lia.
Qed.

Lemma zero_plus_weight x : is_weight x -> F32.add (F32.add x F32.zero) F32.zero = x.
Proof.
  intros Hx; destruct (weight_cases x Hx) as [-> | (m & e & -> & B)]; reflexivity.
Qed.

(** X16.  On a rested pass with the forces of the right and vertex sensors
    [0.0f], the sum of the forces is the force of the left sensor, the
    centre of pressure is exactly the position (0, 0) of the left sensor,
    and it is outside the dead zone. *)
Theorem cop_at_left_sensor (r : Readings) (g : Sketch) :
  ensures (loop r g) (fun '(g', c, _) =>
    isArmRested c = true -> F_right c = F32.zero -> F_vtc c = F32.zero ->
    F_tot c = F_left c /\
    cop_x c = fst P_LEFT_XY /\ cop_y c = snd P_LEFT_XY /\
    now_in_deadzone c = false /\ was_in_deadzone g' = false).
Proof.
  apply (ensures_weaken _ _ _ (loop_pass r g)).
  intros [[g' c] row] H Hrest Hr Hv.
  assert (Wl : is_weight (F_left c)).
  { rewrite (pass_F_left _ _ _ _ _ H), (pass_filtered_left _ _ _ _ _ H).
    apply force_weight; [ apply ema_is_float | auto ]. }
  assert (Ht : F_tot c = F_left c)
    by (rewrite (pass_F_tot _ _ _ _ _ H), Hr, Hv; apply zero_plus_weight, Wl).
  pose proof (pass_isArmRested _ _ _ _ _ H) as Hgt.
  rewrite Hrest, Ht in Hgt; symmetry in Hgt.
  pose proof (pass_cop _ _ _ _ _ H) as Hcop; rewrite Hrest, Hr, Hv, Ht in Hcop.
  destruct Hcop as (Hx & Hy & Hnow & _).
  pose proof (rested_positive _ Hgt) as Hpos.
  apply flt_zero_iff in Hpos.
  destruct Hpos as [E | (m & e & E)];
    [ destruct Wl as (_ & _ & Wf); rewrite E in Wf; discriminate | ].
  rewrite E in Hx, Hy.
  assert (Cx : cop_x c = F32.zero) by (rewrite Hx; reflexivity).
  assert (Cy : cop_y c = F32.zero) by (rewrite Hy; reflexivity).
  rewrite Cx, Cy in Hnow.
  assert (Hout : now_in_deadzone c = false) by (rewrite Hnow; vm_compute; reflexivity).
  refine (conj Ht (conj Cx (conj Cy (conj Hout _)))).
  rewrite (pass_was _ _ _ _ _ H); exact Hout.
Qed.

Lemma cop_at_left_sensor_witness :
  ensures left_pass (fun '(_, c, _) =>
    isArmRested c = true /\ cop_x c = F32.zero /\ cop_y c = F32.zero /\
    now_in_deadzone c = false).
Proof.
  pose proof (cop_at_left_sensor (readingsAt 3000 1500 1500 0) loadedOnLeft) as H.
  change (loop _ _) with left_pass in H.
  unfold left_pass, ensures in *.
  destruct (H eq_refl eq_refl eq_refl) as (_ & Hx & Hy & Hn & _).
  exact (conj eq_refl (conj Hx (conj Hy Hn))).
Defined.

(** X17.  Lifting the arm forgets the dead zone: on a rested pass that follows
    a pass that was not rested, [copStateChanged] is raised exactly when the
    centre of pressure is in the dead zone, whatever it was before. *)
Theorem rested_after_unrested (r1 r2 : Readings) (g : Sketch) :
  ensures (run [r1; r2] g) (fun '(g', cs, _) =>
    exists c1 c2, cs = [c1; c2] /\
      (isArmRested c1 = false -> isArmRested c2 = true ->
       copStateChanged c2 = now_in_deadzone c2 /\
       was_in_deadzone g' = now_in_deadzone c2)).
Proof.
  apply run_cons, (ensures_weaken _ _ _ (loop_pass r1 g)).
  intros [[g1 c1] row1] H1.
  apply run_cons, (ensures_weaken _ _ _ (loop_pass r2 g1)).
  intros [[g2 c2] row2] H2.
  simpl. exists c1, c2. split; [ reflexivity | ].
  intros Hu Hr.
  pose proof (pass_cop _ _ _ _ _ H1) as Hc1; rewrite Hu in Hc1.
  destruct Hc1 as (_ & _ & Hnow1 & _).
  pose proof (pass_was _ _ _ _ _ H1) as Hw1; rewrite Hnow1 in Hw1.
  pose proof (pass_cop _ _ _ _ _ H2) as Hc2; rewrite Hr, Hw1 in Hc2.
  destruct Hc2 as (_ & _ & _ & Hch).
  split; [ | exact (pass_was _ _ _ _ _ H2) ].
  rewrite Hch. destruct (now_in_deadzone c2); reflexivity.
Qed.

Lemma rested_after_unrested_witness :
  ensures liftThenRest_run (fun '(_, cs, _) =>
    exists c1 c2, cs = [c1; c2] /\
      isArmRested c1 = false /\ isArmRested c2 = true /\ copStateChanged c2 = true).
Proof.
  pose proof (rested_after_unrested (readingsAt 2040 2040 2040 0)
                (readingsAt 4095 4095 4095 0) belowRoot) as H.
  change (run _ _) with liftThenRest_run in H.
  unfold liftThenRest_run, ensures in *.
  destruct H as (c1 & c2 & E & H).
  exists c1, c2. split; [ exact E | ].
  injection E as <- <-.
  destruct (H eq_refl eq_refl) as (Hch & _).
  exact (conj eq_refl (conj eq_refl Hch)).
Defined.

(** ** From the samples to the forces *)

Lemma inRange_below_4 v : inRange v -> is_weight v /\ (F2R v <= 4)%R.
Proof. intros (W & B); split; [ exact W | lra ]. Qed.

(** The forces of every pass of a run, from the counts read so far. *)
Lemma run_forces rs : forall g,
  Forall readings12bits rs ->
  inRange (filtered_v_left g) -> inRange (filtered_v_right g) -> inRange (filtered_v_vtc g) ->
  ensures (run rs g) (fun '(_, cs, _) =>
    forall i c, nth_error cs i = Some c ->
      forcesNear c
        (forceOnPass (map adc_left rs) (filtered_v_left g) (v_rest_left g) 1 i)
        (forceOnPass (map adc_right rs) (filtered_v_right g) (v_rest_right g) (23 / 26) i)
        (forceOnPass (map adc_vtc rs) (filtered_v_vtc g) (v_rest_vtc g) (23 / (324 / 10)) i)).
Proof.
  induction rs as [ | r rs IH]; intros g Hrs Hl Hr Hv.
  - simpl. intros [ | i] c E; discriminate.
  - apply Forall_cons_iff in Hrs. destruct Hrs as ((Cl & Cr & Cv) & Hrs).
    apply run_cons, (ensures_weaken _ _ _ (loop_pass r g)).
    intros [[g1 c1] row] H.
    pose proof (ema_range _ _ Cl Hl) as Rl.
    pose proof (ema_range _ _ Cr Hr) as Rr.
    pose proof (ema_range _ _ Cv Hv) as Rv.
    rewrite <- (pass_filtered_left _ _ _ _ _ H) in Rl.
    rewrite <- (pass_filtered_right _ _ _ _ _ H) in Rr.
    rewrite <- (pass_filtered_vtc _ _ _ _ _ H) in Rv.
    apply (ensures_weaken _ _ _ (IH g1 Hrs Rl Rr Rv)).
    intros [[g2 cs] rows] Hcs [ | i] c E.
    + injection E as <-.
      unfold forcesNear, forceOnPass. cbn [map firstn filterOver fold_left].
      rewrite <- (pass_filtered_left _ _ _ _ _ H), <- (pass_filtered_right _ _ _ _ _ H),
              <- (pass_filtered_vtc _ _ _ _ _ H).
      rewrite (pass_F_left _ _ _ _ _ H), (pass_F_right _ _ _ _ _ H), (pass_F_vtc _ _ _ _ _ H).
      destruct (inRange_below_4 _ Rl) as (Wl & Bl).
      destruct (inRange_below_4 _ Rr) as (Wr & Br).
      destruct (inRange_below_4 _ Rv) as (Wv & Bv).
      refine (conj _ (conj _ _)); apply force_value; auto.
    + specialize (Hcs i c E).
      rewrite (pass_rest_left _ _ _ _ _ H), (pass_rest_right _ _ _ _ _ H),
              (pass_rest_vtc _ _ _ _ _ H) in Hcs.
      rewrite (pass_filtered_left _ _ _ _ _ H), (pass_filtered_right _ _ _ _ _ H),
              (pass_filtered_vtc _ _ _ _ _ H) in Hcs.
      exact Hcs.
Qed.

Lemma forces_from_baselines rs l r v :
  Forall readings12bits rs -> inRange l -> inRange r -> inRange v ->
  let g := mkSketch 0 l r v l r v false in
  ensures (run rs g) (fun '(_, cs, _) =>
    forall i c, nth_error cs i = Some c ->
      forcesNear c
        (forceOnPass (map adc_left rs) (v_rest_left g) (v_rest_left g) 1 i)
        (forceOnPass (map adc_right rs) (v_rest_right g) (v_rest_right g) (23 / 26) i)
        (forceOnPass (map adc_vtc rs) (v_rest_vtc g) (v_rest_vtc g) (23 / (324 / 10)) i)).
Proof.
  intros Hrs Rl Rr Rv g.
  exact (run_forces rs g Hrs Rl Rr Rv).
Qed.

(** X18.  From power-on to the forces: when the samples of the auto-zeroing
    and the counts of the run are those of a 12-bit converter, the three
    forces of every pass of the run are within [2^-11] of the polynomial,
    with the constants of the source, of the filter over the counts read so
    far, started at the rest baseline of [setup()]. *)
Theorem forces_from_power_on (sample : nat -> Z * Z * Z) (rs : list Readings) :
  (forall i, (i < ZEROING_SAMPLES)%nat ->
     in12bits (leftOf sample i) /\ in12bits (rightOf sample i) /\ in12bits (vtcOf sample i)) ->
  Forall readings12bits rs ->
  let g := setup sample in
  ensures (run rs g) (fun '(_, cs, _) =>
    forall i c, nth_error cs i = Some c ->
      forcesNear c
        (forceOnPass (map adc_left rs) (v_rest_left g) (v_rest_left g) 1 i)
        (forceOnPass (map adc_right rs) (v_rest_right g) (v_rest_right g) (23 / 26) i)
        (forceOnPass (map adc_vtc rs) (v_rest_vtc g) (v_rest_vtc g) (23 / (324 / 10)) i)).
Proof.
  intros Hs Hrs.
  rewrite setup_unfolded. cbv zeta.
  apply forces_from_baselines; [ exact Hrs | | | ].
  - apply (baseline_value (leftOf sample) (fun i Hi => proj1 (Hs i Hi))).
  - apply (baseline_value (rightOf sample) (fun i Hi => proj1 (proj2 (Hs i Hi)))).
  - apply (baseline_value (vtcOf sample) (fun i Hi => proj2 (proj2 (Hs i Hi)))).
Qed.

Lemma forces_from_power_on_witness :
  ensures (run pressRight (setup (fun _ => (1500, 1500, 1500)))) (fun '(_, cs, _) =>
    forall i c, nth_error cs i = Some c ->
      let b := v_rest_right (setup (fun _ => (1500, 1500, 1500))) in
      (Rabs (F2R (F_right c) - forceOnPass (map adc_right pressRight) b b (23 / 26) i)
       <= / 2048)%R).
Proof.
  pose proof (forces_from_power_on (fun _ => (1500, 1500, 1500)) pressRight) as H.
  cbv zeta in H.
  refine (ensures_weaken _ _ _ (H _ _) _).
  - intros i _. unfold in12bits, leftOf, rightOf, vtcOf; cbn [fst snd]. lia.
  - apply Forall_forall; intros r Hr; apply repeat_spec in Hr; subst r.
    unfold readings12bits, in12bits; simpl; lia.
  - intros [[g' cs] rows] Hcs i c E. exact (proj1 (proj2 (Hcs i c E))).
Defined.

(** ** The calibrated force, for every voltage *)

(** The polynomial as [voltageToRawUnit] evaluates it, for a voltage between
    0 and 9. *)
Lemma transfer_value_wide v :
  is_weight v -> (F2R v <= 9)%R ->
  is_float (transfer v) /\ is_finite (transfer v) = true /\
  (Rabs (F2R (transfer v) - polynomial (F2R v)) <= / 4096)%R.
Proof.
  intros Wv Bv.
  pose proof (F2R_nonneg _ (proj1 (proj2 Wv))) as Pv.
  destruct Wv as (Vv & _ & Fv).
  set (V := F2R v) in *.
  pose proof F2R_P1 as E1. pose proof F2R_P2 as E2. pose proof F2R_P3 as E3.
  assert (E1' : F2R P1 = (- (8974623 / 4194304))%R).
  { rewrite (negative_value P1 eq_refl), E1. reflexivity. }
  unfold transfer, polynomial. fold V.
  (* P1 * voltage *)
  destruct (mul_finite_value P1 v eq_refl eq_refl Vv Fv) as (V1 & F1 & N1).
  { fold V. rewrite E1'. apply Rabs_def1; nra. }
  fold V in N1.
  destruct (near_bounds _ _ 20 N1) as (B1 & D1).
  { rewrite E1'. apply Rabs_le; nra. }
  apply Rabs_bounds in B1. apply Rabs_bounds in D1.
  set (m1 := F2R (F32.mul P1 v)) in *.
  (* (P1 * voltage) * voltage *)
  assert (Hm1V : (- (21 * 9) <= m1 * V <= 21 * 9)%R) by (apply product_bounds; lra).
  destruct (mul_finite_value (F32.mul P1 v) v V1 F1 Vv Fv) as (V2 & F2 & N2).
  { fold V m1. apply Rabs_def1; lra. }
  fold V m1 in N2.
  destruct (near_bounds _ _ 189 N2) as (B2 & D2).
  { apply Rabs_le; lra. }
  apply Rabs_bounds in B2. apply Rabs_bounds in D2.
  set (m2 := F2R (F32.mul (F32.mul P1 v) v)) in *.
  (* P2 * voltage *)
  destruct (mul_finite_value P2 v eq_refl eq_refl Vv Fv) as (V3 & F3 & N3).
  { fold V. rewrite E2. apply Rabs_def1; nra. }
  fold V in N3.
  destruct (near_bounds _ _ 171 N3) as (B3 & D3).
  { rewrite E2. apply Rabs_le; nra. }
  apply Rabs_bounds in B3. apply Rabs_bounds in D3.
  set (m3 := F2R (F32.mul P2 v)) in *.
  (* the two sums *)
  destruct (add_finite_near _ _ V2 F2 V3 F3) as (V4 & F4 & N4).
  { fold m2 m3. apply Rabs_def1; lra. }
  fold m2 m3 in N4.
  destruct (near_bounds _ _ 361 N4) as (B4 & D4).
  { apply Rabs_le; lra. }
  apply Rabs_bounds in B4. apply Rabs_bounds in D4.
  set (s1 := F2R (F32.add (F32.mul (F32.mul P1 v) v) (F32.mul P2 v))) in *.
  destruct (add_finite_near _ P3 V4 F4 eq_refl eq_refl) as (V5 & F5 & N5).
  { fold s1. rewrite E3. apply Rabs_def1; lra. }
  fold s1 in N5.
  destruct (near_bounds _ _ 388 N5) as (B5 & D5).
  { rewrite E3. apply Rabs_le; lra. }
  apply Rabs_bounds in D5.
  refine (conj V5 (conj F5 _)).
  assert (HV : (- (21 / 8000000 * 9) <= m1 * V - F2R P1 * (V * V) <= 21 / 8000000 * 9)%R).
  { replace (m1 * V - F2R P1 * (V * V))%R with ((m1 - F2R P1 * V) * V)%R by ring.
    apply product_bounds; lra. }
  assert (HVV : (0 <= V * V <= 9 * 9)%R) by (apply product_range; lra).
  rewrite E1' in *. rewrite E2 in *. rewrite E3 in *.
  apply Rabs_le. lra.
Qed.

(** Where the polynomial comes out positive the voltage is below 9. *)
Lemma transfer_positive_range v :
  is_float v -> flt F32.zero (transfer v) = true ->
  (F2R v < 9)%R.
Proof.
  intros Hv Hpos.
  destruct v as [s | s | | s m e];
    [ exfalso; destruct s; vm_compute in Hpos; discriminate
    | exfalso; destruct s; vm_compute in Hpos; discriminate
    | exfalso; vm_compute in Hpos; discriminate
    | ].
  destruct s.
  { exfalso. rewrite (not_positive_of_sign _ (transfer_negative m e)) in Hpos; discriminate. }
  unfold transfer in *.
  set (v := S754_finite false m e) in *.
  set (V := (IZR (Zpos m) * bpow e)%R).
  assert (HV : (0 < V)%R).
  { subst V. pose proof (bpow_pos e). assert (0 < IZR (Zpos m))%R by (apply IZR_lt; lia). nra. }
  (* the two products by the voltage *)
  pose proof (SFmul_rounds F32.prec F32.emax ltac:(reflexivity) ltac:(reflexivity)
                true 8974623 (-22) false m e P1_bounded Hv) as R1.
  pose proof (SFmul_rounds F32.prec F32.emax ltac:(reflexivity) ltac:(reflexivity)
                false 9944993 (-19) false m e P2_bounded Hv) as R2.
  change (SFmul F32.prec F32.emax (S754_finite true 8974623 (-22)) (S754_finite false m e))
    with (F32.mul P1 v) in R1.
  change (SFmul F32.prec F32.emax (S754_finite false 9944993 (-19)) (S754_finite false m e))
    with (F32.mul P2 v) in R2.
  fold V in R1, R2. simpl xorb in R1, R2.
  assert (E1 : (IZR (Zpos 8974623) * bpow (-22) = 8974623 / 4194304)%R).
  { change (-22) with (Z.opp 22). rewrite bpow_neg, (bpow_IZR 22) by lia.
    change (IZR (2 ^ 22)) with 4194304%R. lra. }
  assert (E2 : (IZR (Zpos 9944993) * bpow (-19) = 9944993 / 524288)%R).
  { change (-19) with (Z.opp 19). rewrite bpow_neg, (bpow_IZR 19) by lia.
    change (IZR (2 ^ 19)) with 524288%R. lra. }
  rewrite E1 in R1. rewrite E2 in R2.
  assert (SB : has_sign false (F32.mul P2 v)) by apply R2.
  set (t1 := F32.mul P1 v) in *.
  set (B := F32.mul P2 v) in *.
  pose proof (positive_before_P3 _ Hpos) as HposX.
  (* the first product overflows, or not *)
  destruct (rounds_cases 1 true _ t1 ltac:(lra) R1) as [Et1 | (Ft1 & St1 & Vt1 & Ct1 & _)].
  { exfalso. rewrite Et1 in Hpos. simpl F32.mul in Hpos.
    rewrite (not_positive_after_inf B SB) in Hpos; discriminate. }
  assert (SA : has_sign true (F32.mul t1 v))
    by (apply (SFmul_finite_sign F32.prec F32.emax true t1 false m e St1)).
  assert (HA : F32.mul t1 v = S754_infinity true \/
               (is_finite (F32.mul t1 v) = true /\ is_float (F32.mul t1 v) /\
                close 1 (Rabs (F2R (F32.mul t1 v))) (Rabs (F2R t1) * V) /\
                (Rabs (F2R (F32.mul t1 v)) < 2 ^ 128)%R)).
  { destruct (finite_cases t1 Vt1 Ft1) as [(s1 & E) | (s1 & m1 & e1 & E & B1)];
      rewrite E in St1 |- *; simpl in St1; subst s1.
    - right. simpl. rewrite Rabs_R0, Rmult_0_l.
      refine (conj eq_refl (conj eq_refl (conj _ _))); [ unfold close; lra | lra ].
    - pose proof (SFmul_rounds F32.prec F32.emax ltac:(reflexivity) ltac:(reflexivity)
                    true m1 e1 false m e B1 Hv) as RA.
      fold V in RA. simpl xorb in RA.
      replace (Rabs (F2R (S754_finite true m1 e1))) with (IZR (Zpos m1) * bpow e1)%R.
      + destruct (rounds_cases 1 true _ _ ltac:(lra) RA) as [EA | (FA & _ & VA & CA & MA)];
          [ left; exact EA | right; exact (conj FA (conj VA (conj CA MA))) ].
      + simpl. pose proof (bpow_pos e1).
        assert (0 < IZR (Zpos m1))%R by (apply IZR_lt; lia).
        rewrite Rabs_left; nra. }
  destruct HA as [EA | (FA & VA & CA & MA)].
  { exfalso. rewrite EA in Hpos.
    rewrite (not_positive_after_inf B SB) in Hpos; discriminate. }
  set (A := F32.mul t1 v) in *.
  pose proof (Rabs_pos (F2R t1)) as PT. pose proof (Rabs_pos (F2R A)) as PA.
  (* the voltage is far below the overflow of the second product *)
  assert (HVb : (V < 2 ^ 65)%R).
  { destruct (Rlt_le_dec V (2 ^ 65)) as [H | H]; [ exact H | exfalso ].
    unfold close in Ct1, CA.
    assert (Rabs (F2R t1) >= V)%R by nra.
    assert (Rabs (F2R t1) * V >= 2 ^ 65 * 2 ^ 65)%R by nra.
    nra. }
  destruct (rounds_close 1 _ B ltac:(lra) R2 ltac:(nra)) as (WB & CB).
  pose proof (F2R_nonneg B SB) as PB.
  (* the sum of the two products is positive *)
  destruct (add_upper A B VA FA (proj1 WB) (proj2 (proj2 WB))
              ltac:(rewrite (negative_value A SA); unfold close in CB; nra) HposX)
    as (_ & _ & PX).
  rewrite (negative_value A SA) in PX.
  assert (EV : F2R v = V) by (subst v V; apply F2R_finite_false).
  rewrite EV.
  destruct (Rlt_le_dec V 9) as [Hlt | Hge]; [ exact Hlt | exfalso ].
  unfold close in Ct1, CA, CB.
  assert (HT : (19 <= Rabs (F2R t1))%R) by lra.
  assert (HTV : (0 <= (Rabs (F2R t1) - 19) * V)%R) by (apply Rmult_le_pos; lra).
  lra.
Qed.

Lemma polynomial_negative (V : R) : (V <= 0 \/ 9 <= V)%R -> (polynomial V < 0)%R.
Proof.
  intros [H | H]; unfold polynomial.
  - assert (0 <= V * V)%R by nra. lra.
  - assert (0 <= (V - 9) * V)%R by (apply Rmult_le_pos; lra). lra.
Qed.

(** The raw unit, for every voltage that is a number. *)
Lemma raw_value_any v b :
  is_float v -> is_finite v = true ->
  (Rabs (F2R (voltageToRawUnit v b)
         - (if fle v b then 0 else Rmax 0 (polynomial (F2R v)))) <= / 4096)%R.
Proof.
  intros Vv Fv. unfold voltageToRawUnit.
  destruct (fle v b).
  { simpl F2R. rewrite Rminus_0_r, Rabs_R0. lra. }
  cbv zeta.
  assert (Hzero : forall V, (V <= 0 \/ 9 <= V)%R ->
            (Rabs (F2R F32.zero - Rmax 0 (polynomial V)) <= / 4096)%R).
  { intros V HV. pose proof (polynomial_negative V HV).
    rewrite Rmax_left by lra. simpl F2R. rewrite Rminus_0_r, Rabs_R0. lra. }
  destruct (finite_cases v Vv Fv) as [(s & ->) | (s & m & e & -> & B)].
  - replace (max F32.zero (transfer (S754_zero s))) with F32.zero
      by (destruct s; vm_compute; reflexivity).
    apply Hzero. left. simpl. lra.
  - destruct s.
    + unfold max. rewrite (not_positive_of_sign _ (transfer_negative m e)).
      apply Hzero. left.
      pose proof (F2R_finite_pos m e) as P.
      replace (F2R (S754_finite true m e)) with (- F2R (S754_finite false m e))%R
        by (simpl; ring).
      lra.
    + set (v := S754_finite false m e) in *.
      assert (Wv : is_weight v) by (repeat split; exact Vv).
      destruct (Rle_dec (F2R v) 9) as [Hle | Hgt].
      * destruct (transfer_value_wide v Wv Hle) as (Vt & Ft & Nt).
        rewrite (max_zero_value _ Vt Ft). apply Rmax_near, Nt.
      * assert (Hn : flt F32.zero (transfer v) = false).
        { destruct (flt F32.zero (transfer v)) eqn:E; [ exfalso | reflexivity ].
          pose proof (transfer_positive_range v Vv E). lra. }
        unfold max. rewrite Hn. apply Hzero. right. lra.
Qed.

(** The calibrated force of a channel, for every voltage that is a number. *)
Lemma force_value_any v b c k :
  is_float v -> is_finite v = true ->
  c = C_REL_LEFT /\ k = 1%R \/ c = C_REL_RIGHT /\ k = (23 / 26)%R \/
  c = C_REL_VTC /\ k = (23 / (324 / 10))%R ->
  (Rabs (F2R (forceFromVoltage v b c SYSTEM_FORCE_SCALE) - forceOfVoltage v b k)
   <= / 512)%R.
Proof.
  intros Vv Fv Hc.
  pose proof (raw_value_any v b Vv Fv) as Hraw.
  destruct (raw_weight v b Vv) as (Wr & Br).
  assert (Hc' : c = C_REL_LEFT \/ c = C_REL_RIGHT \/ c = C_REL_VTC)
    by (destruct Hc as [(-> & _) | [(-> & _) | (-> & _)]]; auto).
  destruct (coefficient_weight c Hc') as (Wc & Bc).
  destruct scale_weight as (Ws & Bs).
  assert (Hk : (- / 10000000 <= F2R c - k <= / 10000000)%R).
  { destruct Hc as [(-> & ->) | [(-> & ->) | (-> & ->)]];
      [ unfold C_REL_LEFT; rewrite (F2R_scaled _ 23) by lia;
        change (IZR (2 ^ 23)) with 8388608%R
      | rewrite C_REL_RIGHT_value, (F2R_scaled _ 24) by lia;
        change (IZR (2 ^ 24)) with 16777216%R
      | rewrite C_REL_VTC_value, (F2R_scaled _ 24) by lia;
        change (IZR (2 ^ 24)) with 16777216%R ]; lra. }
  assert (Hs : (- (2 / 10000000) <= F2R SYSTEM_FORCE_SCALE - 591 / 100 <= 2 / 10000000)%R).
  { unfold SYSTEM_FORCE_SCALE. rewrite (F2R_scaled _ 21) by lia.
    change (IZR (2 ^ 21)) with 2097152%R. lra. }
  pose proof (F2R_nonneg _ (proj1 (proj2 Wr))) as Pr.
  pose proof (F2R_nonneg _ (proj1 (proj2 Wc))) as Pc.
  pose proof (F2R_nonneg _ (proj1 (proj2 Ws))) as Ps.
  unfold forceFromVoltage, forceOfVoltage. cbv zeta.
  set (raw := voltageToRawUnit v b) in *.
  set (R0 := (if fle v b then 0 else Rmax 0 (polynomial (F2R v)))%R) in *.
  apply Rabs_bounds in Hraw.
  pose proof (product_range _ _ 17 1 (conj Pr Br) (conj Pc Bc)) as Prc.
  destruct (mul_weight raw c Wr Wc ltac:(lra)) as (W1 & C1).
  pose proof (F2R_nonneg _ (proj1 (proj2 W1))) as P1.
  assert (B1 : (F2R (F32.mul raw c) <= 18)%R) by (unfold close in C1; lra).
  pose proof (product_range _ _ 18 6 (conj P1 B1) (conj Ps Bs)) as P1s.
  destruct (mul_weight _ SYSTEM_FORCE_SCALE W1 Ws ltac:(lra)) as (W2 & C2).
  pose proof (F2R_nonneg _ (proj1 (proj2 W2))) as P2.
  unfold close in C1, C2.
  set (F := F2R (F32.mul (F32.mul raw c) SYSTEM_FORCE_SCALE)) in *.
  set (K := F2R (F32.mul raw c)) in *.
  set (cs := (F2R c * F2R SYSTEM_FORCE_SCALE)%R).
  assert (Hcs : (0 <= cs <= 1 * 6)%R) by (subst cs; apply product_range; lra).
  assert (Hcs' : (- (2 / 1000000) <= cs - k * (591 / 100) <= 2 / 1000000)%R).
  { pose proof (product_bounds (F2R c - k) (F2R SYSTEM_FORCE_SCALE) _ 6 Hk ltac:(lra)).
    pose proof (product_bounds (F2R SYSTEM_FORCE_SCALE - 591 / 100) k _ 2 Hs ltac:(lra)).
    subst cs. lra. }
  assert (HR0 : (0 <= R0 <= 18)%R).
  { split; [ | lra ]. subst R0. destruct (fle v b); [ lra | apply Rmax_l ]. }
  assert (HK : (- (19 / 8000000) <= K - F2R raw * F2R c <= 19 / 8000000)%R) by lra.
  assert (HF : (- (110 / 8000000) <= F - K * F2R SYSTEM_FORCE_SCALE <= 110 / 8000000)%R)
    by lra.
  assert (HKs : (- (19 / 8000000 * 6)
                 <= (K - F2R raw * F2R c) * F2R SYSTEM_FORCE_SCALE
                 <= 19 / 8000000 * 6)%R) by (apply product_bounds; lra).
  assert (HR : (- (/ 4096 * 6) <= (F2R raw - R0) * cs <= / 4096 * 6)%R)
    by (apply product_bounds; lra).
  assert (HRk : (- (2 / 1000000 * 18) <= (cs - k * (591 / 100)) * R0
                 <= 2 / 1000000 * 18)%R) by (apply product_bounds; lra).
  apply Rabs_le.
  replace (R0 * k * (591 / 100))%R
    with (F2R raw * F2R c * F2R SYSTEM_FORCE_SCALE - (F2R raw - R0) * cs
          - (cs - k * (591 / 100)) * R0)%R
    by (subst cs; ring).
  replace (F2R raw * F2R c * F2R SYSTEM_FORCE_SCALE)%R
    with (K * F2R SYSTEM_FORCE_SCALE - (K - F2R raw * F2R c) * F2R SYSTEM_FORCE_SCALE)%R
    by ring.
  lra.
Qed.

Lemma above_baseline v b k :
  flt b v = true -> forceOfVoltage v b k = specifiedForce (F2R v) k (591 / 100).
Proof.
  intros H. unfold forceOfVoltage, specifiedForce.
  rewrite (fle_false_of_flt _ _ H). reflexivity.
Qed.

(** C1.  On every pass and for each channel: when the filtered voltage is
    strictly above the rest baseline, the calibrated force is the one the
    code writes, and for a filtered voltage [v] that is a number it is within
    [2^-9] of [max(0, P1 v^2 + P2 v + P3) * relativeSensitivity * globalScale]
    computed on the reals with the constants as the source writes them, the
    polynomial taken at [v] itself, whatever the baseline is; and the force
    is [>= 0] whatever the filtered voltage and the baseline are. *)
Theorem calibrated_force (r : Readings) (g : Sketch) :
  ensures (loop r g) (fun '(g', c, _) =>
    (flt (v_rest_left g) (filtered_v_left g') = true ->
     F_left c =
     F32.mul (F32.mul (max F32.zero (transfer (filtered_v_left g'))) C_REL_LEFT)
             SYSTEM_FORCE_SCALE /\
     (is_finite (filtered_v_left g') = true ->
      (Rabs (F2R (F_left c) - specifiedForce (F2R (filtered_v_left g')) 1 (591 / 100))
       <= / 512)%R)) /\
    (flt (v_rest_right g) (filtered_v_right g') = true ->
     F_right c =
     F32.mul (F32.mul (max F32.zero (transfer (filtered_v_right g'))) C_REL_RIGHT)
             SYSTEM_FORCE_SCALE /\
     (is_finite (filtered_v_right g') = true ->
      (Rabs (F2R (F_right c)
             - specifiedForce (F2R (filtered_v_right g')) (23 / 26) (591 / 100))
       <= / 512)%R)) /\
    (flt (v_rest_vtc g) (filtered_v_vtc g') = true ->
     F_vtc c =
     F32.mul (F32.mul (max F32.zero (transfer (filtered_v_vtc g'))) C_REL_VTC)
             SYSTEM_FORCE_SCALE /\
     (is_finite (filtered_v_vtc g') = true ->
      (Rabs (F2R (F_vtc c)
             - specifiedForce (F2R (filtered_v_vtc g')) (23 / (324 / 10)) (591 / 100))
       <= / 512)%R)) /\
    fle F32.zero (F_left c) = true /\
    fle F32.zero (F_right c) = true /\
    fle F32.zero (F_vtc c) = true).
Proof.
  apply (ensures_weaken _ _ _ (loop_pass r g)).
  intros [[g' c] row] H.
  assert (Vl : is_float (filtered_v_left g'))
    by (rewrite (pass_filtered_left _ _ _ _ _ H); apply ema_is_float).
  assert (Vr : is_float (filtered_v_right g'))
    by (rewrite (pass_filtered_right _ _ _ _ _ H); apply ema_is_float).
  assert (Vv : is_float (filtered_v_vtc g'))
    by (rewrite (pass_filtered_vtc _ _ _ _ _ H); apply ema_is_float).
  rewrite (pass_F_left _ _ _ _ _ H), (pass_F_right _ _ _ _ _ H), (pass_F_vtc _ _ _ _ _ H).
  refine (conj _ (conj _ (conj _ (conj _ (conj _ _)))));
    try (apply sketch_force_nonneg; auto);
    intros Hv;
    (split;
     [ unfold forceFromVoltage; rewrite (raw_above_baseline _ _ Hv); reflexivity
     | intros Hf; rewrite <- (above_baseline _ _ _ Hv);
       apply force_value_any; auto ]).
Qed.

Lemma calibrated_force_witness :
  ensures calibrated_pass (fun '(g', c, _) =>
    flt (v_rest_left loadedInFront) (filtered_v_left g') = true /\
    F_left c = S754_finite false 11994212 (-18) /\
    (Rabs (F2R (F_left c) - specifiedForce (F2R (filtered_v_left g')) 1 (591 / 100))
     <= / 512)%R).
Proof.
  pose proof (calibrated_force (readingsAt 3000 3000 3000 0) loadedInFront) as H.
  change (loop _ _) with calibrated_pass in H.
  unfold calibrated_pass, ensures in *.
  destruct H as (H & _).
  destruct (H eq_refl) as (_ & Hr).
  exact (conj eq_refl (conj eq_refl (Hr eq_refl))).
Defined.
